(** * Bulk-Subtags: the indentation path enumerator

    A shallow embedding of the text-to-tag-path routines of
    [src/__init__.py]: [replace_spaces_with_underscores],
    [parse_indentation_level], [parse_indented_subtags_enumerate_all] and the
    prefixing loop of [BulkSubtagDialog.getData], followed by the properties
    the specification states about them.

    Python strings are sequences of Unicode code points; a character is
    modelled as its code point in [N] and a [str] as a list of them.  Python
    integers are unbounded, so counters are [nat].  The two fixed-size lists
    of the enumerator are lists accessed through checked [getitem] and
    [setitem], which raise [IndexError] out of range as Python does. *)

From Stdlib Require Import Ascii String.
From stdpp Require Import base numbers list gmap.

Local Open Scope nat_scope.

(** ** Characters and strings *)

Abbreviation char := N.
Abbreviation pystr := (list N).

(** A literal of the source, read as code points. *)
Definition str (s : string) : pystr := map N_of_ascii (list_ascii_of_string s).
Arguments str s%_string.

Definition SPACE : char := 32%N.
Definition TAB : char := 9%N.
Definition UNDERSCORE : char := 95%N.
Definition ZERO : char := 48%N.

(** [sep] of the call ["::".join(...)]. *)
Definition SEP : pystr := [58%N; 58%N].

(** The characters [str.strip()] removes when called without argument:
    CPython's [Py_UNICODE_ISSPACE]. *)
Definition py_isspace (c : char) : bool :=
  ((9 <=? c) && (c <=? 13) || (28 <=? c) && (c <=? 32)
   || (c =? 133) || (c =? 160) || (c =? 5760)
   || (8192 <=? c) && (c <=? 8202)
   || (c =? 8232) || (c =? 8233) || (c =? 8239) || (c =? 8287)
   || (c =? 12288))%N.

Fixpoint lstrip (s : pystr) : pystr :=
  match s with
  | [] => []
  | c :: s' => if py_isspace c then lstrip s' else s
  end.

Definition rstrip (s : pystr) : pystr := reverse (lstrip (reverse s)).

(** [s.strip()] *)
Definition strip (s : pystr) : pystr := rstrip (lstrip s).

(** Truth value of a [str]: the empty string is false. *)
Definition str_truthy (s : pystr) : bool :=
  match s with [] => false | _ :: _ => true end.

(** [sep.join(parts)] *)
Fixpoint join (sep : pystr) (parts : list pystr) : pystr :=
  match parts with
  | [] => []
  | [p] => p
  | p :: rest => p ++ sep ++ join sep rest
  end.

(** ** Integer formatting *)

Definition digit_char (d : nat) : char := (ZERO + N.of_nat d)%N.

Fixpoint uint_chars (u : Decimal.uint) : pystr :=
  match u with
  | Decimal.Nil => []
  | Decimal.D0 u' => digit_char 0 :: uint_chars u'
  | Decimal.D1 u' => digit_char 1 :: uint_chars u'
  | Decimal.D2 u' => digit_char 2 :: uint_chars u'
  | Decimal.D3 u' => digit_char 3 :: uint_chars u'
  | Decimal.D4 u' => digit_char 4 :: uint_chars u'
  | Decimal.D5 u' => digit_char 5 :: uint_chars u'
  | Decimal.D6 u' => digit_char 6 :: uint_chars u'
  | Decimal.D7 u' => digit_char 7 :: uint_chars u'
  | Decimal.D8 u' => digit_char 8 :: uint_chars u'
  | Decimal.D9 u' => digit_char 9 :: uint_chars u'
  end.

(** [str(n)] for a non-negative integer. *)
Definition decimal (n : nat) : pystr := uint_chars (Nat.to_uint n).

(** The format spec [:02d] on a non-negative integer: decimal digits, padded
    on the left with zeros to a width of at least two. *)
Definition format_02d (n : nat) : pystr :=
  let digits := decimal n in
  replicate (2 - length digits) ZERO ++ digits.

(** ** Exceptions *)

Inductive exn : Type := IndexError.

Inductive result (A : Type) : Type :=
| Ok (a : A)
| Raise (e : exn).
Arguments Ok {A} a.
Arguments Raise {A} e.

#[global] Instance result_ret : MRet result := fun A a => Ok a.
#[global] Instance result_bind : MBind result := fun A B f m =>
  match m with
  | Ok a => f a
  | Raise e => Raise e
  end.
#[global] Instance result_fmap : FMap result := fun A B f m =>
  match m with
  | Ok a => Ok (f a)
  | Raise e => Raise e
  end.

(** [l[i]] and [l[i] = v] for a non-negative index. *)
Definition getitem {A} (l : list A) (i : nat) : result A :=
  match l !! i with
  | Some v => Ok v
  | None => Raise IndexError
  end.

Definition setitem {A} (l : list A) (i : nat) (v : A) : result (list A) :=
  if i <? length l then Ok (<[i:=v]> l) else Raise IndexError.

(** [range(a, b)] *)
Definition range (a b : nat) : list nat := seq a (b - a).

(** A [for] loop whose body updates the loop state or raises. *)
Fixpoint for_each {St A} (body : St → A → result St) (st : St) (xs : list A)
  : result St :=
  match xs with
  | [] => Ok st
  | x :: xs' => st' ← body st x; for_each body st' xs'
  end.

(** ** Helper functions for tags *)

Definition replace_spaces_with_underscores (s : pystr) : pystr :=
  (fun ch => if (ch =? SPACE)%N then UNDERSCORE else ch) <$> s.

(** First loop of [parse_indentation_level]: [acc] is [leading_spaces]. *)
Fixpoint count_leading (line : pystr) (acc : nat) : nat :=
  match line with
  | [] => acc
  | ch :: rest =>
      if (ch =? SPACE)%N then count_leading rest (acc + 1)
      else if (ch =? TAB)%N then count_leading rest (acc + 4)
      else acc
  end.

(** Second loop of [parse_indentation_level]: the characters appended to
    [new_content], with [actual_removed] threaded through. *)
Fixpoint remove_leading (line : pystr) (to_remove actual_removed : nat)
  : pystr :=
  match line with
  | [] => []
  | ch :: rest =>
      if (ch =? SPACE)%N && (actual_removed <? to_remove)
      then remove_leading rest to_remove (actual_removed + 1)
      else if (ch =? TAB)%N && (actual_removed + 4 <=? to_remove)
      then remove_leading rest to_remove (actual_removed + 4)
      else ch :: remove_leading rest to_remove actual_removed
  end.

Definition parse_indentation_level (line : pystr) : nat * pystr :=
  let leading_spaces := count_leading line 0 in
  let indent_level := leading_spaces / 4 in
  let to_remove := leading_spaces in
  let new_content := remove_leading line to_remove 0 in
  let content := strip new_content in
  (indent_level, content).

(** ** The enumerator *)

Record state : Type := State {
  counters : list nat;
  levels : list (option pystr);
  results : list pystr
}.

Definition initial_state : state :=
  State (replicate 50 0) (replicate 50 None) [].

(** Body of the loop [for i in range(indent_level + 1, len(counters))]. *)
Definition reset_slot (cl : list nat * list (option pystr)) (i : nat)
  : result (list nat * list (option pystr)) :=
  counters' ← setitem cl.1 i 0;
  levels' ← setitem cl.2 i None;
  Ok (counters', levels').

(** [[levels[i] for i in idxs if levels[i]]]: [None] and the empty string are
    false. *)
Fixpoint collect_segments (levels : list (option pystr)) (idxs : list nat)
  : result (list pystr) :=
  match idxs with
  | [] => Ok []
  | i :: idxs' =>
      v ← getitem levels i;
      tail ← collect_segments levels idxs';
      Ok (match v with
          | Some s => if str_truthy s then s :: tail else tail
          | None => tail
          end)
  end.

(** Body of the loop [for line in lines]. *)
Definition process_line (st : state) (line : pystr) : result state :=
  let '(indent_level, raw_content) := parse_indentation_level line in
  if negb (str_truthy (strip raw_content)) then Ok st
  else
    '(counters1, levels1) ←
      for_each reset_slot (counters st, levels st)
        (range (indent_level + 1) (length (counters st)));
    count ← getitem counters1 indent_level;
    counters2 ← setitem counters1 indent_level (count + 1);
    let content := replace_spaces_with_underscores raw_content in
    let enumerated_name := format_02d (count + 1) ++ [UNDERSCORE] ++ content in
    levels2 ← setitem levels1 indent_level (Some enumerated_name);
    path_segments ← collect_segments levels2 (range 0 (indent_level + 1));
    let final_path := join SEP path_segments in
    Ok (State counters2 levels2 (results st ++ [final_path])).

(** Body of the loop [for r in results], on the pair [(seen, final)]. *)
Definition dedup_step (acc : gset pystr * list pystr) (r : pystr)
  : gset pystr * list pystr :=
  if decide (r ∈ acc.1) then acc else ({[r]} ∪ acc.1, acc.2 ++ [r]).

Definition dedup (results : list pystr) : list pystr :=
  (foldl dedup_step (∅, []) results).2.

Definition parse_indented_subtags_enumerate_all (lines : list pystr)
  : result (list pystr) :=
  st ← for_each process_line initial_state lines;
  Ok (dedup (results st)).

(** ** The dialog's combination with a parent tag

    [BulkSubtagDialog.getData], as a function of the text of the parent-tag
    field and of the lines [subtagsEdit.toPlainText().splitlines()]. *)

Definition prefix_step (parentTag : pystr) (final_tags : list pystr)
  (path : pystr) : list pystr :=
  if str_truthy parentTag
  then final_tags ++ [parentTag ++ SEP ++ path]
  else final_tags ++ [path].

Definition getData (parent_text : pystr) (lines : list pystr)
  : result (list pystr) :=
  let parentTag := replace_spaces_with_underscores (strip parent_text) in
  enumerated_paths ← parse_indented_subtags_enumerate_all lines;
  Ok (foldl (prefix_step parentTag) [] enumerated_paths).

(** ** Notions of the specification

    The definitions below follow the words of the specification; the
    theorems relate them to the functions above. *)

Definition level_of (line : pystr) : nat := (parse_indentation_level line).1.
Definition content_of (line : pystr) : pystr := (parse_indentation_level line).2.

(** The test of the [continue] statement. *)
Definition is_blank (line : pystr) : bool :=
  negb (str_truthy (strip (content_of line))).

Definition whitespace_only (line : pystr) : bool := forallb py_isspace line.

Definition is_indent_char (ch : char) : bool :=
  ((ch =? SPACE) || (ch =? TAB))%N.

(** Weight 1 per space, weight 4 per tab. *)
Definition indent_weight (ch : char) : nat :=
  if (ch =? SPACE)%N then 1 else if (ch =? TAB)%N then 4 else 0.

Fixpoint leading_whitespace (line : pystr) : pystr :=
  match line with
  | [] => []
  | ch :: rest => if is_indent_char ch then ch :: leading_whitespace rest else []
  end.

Fixpoint after_leading_whitespace (line : pystr) : pystr :=
  match line with
  | [] => []
  | ch :: rest => if is_indent_char ch then after_leading_whitespace rest else line
  end.

Definition leading_weight (line : pystr) : nat :=
  sum_list (indent_weight <$> leading_whitespace line).

Definition spec_indent_level (line : pystr) : nat := leading_weight line / 4.

(** The names held by a range of level slots, in level order. *)
Fixpoint stored_names (slots : list (option pystr)) : list pystr :=
  match slots with
  | [] => []
  | Some s :: slots' =>
      if str_truthy s then s :: stored_names slots' else stored_names slots'
  | None :: slots' => stored_names slots'
  end.

(** The entries that are not preceded by an equal entry, in order. *)
Definition spec_first_occurrences (rs : list pystr) : list pystr :=
  omap id (imap (fun i r => if decide (r ∈ take i rs) then None else Some r) rs).

Definition is_digit (c : char) : bool := ((48 <=? c) && (c <=? 57))%N.

(** A segment made from one of [lines]: counter, underscore, content with
    spaces replaced. *)
Definition segment_form (lines : list pystr) (seg : pystr) : Prop :=
  ∃ (count : nat) (line : pystr),
    line ∈ lines ∧ is_blank line = false ∧ 1 ≤ count ∧
    seg = format_02d count ++ [UNDERSCORE]
            ++ replace_spaces_with_underscores (content_of line) ∧
    (count ≤ 99 →
     format_02d count = [digit_char (count / 10); digit_char (count mod 10)]).

Definition path_form (lines : list pystr) (path : pystr) : Prop :=
  ∃ segs : list pystr,
    segs ≠ [] ∧ path = join SEP segs ∧ Forall (segment_form lines) segs.

(** An outline of [n] lines, line [i] indented by [i] levels. *)
Definition nested_outline (n : nat) : list pystr :=
  (fun i => replicate (4 * i) SPACE ++ str "x") <$> seq 0 n.

(** The state all runs keep: fifty slots of each kind. *)
Definition well_sized (st : state) : Prop :=
  length (counters st) = 50 ∧ length (levels st) = 50.

(** The state after a non-blank line of level [k] and content [content],
    written without the loops; [process_line_nonblank] relates it to
    [process_line]. *)
Definition next_state (st : state) (k : nat) (content : pystr) : state :=
  let count := default 0 (counters st !! k) + 1 in
  let name :=
    format_02d count ++ [UNDERSCORE] ++ replace_spaces_with_underscores content in
  let levels' := take k (levels st) ++ Some name :: replicate (49 - k) None in
  State (take k (counters st) ++ count :: replicate (49 - k) 0)
        levels'
        (results st ++ [join SEP (stored_names (take (k + 1) levels'))]).

(** The line whose name level [i] holds after [lines] were read: the last
    non-blank line at level [i], unless a non-blank line at a shallower
    level came after it (which invalidates the name). *)
Definition observe (i : nat) (held : option pystr) (line : pystr)
  : option pystr :=
  if is_blank line then held
  else if level_of line <? i then None
  else if level_of line =? i then Some line
  else held.

Definition last_seen (i : nat) (lines : list pystr) : option pystr :=
  foldl (observe i) None lines.

(** The segment of [line] at level [i], numbered by the counter that [st]
    holds for that level. *)
Definition name_in (st : state) (i : nat) (line : pystr) : pystr :=
  format_02d (default 0 (counters st !! i)) ++ [UNDERSCORE]
  ++ replace_spaces_with_underscores (content_of line).

(** A line that starts with a digit, ends with a character other than
    whitespace and holds no space: every produced path is one. *)
Definition flat_line (p : pystr) : Prop :=
  (∃ d, head p = Some d ∧ is_digit d = true)
  ∧ (∃ b, last p = Some b ∧ py_isspace b = false)
  ∧ SPACE ∉ p.

(** What a run keeps true of the stored names and of the produced paths. *)
Definition names_form (lines : list pystr) (st : state) : Prop :=
  Forall (fun slot => ∀ s, slot = Some s → segment_form lines s) (levels st)
  ∧ Forall (path_form lines) (results st).

(** ** Further notions, for the properties beyond the specification *)

(** The counter of level [i] after [lines] were read: the number of
    non-blank lines at level [i] since the last non-blank line at a
    shallower level. *)
Definition count_step (i n : nat) (line : pystr) : nat :=
  if is_blank line then n
  else if level_of line <? i then 0
  else if level_of line =? i then n + 1
  else n.

Definition sibling_count (i : nat) (lines : list pystr) : nat :=
  foldl (count_step i) 0 lines.

(** A non-blank line at level [k]. *)
Definition is_sibling (k : nat) (line : pystr) : bool :=
  negb (whitespace_only line) && (level_of line =? k).

(** ** The segment format, in the words of the specification *)

(** [c] is [line] trimmed: [line] without a run of whitespace at each
    end. *)
Definition spec_trimmed (line c : pystr) : Prop :=
  ∃ l r,
    line = l ++ c ++ r
    ∧ forallb py_isspace l = true ∧ forallb py_isspace r = true
    ∧ (c = [] ∨
       ∃ a b, head c = Some a ∧ last c = Some b
              ∧ py_isspace a = false ∧ py_isspace b = false).

(** [seg] is the segment of level [i] once [lines] were read: the sibling
    counter of the level, at least 1 and printed with two digits up to 99,
    an underscore, and the trimmed content of the line last seen at the
    level with every space replaced by an underscore. *)
Definition spec_segment (lines : list pystr) (i : nat) (seg : pystr) : Prop :=
  ∃ line c,
    last_seen i lines = Some line ∧ spec_trimmed line c ∧ c ≠ [] ∧
    1 ≤ sibling_count i lines ∧
    seg = format_02d (sibling_count i lines) ++ [UNDERSCORE]
          ++ ((fun ch => if decide (ch = SPACE) then UNDERSCORE else ch) <$> c) ∧
    (sibling_count i lines ≤ 99 →
     format_02d (sibling_count i lines)
     = [digit_char (sibling_count i lines / 10);
        digit_char (sibling_count i lines mod 10)]).

(** [segs] are the segments of the path of the last of [lines], a line at
    level [k]: one for each level from 0 to [k] at which a line is on
    record, in level order. *)
Definition spec_path_segments (lines : list pystr) (k : nat)
    (segs : list pystr) : Prop :=
  ∃ slots : list (option pystr),
    length slots = k + 1 ∧ segs = omap id slots ∧
    ∀ i, i ≤ k →
         match last_seen i lines with
         | Some _ =>
             ∃ seg, slots !! i = Some (Some seg) ∧ spec_segment lines i seg
         | None => slots !! i = Some None
         end.

(** [q] is [p] re-numbered at level 0 and otherwise unchanged: the two
    differ in the counter of the first segment at most. *)
Definition spec_renumbered_at_level_zero (p q : pystr) : Prop :=
  ∃ n m rest,
    p = format_02d n ++ UNDERSCORE :: rest
    ∧ q = format_02d m ++ UNDERSCORE :: rest.

(** What a run keeps true of the paths: the path down to each level that
    holds a name has been produced. *)
Definition paths_recorded (st : state) : Prop :=
  ∀ i s, levels st !! i = Some (Some s) →
         join SEP (stored_names (take (i + 1) (levels st))) ∈ results st.

(** ** Text of the dialog *)

Definition LF : char := 10%N.
Definition CR : char := 13%N.

(** The characters [str.splitlines()] breaks lines at: CPython's
    [Py_UNICODE_ISLINEBREAK]. *)
Definition py_islinebreak (c : char) : bool :=
  ((10 <=? c) && (c <=? 13) || (28 <=? c) && (c <=? 30)
   || (c =? 133) || (c =? 8232) || (c =? 8233))%N.

(** Put [c] in front of the first piece, opening one if there is none. *)
Definition push_front (c : char) (pieces : list pystr) : list pystr :=
  match pieces with
  | [] => [[c]]
  | piece :: pieces' => (c :: piece) :: pieces'
  end.

(** [s.splitlines()]: a carriage return followed by a line feed is one
    break, and no empty line is reported after the last break. *)
Fixpoint splitlines (s : pystr) : list pystr :=
  match s with
  | [] => []
  | c :: s' =>
      if py_islinebreak c then
        [] :: (if (c =? CR)%N then
                 match s' with
                 | d :: s'' => if (d =? LF)%N then splitlines s'' else splitlines s'
                 | [] => []
                 end
               else splitlines s')
      else push_front c (splitlines s')
  end.

(** [BulkSubtagDialog.getData] on the texts of its two fields:
    [parentTagEdit.text()] and [subtagsEdit.toPlainText()]. *)
Definition getData_from_text (parent_text plain_text : pystr)
  : result (list pystr) :=
  getData parent_text (splitlines plain_text).

(** ** Tags of a note *)

(** [s.split()]: the maximal runs of characters that are not whitespace. *)
Fixpoint split_ws (s : pystr) : list pystr :=
  match s with
  | [] => []
  | c :: s' =>
      if py_isspace c then split_ws s'
      else match s' with
           | [] => [[c]]
           | d :: _ =>
               if py_isspace d then [c] :: split_ws s'
               else push_front c (split_ws s')
           end
  end.

(** [note.tags] is a list of tags or one string of tags. *)
Inductive note_tags : Type :=
| TagList (tags : list pystr)
| TagString (tags : pystr).

(** Body of the loop [for new_tag in full_tags]. *)
Definition add_new_tag (current_tags : list pystr) (new_tag : pystr)
  : list pystr :=
  if decide (new_tag ∈ current_tags) then current_tags
  else current_tags ++ [new_tag].

(** Body of the loop [for cid in card_ids] of [add_subtags_to_cards], on the
    tags of the note of the card: the value of [note.tags] before, and the
    value assigned to it before [note.flush()]. *)
Definition update_note_tags (tags : note_tags) (full_tags : list pystr)
  : note_tags :=
  match tags with
  | TagList l => TagList (foldl add_new_tag l full_tags)
  | TagString s =>
      TagString (join [SPACE] (foldl add_new_tag (split_ws s) full_tags))
  end.

(** A tag as a string of tags can hold it: not empty, no whitespace. *)
Definition is_token (t : pystr) : Prop :=
  t ≠ [] ∧ Forall (fun c => py_isspace c = false) t.

(** ** The tree of tags

    [TagTreeWidget.populateTree] builds nested dictionaries from the tags
    and then the items of the widget from the dictionaries.  A value of
    these dictionaries is a string (under the key ["_full"]) or a
    dictionary; a dictionary keeps its keys in the order they were added. *)

#[warnings="-register-all"]
Inductive pyval : Type :=
| VStr (s : list N)
| VDict (entries : list (list N * pyval)).

(** The exceptions a [str] found in the place of a dictionary leads to. *)
Inductive widget_exn : Type := TypeError | AttributeError.

Inductive attempt (A : Type) : Type :=
| Done (a : A)
| Fail (e : widget_exn).
Arguments Done {A} a.
Arguments Fail {A} e.

#[global] Instance attempt_ret : MRet attempt := fun A a => Done a.
#[global] Instance attempt_bind : MBind attempt := fun A B f m =>
  match m with
  | Done a => f a
  | Fail e => Fail e
  end.

Definition COLON : char := 58%N.

(** The key ["_full"]. *)
Definition FULL : pystr := str "_full".

(** [tag.split("::")]: the pieces between the occurrences of ["::"], found
    from left to right. *)
Fixpoint split_sep (s : pystr) : list pystr :=
  match s with
  | [] => [[]]
  | c :: s' =>
      if (c =? COLON)%N then
        match s' with
        | d :: s'' =>
            if (d =? COLON)%N then [] :: split_sep s''
            else push_front c (split_sep s')
        | [] => [[c]]
        end
      else push_front c (split_sep s')
  end.

(** [d.get(k)], [None] standing for a missing key. *)
Fixpoint dict_get (d : list (pystr * pyval)) (k : pystr) : option pyval :=
  match d with
  | [] => None
  | (k', v) :: d' => if decide (k' = k) then Some v else dict_get d' k
  end.

(** [d[k] = v]: a key already there keeps its place. *)
Fixpoint dict_set (d : list (pystr * pyval)) (k : pystr) (v : pyval)
  : list (pystr * pyval) :=
  match d with
  | [] => [(k, v)]
  | (k', v') :: d' =>
      if decide (k' = k) then (k, v) :: d' else (k', v') :: dict_set d' k v
  end.

(** The two statements under [for tag in get_all_tags()] that walk down
    from [current] along [parts], each step
    [current = current.setdefault(part, {})], and end with
    [current["_full"] = tag]; the result is [current] as it is afterwards. *)
Fixpoint insert_tag (parts : list pystr) (tag : pystr) (current : pyval)
  : attempt pyval :=
  match parts with
  | [] =>
      match current with
      | VDict d => Done (VDict (dict_set d FULL (VStr tag)))
      | VStr _ => Fail TypeError
      end
  | part :: rest =>
      match current with
      | VDict d =>
          child ← insert_tag rest tag (default (VDict []) (dict_get d part));
          Done (VDict (dict_set d part child))
      | VStr _ => Fail AttributeError
      end
  end.

(** The loop [for tag in get_all_tags()], on [treeDict]. *)
Fixpoint build_tree (tags : list pystr) (treeDict : pyval) : attempt pyval :=
  match tags with
  | [] => Done treeDict
  | tag :: tags' =>
      treeDict' ← insert_tag (split_sep tag) tag treeDict;
      build_tree tags' treeDict'
  end.

(** An item of the tree widget: its text, its data under the user role,
    whether it is hidden, whether it is expanded, and its children. *)
#[warnings="-register-all"]
Inductive item : Type :=
| Item (text : list N) (data : pyval) (hidden expanded : bool)
       (children : list item).

Definition item_text (it : item) : pystr :=
  match it with Item text _ _ _ _ => text end.
Definition item_data (it : item) : pyval :=
  match it with Item _ data _ _ _ => data end.
Definition item_hidden (it : item) : bool :=
  match it with Item _ _ hidden _ _ => hidden end.
Definition item_expanded (it : item) : bool :=
  match it with Item _ _ _ expanded _ => expanded end.
Definition item_children (it : item) : list item :=
  match it with Item _ _ _ _ children => children end.

(** [addItems(parent, subtree)]: the items added under [parent], a new item
    being neither hidden nor expanded. *)
Fixpoint addItems (subtree : pyval) : attempt (list item) :=
  match subtree with
  | VStr _ => Fail AttributeError
  | VDict entries =>
      (fix loop (es : list (pystr * pyval)) : attempt (list item) :=
         match es with
         | [] => Done []
         | (key, value) :: es' =>
             if decide (key = FULL) then loop es'
             else
               match value with
               | VStr _ => Fail AttributeError
               | VDict ventries =>
                   let full_tag := default (VStr key) (dict_get ventries FULL) in
                   children ← addItems value;
                   siblings ← loop es';
                   Done (Item key full_tag false false children :: siblings)
               end
         end) entries
  end.

Definition populateTree (tags : list pystr) : attempt (list item) :=
  treeDict ← build_tree tags (VDict []);
  addItems treeDict.

(** ** Filtering the tree

    [str.lower] is taken as a parameter [lower]. *)

(** [tok in text] *)
Fixpoint starts_with (text tok : pystr) : bool :=
  match tok, text with
  | [], _ => true
  | _ :: _, [] => false
  | c :: tok', d :: text' => (c =? d)%N && starts_with text' tok'
  end.

Fixpoint contains (text tok : pystr) : bool :=
  starts_with text tok
  || match text with
     | [] => false
     | _ :: text' => contains text' tok
     end.

(** [[t.strip().lower() for t in query.split() if t.strip()]] *)
Definition filter_tokens (lower : pystr → pystr) (query : pystr) : list pystr :=
  (fun t => lower (strip t))
    <$> List.filter (fun t => str_truthy (strip t)) (split_ws query).

(** [(item.data(0, Qt.ItemDataRole.UserRole) or "").lower()]: an empty
    string and an empty dictionary are false; a dictionary that is not
    empty has no method [lower]. *)
Definition data_lower (lower : pystr → pystr) (data : pyval) : attempt pystr :=
  match data with
  | VStr s => Done (lower (if str_truthy s then s else []))
  | VDict [] => Done (lower [])
  | VDict (_ :: _) => Fail AttributeError
  end.

(** [matches(item)] *)
Definition matches (lower : pystr → pystr) (tokens : list pystr) (it : item)
  : attempt bool :=
  let text := lower (item_text it) in
  full_tag ← data_lower lower (item_data it);
  Done (match tokens with
        | [] => true
        | _ :: _ =>
            existsb (fun tok => contains text tok || contains full_tag tok)
              tokens
        end).

(** [filterItem(item)]: the value returned and the item as it is left. *)
Fixpoint filterItem (lower : pystr → pystr) (tokens : list pystr) (it : item)
  : attempt (bool * item) :=
  match it with
  | Item text data hidden expanded children =>
      me ← matches lower tokens it;
      r ← (fix loop (cs : list item) : attempt (bool * list item) :=
             match cs with
             | [] => Done (false, [])
             | c :: cs' =>
                 rc ← filterItem lower tokens c;
                 rcs ← loop cs';
                 Done (rc.1 || rcs.1, rc.2 :: rcs.2)
             end) children;
      let show_me := me || r.1 in
      Done (show_me, Item text data (negb show_me) expanded r.2)
  end.

(** [for i in range(item.childCount()): ...], and the same loop over the
    top-level items: whether an item was shown, and the items as left. *)
Fixpoint filterItems (lower : pystr → pystr) (tokens : list pystr)
  (items : list item) : attempt (bool * list item) :=
  match items with
  | [] => Done (false, [])
  | c :: cs =>
      rc ← filterItem lower tokens c;
      rcs ← filterItems lower tokens cs;
      Done (rc.1 || rcs.1, rc.2 :: rcs.2)
  end.

(** [filterTree(query)] on the top-level items of the widget. *)
Definition filterTree (lower : pystr → pystr) (query : pystr)
  (items : list item) : attempt (list item) :=
  r ← filterItems lower (filter_tokens lower query) items;
  Done r.2.

(** The items of a tree, at every depth. *)
Fixpoint subitems (it : item) : list item :=
  it :: (fix all (cs : list item) : list item :=
           match cs with
           | [] => []
           | c :: cs' => subitems c ++ all cs'
           end) (item_children it).

Definition all_items (items : list item) : list item :=
  flat_map subitems items.

(** The item with every item in it shown. *)
Fixpoint unhide (it : item) : item :=
  match it with
  | Item text data hidden expanded children =>
      Item text data false expanded
        ((fix all (cs : list item) : list item :=
            match cs with
            | [] => []
            | c :: cs' => unhide c :: all cs'
            end) children)
  end.

(** An item whose data is a dictionary that is not empty. *)
Definition dict_data (it : item) : Prop :=
  ∃ e es, item_data it = VDict (e :: es).

(** ** Saved expansions

    [settings["expansions"]] maps tags to the expanded state last seen. *)

(** [walk(item)] of [applySavedExpansions]: the item as it is left.  A
    dictionary that is not empty cannot be a key. *)
Fixpoint walk (expansions : gmap (list N) bool) (it : item) : attempt item :=
  match it with
  | Item text data hidden expanded children =>
      expanded' ←
        match data with
        | VStr s =>
            Done (if str_truthy s then default false (expansions !! s)
                  else expanded)
        | VDict [] => Done expanded
        | VDict (_ :: _) => Fail TypeError
        end;
      children' ←
        (fix loop (cs : list item) : attempt (list item) :=
           match cs with
           | [] => Done []
           | c :: cs' =>
               c' ← walk expansions c;
               cs'' ← loop cs';
               Done (c' :: cs'')
           end) children;
      Done (Item text data hidden expanded' children')
  end.

(** [applySavedExpansions()] on the top-level items. *)
Fixpoint applySavedExpansions (expansions : gmap (list N) bool)
  (items : list item) : attempt (list item) :=
  match items with
  | [] => Done []
  | c :: cs =>
      c' ← walk expansions c;
      cs' ← applySavedExpansions expansions cs;
      Done (c' :: cs')
  end.

(** [onItemExpandedOrCollapsed(item, expanded)]: [settings["expansions"]]
    as it is left (and then written to the settings file). *)
Definition onItemExpandedOrCollapsed (expansions : gmap (list N) bool)
  (it : item) (expanded : bool) : attempt (gmap (list N) bool) :=
  match item_data it with
  | VStr s => Done (if str_truthy s then <[s:=expanded]> expansions
                    else expansions)
  | VDict [] => Done expansions
  | VDict (_ :: _) => Fail TypeError
  end.

(** [collapseAll()]: the item with every item in it collapsed. *)
Fixpoint collapse (it : item) : item :=
  match it with
  | Item text data hidden expanded children =>
      Item text data hidden false
        ((fix all (cs : list item) : list item :=
            match cs with
            | [] => []
            | c :: cs' => collapse c :: all cs'
            end) children)
  end.

(** The item with the saved state given to every item in it whose data is
    a tag; [walk_plain] relates it to [walk]. *)
Fixpoint restore (expansions : gmap (list N) bool) (it : item) : item :=
  match it with
  | Item text data hidden expanded children =>
      Item text data hidden
        (match data with
         | VStr s =>
             if str_truthy s then default false (expansions !! s) else expanded
         | VDict _ => expanded
         end)
        ((fix all (cs : list item) : list item :=
            match cs with
            | [] => []
            | c :: cs' => restore expansions c :: all cs'
            end) children)
  end.

(** The part of [TagTreeWidget.__init__] that fills the tree:
    [populateTree()], [collapseAll()], [applySavedExpansions()]. *)
Definition tree_widget_init (tags : list pystr)
  (expansions : gmap (list N) bool) : attempt (list item) :=
  items ← populateTree tags;
  applySavedExpansions expansions (collapse <$> items).

(** An item is hidden exactly when neither it nor a child of it is to be
    shown. *)
Definition follows_rule (lower : pystr → pystr) (tokens : list pystr)
  (sub : item) : Prop :=
  ∃ me, matches lower tokens sub = Done me
        ∧ item_hidden sub
          = negb (me || existsb (fun c => negb (item_hidden c))
                          (item_children sub)).

(** What [filterItem] does to an item it accepts. *)
Definition filtered_item (lower : pystr → pystr) (tokens : list pystr)
  (it : item) : Prop :=
  ∀ s it', filterItem lower tokens it = Done (s, it') →
    s = negb (item_hidden it') ∧ unhide it' = unhide it
    ∧ filterItem lower tokens it' = Done (s, it')
    ∧ ∀ sub, sub ∈ subitems it' → follows_rule lower tokens sub.

(** An item whose data is a string, as are the data of the items in it. *)
Definition plain_data (it : item) : Prop :=
  ∀ it', it' ∈ subitems it → ∃ s, item_data it' = VStr s.

(** A tree of dictionaries in which ["_full"] leads to a string and every
    other key to such a tree: what tags without a part ["_full"] build. *)
Fixpoint tree_ok (v : pyval) : Prop :=
  match v with
  | VStr _ => False
  | VDict entries =>
      (fix all (es : list (pystr * pyval)) : Prop :=
         match es with
         | [] => True
         | (k, c) :: es' =>
             (if decide (k = FULL) then ∃ t, c = VStr t else tree_ok c)
             ∧ all es'
         end) entries
  end.

Definition entry_ok (kv : pystr * pyval) : Prop :=
  if decide (kv.1 = FULL) then ∃ t, kv.2 = VStr t else tree_ok kv.2.

(** The value reached from [v] along the keys [parts]. *)
Fixpoint find_node (parts : list pystr) (v : pyval) : option pyval :=
  match parts with
  | [] => Some v
  | part :: rest =>
      match v with
      | VDict d =>
          match dict_get d part with
          | Some c => find_node rest c
          | None => None
          end
      | VStr _ => None
      end
  end.

(** Whether a dictionary is reached along [parts], and the tag it holds
    under ["_full"] if it holds one. *)
Definition node_tag (parts : list pystr) (v : pyval) : option (option pystr) :=
  match find_node parts v with
  | Some (VDict d) =>
      Some (match dict_get d FULL with
            | Some (VStr t) => Some t
            | _ => None
            end)
  | _ => None
  end.

(** What reading one more tag does to the node at [q]. *)
Definition node_step (q : list pystr) (held : option (option pystr))
  (tag : pystr) : option (option pystr) :=
  if decide (q = split_sep tag) then Some (Some tag)
  else if decide (q `prefix_of` split_sep tag) then Some (default None held)
  else held.

(** The first of [items] whose text is [part]. *)
Fixpoint find_by_text (part : pystr) (items : list item) : option item :=
  match items with
  | [] => None
  | it :: items' =>
      if decide (item_text it = part) then Some it
      else find_by_text part items'
  end.

(** The item reached from the top-level [items] along the texts [q]. *)
Fixpoint find_item (q : list pystr) (items : list item) : option item :=
  match q with
  | [] => None
  | part :: rest =>
      match find_by_text part items with
      | None => None
      | Some it =>
          match rest with
          | [] => Some it
          | _ :: _ => find_item rest (item_children it)
          end
      end
  end.

(** * Properties *)

(** ** Loops and checked accesses *)

Section Loops.
Context {St A : Type} (body : St → A → result St).

Lemma for_each_app st xs ys :
  for_each body st (xs ++ ys)
  = (st' ← for_each body st xs; for_each body st' ys).
Proof.
  revert st. induction xs as [|x xs IH]; intros st; simpl; [done|].
  destruct (body st x) as [st1|e]; simpl; [apply IH | done].
Qed.

Lemma for_each_snoc st xs x :
  for_each body st (xs ++ [x]) = (st' ← for_each body st xs; body st' x).
Proof.
  rewrite for_each_app. destruct (for_each body st xs) as [st1|e]; simpl; [|done].
  by destruct (body st1 x).
Qed.
End Loops.

Lemma bind_Ok {A B} (a : A) (f : A → result B) : (Ok a ≫= f) = f a.
Proof. done. Qed.

Lemma setitem_ok {A} (l : list A) i v :
  i < length l → setitem l i v = Ok (<[i:=v]> l).
Proof.
  intros Hi. unfold setitem.
  destruct (Nat.ltb_spec i (length l)); [done | lia].
Qed.

Lemma setitem_raise {A} (l : list A) i v :
  length l ≤ i → setitem l i v = Raise IndexError.
Proof.
  intros Hi. unfold setitem.
  destruct (Nat.ltb_spec i (length l)); [lia | done].
Qed.

Lemma getitem_ok {A} (l : list A) i v : l !! i = Some v → getitem l i = Ok v.
Proof. intros H. unfold getitem. by rewrite H. Qed.

Lemma getitem_raise {A} (l : list A) i :
  length l ≤ i → getitem l i = Raise IndexError.
Proof. intros H. unfold getitem. by rewrite lookup_ge_None_2. Qed.

(** ** Whitespace and [strip] *)

Ltac decide_cmp :=
  repeat match goal with
    | |- context [(?a <=? ?b)%N] => destruct (N.leb_spec a b); try lia
    | |- context [(?a =? ?b)%N] => destruct (N.eqb_spec a b); try lia
    end.

Lemma printable_not_space c : (33 ≤ c ≤ 132)%N → py_isspace c = false.
Proof. intros Hc. unfold py_isspace. decide_cmp; done. Qed.

Lemma digit_not_space c : is_digit c = true → py_isspace c = false.
Proof.
  unfold is_digit. intros [H1 H2]%andb_prop.
  apply N.leb_le in H1, H2. apply printable_not_space. lia.
Qed.

Lemma lstrip_suffix s : ∃ w, s = w ++ lstrip s ∧ forallb py_isspace w = true.
Proof.
  induction s as [|c s (w & Hw & Hall)]; [by exists []|].
  simpl. destruct (py_isspace c) eqn:Hc.
  - exists (c :: w). simpl. rewrite Hc, Hall. by rewrite <- Hw.
  - by exists [].
Qed.

Lemma lstrip_head s c : head (lstrip s) = Some c → py_isspace c = false.
Proof.
  induction s as [|d s IH]; simpl; [done|].
  destruct (py_isspace d) eqn:Hd; [done|]. simpl. congruence.
Qed.

Lemma lstrip_id s c : head s = Some c → py_isspace c = false → lstrip s = s.
Proof. destruct s as [|d s]; simpl; [done|]. intros [= ->] ->. done. Qed.

Lemma lstrip_all s : forallb py_isspace s = true → lstrip s = [].
Proof.
  induction s as [|c s IH]; simpl; [done|].
  intros [Hc H]%andb_prop. rewrite Hc. auto.
Qed.

Lemma strip_whitespace_only s : forallb py_isspace s = true → strip s = [].
Proof. intros H. unfold strip, rstrip. by rewrite (lstrip_all s). Qed.

Lemma strip_fixed s a b :
  head s = Some a → last s = Some b →
  py_isspace a = false → py_isspace b = false → strip s = s.
Proof.
  intros Ha Hb Hsa Hsb. unfold strip, rstrip.
  rewrite (lstrip_id s a) by done.
  rewrite (lstrip_id (reverse s) b), reverse_involutive; try done.
  by rewrite head_reverse.
Qed.

Lemma strip_ends s :
  strip s ≠ [] →
  ∃ a b, head (strip s) = Some a ∧ last (strip s) = Some b ∧
         py_isspace a = false ∧ py_isspace b = false.
Proof.
  unfold strip, rstrip. set (t := lstrip s).
  destruct (lstrip_suffix (reverse t)) as (w & Hw & _).
  set (u := lstrip (reverse t)) in *. intros Hne.
  destruct u as [|b u'] eqn:Hu; [done|].
  assert (Hb : py_isspace b = false).
  { apply (lstrip_head (reverse t)). fold u. by rewrite Hu. }
  assert (Ht : t = reverse (b :: u') ++ reverse w).
  { rewrite <- reverse_app, <- Hw. by rewrite reverse_involutive. }
  destruct (reverse (b :: u')) as [|a r] eqn:Hr; [done|].
  exists a, b. split_and!; [done | | | done].
  - rewrite <- Hr, last_reverse. done.
  - apply (lstrip_head s). fold t. by rewrite Ht.
Qed.

Lemma forallb_reverse_true {A} (f : A → bool) l :
  forallb f l = true → forallb f (reverse l) = true.
Proof.
  rewrite !forallb_forall. intros H x Hx. apply H.
  by apply list_elem_of_In, elem_of_reverse, list_elem_of_In.
Qed.

(** [strip] removes a run of whitespace at each end and nothing else. *)
Lemma strip_decompose s :
  ∃ l r, s = l ++ strip s ++ r
         ∧ forallb py_isspace l = true ∧ forallb py_isspace r = true.
Proof.
  unfold strip, rstrip.
  destruct (lstrip_suffix s) as (l & Hs & Hl).
  destruct (lstrip_suffix (reverse (lstrip s))) as (w & Ht & Hw).
  exists l, (reverse w). split_and!; [|done|by apply forallb_reverse_true].
  rewrite <- reverse_app, <- Ht, reverse_involutive. done.
Qed.

Lemma strip_idemp s : strip (strip s) = strip s.
Proof.
  destruct (decide (strip s = [])) as [->|Hne]; [done|].
  destruct (strip_ends s Hne) as (a & b & Ha & Hb & Hsa & Hsb).
  by apply (strip_fixed _ a b).
Qed.

Lemma str_truthy_true s : str_truthy s = true ↔ s ≠ [].
Proof. by destruct s. Qed.

Lemma str_truthy_false s : str_truthy s = false ↔ s = [].
Proof. by destruct s. Qed.

(** ** [parse_indentation_level] *)

Lemma leading_weight_cons ch rest :
  leading_weight (ch :: rest)
  = if is_indent_char ch then indent_weight ch + leading_weight rest else 0.
Proof. unfold leading_weight. simpl. by destruct (is_indent_char ch). Qed.

Lemma count_leading_weight line acc :
  count_leading line acc = acc + leading_weight line.
Proof.
  revert acc. induction line as [|ch rest IH]; intros acc.
  - unfold leading_weight. simpl. lia.
  - rewrite leading_weight_cons. simpl.
    unfold is_indent_char, indent_weight.
    destruct (ch =? SPACE)%N; simpl; [rewrite IH; lia|].
    destruct (ch =? TAB)%N; simpl; [rewrite IH; lia | lia].
Qed.

Lemma remove_leading_none line n : remove_leading line n n = line.
Proof.
  induction line as [|ch rest IH]; simpl; [done|].
  rewrite (proj2 (Nat.ltb_ge n n)), (proj2 (Nat.leb_gt (n + 4) n)) by lia.
  rewrite !andb_false_r. by rewrite IH.
Qed.

Lemma remove_leading_exact line acc :
  remove_leading line (acc + leading_weight line) acc
  = after_leading_whitespace line.
Proof.
  revert acc. induction line as [|ch rest IH]; intros acc; [done|].
  rewrite leading_weight_cons. simpl.
  unfold is_indent_char, indent_weight.
  destruct (ch =? SPACE)%N; simpl.
  - rewrite (proj2 (Nat.ltb_lt _ _)) by lia.
    rewrite <- (IH (acc + 1)). f_equal. lia.
  - destruct (ch =? TAB)%N; simpl.
    + rewrite (proj2 (Nat.leb_le _ _)) by lia.
      rewrite <- (IH (acc + 4)). f_equal. lia.
    + rewrite Nat.add_0_r. by rewrite remove_leading_none.
Qed.

Lemma parse_indentation_level_spec line :
  parse_indentation_level line
  = (spec_indent_level line, strip (after_leading_whitespace line)).
Proof.
  unfold parse_indentation_level, spec_indent_level.
  rewrite count_leading_weight. simpl.
  by rewrite <- (remove_leading_exact line 0).
Qed.

Lemma leading_weight_app ws rest :
  forallb is_indent_char ws = true →
  leading_weight (ws ++ rest) = leading_weight ws + leading_weight rest.
Proof.
  induction ws as [|ch ws IH]; simpl; [done|].
  intros [Hch Hws]%andb_prop. rewrite !leading_weight_cons, Hch, IH by done. lia.
Qed.

Lemma after_leading_whitespace_app ws rest :
  forallb is_indent_char ws = true →
  after_leading_whitespace (ws ++ rest) = after_leading_whitespace rest.
Proof.
  induction ws as [|ch ws IH]; simpl; [done|].
  intros [Hch Hws]%andb_prop. rewrite Hch. auto.
Qed.

(** ** One line of the outline *)

Lemma reset_slot_ok cs ls i :
  i < length cs → i < length ls →
  reset_slot (cs, ls) i = Ok (<[i:=0]> cs, <[i:=None]> ls).
Proof. intros. unfold reset_slot. simpl. by rewrite !setitem_ok by done. Qed.

Lemma reset_loop cs ls a k :
  a + k ≤ length cs → length ls = length cs →
  for_each reset_slot (cs, ls) (seq a k)
  = Ok (take a cs ++ replicate k 0 ++ drop (a + k) cs,
        take a ls ++ replicate k None ++ drop (a + k) ls).
Proof.
  revert a cs ls. induction k as [|k IH]; intros a cs ls Hlen Heq; simpl.
  - by rewrite Nat.add_0_r, !take_drop.
  - rewrite reset_slot_ok by lia. simpl.
    rewrite IH by (rewrite !length_insert; lia).
    assert (is_Some (cs !! a)) as [c Hc] by (apply lookup_lt_is_Some; lia).
    assert (is_Some (ls !! a)) as [l Hl] by (apply lookup_lt_is_Some; lia).
    rewrite !drop_insert_lt by lia.
    rewrite (take_S_r (<[a:=0]> cs) a 0) by (apply list_lookup_insert_eq; lia).
    rewrite (take_S_r (<[a:=None]> ls) a None)
      by (apply list_lookup_insert_eq; lia).
    rewrite !take_insert_ge by lia.
    rewrite <- !(assoc_L (++)). simpl.
    by replace (a + S k) with (S (a + k)) by lia.
Qed.

Lemma collect_segments_seq l a m :
  a + m ≤ length l →
  collect_segments l (seq a m) = Ok (stored_names (take m (drop a l))).
Proof.
  revert a. induction m as [|m IH]; intros a Hlen; simpl; [done|].
  assert (is_Some (l !! a)) as [v Hv] by (apply lookup_lt_is_Some; lia).
  rewrite (getitem_ok _ _ _ Hv). simpl.
  rewrite IH by lia. simpl.
  rewrite (drop_S _ _ _ Hv). simpl. by destruct v as [s|].
Qed.

Lemma is_blank_content line : is_blank line = (negb (str_truthy (content_of line))).
Proof.
  unfold is_blank, content_of, parse_indentation_level. simpl.
  by rewrite strip_idemp.
Qed.

Lemma process_line_blank st line :
  is_blank line = true → process_line st line = Ok st.
Proof.
  unfold is_blank, content_of, process_line.
  destruct (parse_indentation_level line) as [k c]. simpl. by intros ->.
Qed.

Lemma process_line_nonblank st line :
  well_sized st → is_blank line = false → level_of line < 50 →
  process_line st line = Ok (next_state st (level_of line) (content_of line)).
Proof.
  intros [Hc Hl]. unfold is_blank, content_of, level_of, process_line.
  destruct (parse_indentation_level line) as [k c]. simpl fst; simpl snd.
  intros -> Hk.
  assert (is_Some (counters st !! k)) as [count Hcount]
    by (apply lookup_lt_is_Some; lia).
  assert (is_Some (levels st !! k)) as [old Hold]
    by (apply lookup_lt_is_Some; lia).
  assert (Hkc : length (take k (counters st)) = k) by (rewrite length_take; lia).
  assert (Hkl : length (take k (levels st)) = k) by (rewrite length_take; lia).
  unfold range. rewrite Hc, reset_loop by lia.
  rewrite bind_Ok. cbv beta iota.
  replace (k + 1 + (50 - (k + 1))) with 50 by lia.
  rewrite !drop_ge, !app_nil_r by lia.
  replace (50 - (k + 1)) with (49 - k) by lia.
  replace (k + 1 - 0) with (k + 1) by lia.
  replace (take (k + 1) (counters st)) with (take k (counters st) ++ [count])
    by (replace (k + 1) with (S k) by lia; by rewrite (take_S_r _ _ _ Hcount)).
  replace (take (k + 1) (levels st)) with (take k (levels st) ++ [old])
    by (replace (k + 1) with (S k) by lia; by rewrite (take_S_r _ _ _ Hold)).
  rewrite <- !(assoc_L (++)).
  change ([count] ++ ?l) with (count :: l). change ([old] ++ ?l) with (old :: l).
  rewrite (getitem_ok _ k count)
    by (rewrite lookup_app_r by lia; by rewrite Hkc, Nat.sub_diag).
  rewrite bind_Ok.
  rewrite !setitem_ok by (rewrite length_app; simpl; lia).
  rewrite !bind_Ok.
  rewrite (insert_app_r_alt (take k (counters st))) by lia.
  rewrite (insert_app_r_alt (take k (levels st))) by lia.
  rewrite Hkc, Hkl, Nat.sub_diag.
  change (<[0:=?v]> (?x :: ?l)) with (v :: l).
  rewrite collect_segments_seq
    by (rewrite length_app; simpl; rewrite length_replicate; lia).
  rewrite bind_Ok. unfold next_state. rewrite Hcount. reflexivity.
Qed.

Lemma process_line_deep st line :
  well_sized st → is_blank line = false → 50 ≤ level_of line →
  process_line st line = Raise IndexError.
Proof.
  intros [Hc Hl]. unfold is_blank, content_of, level_of, process_line.
  destruct (parse_indentation_level line) as [k c]. simpl. intros -> Hk.
  unfold range. rewrite Hc.
  replace (50 - (k + 1)) with 0 by lia. simpl.
  by rewrite getitem_raise by lia.
Qed.

Lemma next_state_well_sized st k content :
  well_sized st → k < 50 → well_sized (next_state st k content).
Proof.
  intros [Hc Hl] Hk. unfold well_sized, next_state. simpl.
  rewrite !length_app. simpl. rewrite !length_take, !length_replicate. lia.
Qed.

Lemma initial_state_well_sized : well_sized initial_state.
Proof. done. Qed.

Lemma process_line_well_sized st line st' :
  well_sized st → process_line st line = Ok st' → well_sized st'.
Proof.
  intros Hst Hrun. destruct (is_blank line) eqn:Hb.
  - rewrite process_line_blank in Hrun by done. by injection Hrun as <-.
  - destruct (decide (level_of line < 50)) as [Hk|Hk].
    + rewrite process_line_nonblank in Hrun by done. injection Hrun as <-.
      by apply next_state_well_sized.
    + rewrite process_line_deep in Hrun by (done || lia). done.
Qed.

Lemma run_well_sized lines st st' :
  well_sized st → for_each process_line st lines = Ok st' → well_sized st'.
Proof.
  revert st. induction lines as [|line lines IH]; intros st Hst; simpl.
  - by intros [= <-].
  - destruct (process_line st line) as [st1|e] eqn:H1; simpl; [|done].
    apply IH. by eapply process_line_well_sized.
Qed.

(** ** Blank lines *)

Lemma after_leading_whitespace_split line :
  line = leading_whitespace line ++ after_leading_whitespace line.
Proof.
  induction line as [|ch rest IH]; simpl; [done|].
  destruct (is_indent_char ch); simpl; [by f_equal | done].
Qed.

Lemma indent_char_isspace ch : is_indent_char ch = true → py_isspace ch = true.
Proof.
  unfold is_indent_char. intros [H|H]%orb_prop; apply N.eqb_eq in H; by subst.
Qed.

Lemma leading_whitespace_isspace line :
  forallb py_isspace (leading_whitespace line) = true.
Proof.
  induction line as [|ch rest IH]; simpl; [done|].
  destruct (is_indent_char ch) eqn:Hch; simpl; [|done].
  by rewrite (indent_char_isspace ch Hch).
Qed.

Lemma strip_empty_iff s : strip s = [] ↔ forallb py_isspace s = true.
Proof.
  split; [|apply strip_whitespace_only].
  unfold strip, rstrip. intros H.
  destruct (lstrip_suffix s) as (w & Hs & Hw).
  destruct (lstrip_suffix (reverse (lstrip s))) as (w' & Hs' & Hw').
  apply (f_equal reverse) in H. rewrite reverse_involutive in H.
  rewrite H, app_nil_r in Hs'. apply (f_equal reverse) in Hs'.
  rewrite reverse_involutive in Hs'.
  rewrite Hs, Hs', forallb_app, Hw. simpl.
  by apply forallb_reverse_true.
Qed.

Lemma is_blank_whitespace_only line : is_blank line = whitespace_only line.
Proof.
  rewrite is_blank_content. unfold content_of, whitespace_only.
  rewrite parse_indentation_level_spec. simpl.
  rewrite (after_leading_whitespace_split line) at 2.
  rewrite forallb_app, leading_whitespace_isspace. simpl.
  destruct (forallb py_isspace (after_leading_whitespace line)) eqn:Hall.
  - by rewrite (proj2 (strip_empty_iff _) Hall).
  - destruct (strip (after_leading_whitespace line)) eqn:Hs; [|done].
    apply strip_empty_iff in Hs. congruence.
Qed.

(** ** Dropping duplicates *)

Lemma seen_spec rs x : x ∈ (foldl dedup_step (∅, []) rs).1 ↔ x ∈ rs.
Proof.
  revert x. induction rs as [|r rs IH] using rev_ind; intros x; simpl;
    [set_solver|].
  rewrite foldl_snoc. unfold dedup_step at 1.
  destruct (decide (r ∈ (foldl dedup_step (∅, []) rs).1)) as [Hin|Hin]; simpl.
  - rewrite IH, elem_of_app, list_elem_of_singleton.
    assert (r ∈ rs) by (by apply IH). intuition congruence.
  - rewrite elem_of_union, elem_of_singleton, IH, elem_of_app,
      list_elem_of_singleton. tauto.
Qed.

Lemma dedup_snoc rs r :
  dedup (rs ++ [r]) = if decide (r ∈ rs) then dedup rs else dedup rs ++ [r].
Proof.
  unfold dedup. rewrite foldl_snoc. unfold dedup_step at 1.
  pose proof (seen_spec rs r) as Hseen.
  destruct (decide (r ∈ (foldl dedup_step (∅, []) rs).1)) as [Hin|Hin];
    destruct (decide (r ∈ rs)) as [Hin'|Hin']; simpl; tauto.
Qed.

Lemma dedup_elem_of rs x : x ∈ dedup rs ↔ x ∈ rs.
Proof.
  induction rs as [|r rs IH] using rev_ind; [done|].
  rewrite dedup_snoc. destruct (decide (r ∈ rs)) as [Hin|Hin];
    rewrite ?elem_of_app, ?list_elem_of_singleton, IH; intuition congruence.
Qed.

Lemma dedup_NoDup rs : NoDup (dedup rs).
Proof.
  induction rs as [|r rs IH] using rev_ind; [constructor|].
  rewrite dedup_snoc. destruct (decide (r ∈ rs)) as [Hin|Hin]. 1: exact IH.
  apply NoDup_app. split_and!; [done | | apply NoDup_singleton].
  intros x Hx Hr%list_elem_of_singleton. subst.
  by apply Hin, dedup_elem_of.
Qed.

Lemma dedup_sublist rs : dedup rs `sublist_of` rs.
Proof.
  induction rs as [|r rs IH] using rev_ind; [done|].
  rewrite dedup_snoc. destruct (decide (r ∈ rs)) as [Hin|Hin].
  - by apply sublist_inserts_r.
  - by apply sublist_app.
Qed.

Lemma spec_first_occurrences_snoc rs r :
  spec_first_occurrences (rs ++ [r])
  = if decide (r ∈ rs) then spec_first_occurrences rs
    else spec_first_occurrences rs ++ [r].
Proof.
  unfold spec_first_occurrences. rewrite imap_app, omap_app. simpl.
  rewrite Nat.add_0_r, take_app_length.
  rewrite (imap_ext _ (fun i r0 => if decide (r0 ∈ take i rs) then None else Some r0)).
  - destruct (decide (r ∈ rs)); simpl; [by rewrite app_nil_r | done].
  - intros i x Hx. apply lookup_lt_Some in Hx.
    by rewrite take_app_le by lia.
Qed.

Lemma dedup_first_occurrences rs : dedup rs = spec_first_occurrences rs.
Proof.
  induction rs as [|r rs IH] using rev_ind; [done|].
  by rewrite dedup_snoc, spec_first_occurrences_snoc, IH.
Qed.

Lemma dedup_NoDup_id rs : NoDup rs → dedup rs = rs.
Proof.
  induction rs as [|r rs IH] using rev_ind; [done|].
  intros (Hrs & Hr & _)%NoDup_app. rewrite dedup_snoc.
  destruct (decide (r ∈ rs)) as [Hin|Hin].
  - exfalso. apply (Hr r Hin). by apply list_elem_of_singleton.
  - by rewrite IH.
Qed.

(** ** The parent prefix *)

Lemma prefix_loop_truthy parent acc paths :
  parent ≠ [] →
  foldl (prefix_step parent) acc paths
  = acc ++ ((fun p => parent ++ SEP ++ p) <$> paths).
Proof.
  intros Hp. revert acc. induction paths as [|p paths IH]; intros acc; simpl.
  - by rewrite app_nil_r.
  - rewrite IH. unfold prefix_step.
    rewrite (proj2 (str_truthy_true parent) Hp). by rewrite <- (assoc_L (++)).
Qed.

Lemma prefix_loop_falsy acc paths :
  foldl (prefix_step []) acc paths = acc ++ paths.
Proof.
  revert acc. induction paths as [|p paths IH]; intros acc; simpl.
  - by rewrite app_nil_r.
  - rewrite IH. unfold prefix_step. simpl. by rewrite <- (assoc_L (++)).
Qed.

(** ** Whole runs *)

Lemma run_accepts lines st :
  well_sized st →
  Forall (fun line => whitespace_only line = true ∨ level_of line < 50) lines →
  ∃ st', for_each process_line st lines = Ok st'.
Proof.
  revert st. induction lines as [|line lines IH]; intros st Hst Hall; simpl.
  - by exists st.
  - apply Forall_cons in Hall as [Hline Hall].
    destruct (is_blank line) eqn:Hb.
    + rewrite process_line_blank by done. simpl. by apply IH.
    + destruct Hline as [Hw|Hk];
        [rewrite is_blank_whitespace_only in Hb; congruence|].
      rewrite process_line_nonblank by done. simpl.
      apply IH; [by apply next_state_well_sized | done].
Qed.

Lemma run_raises lines st :
  well_sized st →
  Exists (fun line => whitespace_only line = false ∧ 50 ≤ level_of line) lines →
  for_each process_line st lines = Raise IndexError.
Proof.
  revert st. induction lines as [|line lines IH]; intros st Hst Hex; simpl.
  - by apply Exists_nil in Hex.
  - destruct (process_line st line) as [st1|[]] eqn:Hstep; simpl; [|done].
    apply IH; [by eapply process_line_well_sized|].
    apply Exists_cons in Hex as [[Hw Hk]|Hex]; [|done].
    rewrite <- is_blank_whitespace_only in Hw.
    rewrite process_line_deep in Hstep by done. done.
Qed.

(** C1 (as the code behaves).  The four-line scenario has levels
    [0; 1; 1; 0], and the enumerator returns one path per line: the path of
    the parent line ["01_Main_Tag"] comes first, followed by the two
    children and the second main tag. *)
Theorem C1_scenario_levels_and_paths :
  level_of <$> [str "Main Tag"; str "    Sub One"; str "    Sub Two";
                str "Second Main"]
  = [0; 1; 1; 0]
  ∧ parse_indented_subtags_enumerate_all
      [str "Main Tag"; str "    Sub One"; str "    Sub Two"; str "Second Main"]
    = Ok [str "01_Main_Tag"; str "01_Main_Tag::01_Sub_One";
          str "01_Main_Tag::02_Sub_Two"; str "02_Second_Main"].
Proof. split; vm_compute; reflexivity. Qed.

(** C1, as stated, fails: the output is not the three-element sequence that
    leaves out the path of the first line. *)
Lemma C1_scenario_not_three_paths :
  parse_indented_subtags_enumerate_all
    [str "Main Tag"; str "    Sub One"; str "    Sub Two"; str "Second Main"]
  ≠ Ok [str "01_Main_Tag::01_Sub_One"; str "01_Main_Tag::02_Sub_Two";
        str "02_Second_Main"].
Proof. vm_compute. discriminate. Qed.

(** C2.  Whenever the enumerator returns, its output has no duplicates and
    consists of the produced paths that are not preceded by an equal path,
    in the order of production: it is a subsequence of the produced paths
    containing each of them. *)
Theorem C2_output_duplicate_free_first_occurrences (lines out : list pystr) :
  parse_indented_subtags_enumerate_all lines = Ok out →
  ∃ st,
    for_each process_line initial_state lines = Ok st ∧
    NoDup out ∧
    out = spec_first_occurrences (results st) ∧
    out `sublist_of` results st ∧
    (∀ p, p ∈ results st → p ∈ out).
Proof.
  unfold parse_indented_subtags_enumerate_all.
  destruct (for_each process_line initial_state lines) as [st|e]; [|done].
  rewrite bind_Ok. intros [= <-]. exists st. split_and!.
  - done.
  - apply dedup_NoDup.
  - apply dedup_first_occurrences.
  - apply dedup_sublist.
  - intros p. apply dedup_elem_of.
Qed.

Lemma C2_output_duplicate_free_witness :
  ∃ st,
    for_each process_line initial_state [str "    x"; str "x"; str "y"] = Ok st ∧
    NoDup [str "01_x"; str "02_y"] ∧
    [str "01_x"; str "02_y"] = spec_first_occurrences (results st) ∧
    [str "01_x"; str "02_y"] `sublist_of` results st ∧
    (∀ p, p ∈ results st → p ∈ [str "01_x"; str "02_y"]).
Proof.
  apply (C2_output_duplicate_free_first_occurrences
           [str "    x"; str "x"; str "y"]).
  vm_compute. reflexivity.
Defined.

(** C3 (as the code behaves).  The enumerator returns for every input whose
    non-blank lines all have an indentation level below 50, whatever their
    content; blank lines are skipped at any indentation.  A non-blank line at
    level 50 or deeper raises [IndexError].  Fifty levels (0 to 49) are
    supported: the outline nested fifty deep yields fifty paths. *)
Theorem C3_accepts_lines_below_level_fifty (lines : list pystr) :
  (Forall (fun line => whitespace_only line = true ∨ level_of line < 50) lines →
   ∃ out, parse_indented_subtags_enumerate_all lines = Ok out)
  ∧ (Exists (fun line => whitespace_only line = false ∧ 50 ≤ level_of line)
       lines →
     parse_indented_subtags_enumerate_all lines = Raise IndexError)
  ∧ (∃ out, parse_indented_subtags_enumerate_all (nested_outline 50) = Ok out
            ∧ length out = 50).
Proof.
  unfold parse_indented_subtags_enumerate_all. split_and!.
  - intros Hall.
    destruct (run_accepts lines initial_state initial_state_well_sized Hall)
      as [st ->].
    by eexists.
  - intros Hex.
    by rewrite (run_raises lines initial_state initial_state_well_sized Hex).
  - eexists. split; [vm_compute; reflexivity | reflexivity].
Qed.

Lemma C3_accepts_lines_below_level_fifty_witness :
  (∃ out, parse_indented_subtags_enumerate_all
            [str "a"; replicate 196 SPACE ++ str "b"; replicate 400 TAB] = Ok out)
  ∧ parse_indented_subtags_enumerate_all [str "a"; replicate 50 TAB ++ str "b"]
    = Raise IndexError.
Proof.
  split.
  - apply (proj1 (C3_accepts_lines_below_level_fifty
                    [str "a"; replicate 196 SPACE ++ str "b"; replicate 400 TAB])).
    repeat constructor; vm_compute; (by left) || (right; lia).
  - apply (proj1 (proj2 (C3_accepts_lines_below_level_fifty
                           [str "a"; replicate 50 TAB ++ str "b"]))).
    apply Exists_cons_tl, Exists_cons_hd. split; vm_compute; [done | lia].
Defined.

(** C3, as stated, fails: a single non-blank line indented by 200 spaces is
    rejected with [IndexError]. *)
Lemma C3_line_at_level_fifty_raises :
  level_of (replicate 200 SPACE ++ str "x") = 50
  ∧ parse_indented_subtags_enumerate_all [replicate 200 SPACE ++ str "x"]
    = Raise IndexError
  ∧ ¬ ∃ out, parse_indented_subtags_enumerate_all
               [replicate 200 SPACE ++ str "x"] = Ok out.
Proof.
  split_and!; [vm_compute; reflexivity | vm_compute; reflexivity |].
  intros [out Hout]. vm_compute in Hout. discriminate.
Qed.

(** C5.  The indentation level is the sum of the weights of the leading
    spaces (1 each) and tabs (4 each), up to the first character that is
    neither, divided by 4 rounding down; hence replacing a leading tab by
    four spaces changes neither the level nor the content. *)
Theorem C5_indentation_level_weights :
  (∀ line, (parse_indentation_level line).1 = spec_indent_level line)
  ∧ (∀ ws rest,
       forallb is_indent_char ws = true →
       parse_indentation_level (ws ++ TAB :: rest)
       = parse_indentation_level (ws ++ replicate 4 SPACE ++ rest)).
Proof.
  split.
  - intros line. by rewrite parse_indentation_level_spec.
  - intros ws rest Hws. rewrite !parse_indentation_level_spec.
    unfold spec_indent_level.
    rewrite !leading_weight_app, !after_leading_whitespace_app by done.
    simpl. rewrite !leading_weight_cons. simpl. done.
Qed.

(** A whitespace character other than a space or a tab ends the leading
    run like any other character; [strip] then removes it from the content. *)
Example other_whitespace_ends_the_indentation :
  parse_indentation_level ([160%N] ++ str "    x") = (0, str "x").
Proof. reflexivity. Qed.

Lemma C5_indentation_level_weights_witness :
  parse_indentation_level ([SPACE; SPACE] ++ TAB :: str "  Topic")
  = parse_indentation_level ([SPACE; SPACE] ++ replicate 4 SPACE ++ str "  Topic").
Proof.
  apply (proj2 C5_indentation_level_weights [SPACE; SPACE] (str "  Topic")).
  reflexivity.
Defined.

(** C6.  A blank or whitespace-only line leaves the state of the loop as it
    is (counters, stored names and produced paths), so inserting one at any
    position does not change what the enumerator returns. *)
Theorem C6_whitespace_only_line_is_inert (blank : pystr) :
  whitespace_only blank = true →
  (∀ st, process_line st blank = Ok st)
  ∧ (∀ pre post,
       parse_indented_subtags_enumerate_all (pre ++ blank :: post)
       = parse_indented_subtags_enumerate_all (pre ++ post)).
Proof.
  intros Hw. rewrite <- is_blank_whitespace_only in Hw. split.
  - intros st. by apply process_line_blank.
  - intros pre post. unfold parse_indented_subtags_enumerate_all.
    rewrite !for_each_app. simpl.
    destruct (for_each process_line initial_state pre) as [st|e]; [|done].
    rewrite !bind_Ok. by rewrite process_line_blank.
Qed.

Lemma C6_whitespace_only_line_is_inert_witness :
  (∀ st, process_line st [SPACE; TAB; SPACE] = Ok st)
  ∧ (∀ pre post,
       parse_indented_subtags_enumerate_all (pre ++ [SPACE; TAB; SPACE] :: post)
       = parse_indented_subtags_enumerate_all (pre ++ post)).
Proof.
  apply (C6_whitespace_only_line_is_inert [SPACE; TAB; SPACE]). reflexivity.
Defined.

(** C7.  With a parent tag that is non-empty after trimming, [getData]
    returns every enumerated path prefixed with the parent (its spaces
    replaced by underscores) and ["::"]; with a parent that is empty after
    trimming it returns the enumerated paths unchanged. *)
Theorem C7_parent_prefix (parent_text : pystr) (lines : list pystr) :
  (strip parent_text ≠ [] →
   getData parent_text lines
   = fmap (M:=list)
       (fun path =>
          replace_spaces_with_underscores (strip parent_text) ++ SEP ++ path)
     <$> parse_indented_subtags_enumerate_all lines)
  ∧ (strip parent_text = [] →
     getData parent_text lines = parse_indented_subtags_enumerate_all lines).
Proof.
  unfold getData. split; intros Hp.
  - destruct (parse_indented_subtags_enumerate_all lines) as [paths|e]; [|done].
    rewrite bind_Ok. rewrite prefix_loop_truthy; [done|].
    destruct (strip parent_text); [done | discriminate].
  - rewrite Hp. simpl.
    destruct (parse_indented_subtags_enumerate_all lines) as [paths|e]; [|done].
    rewrite bind_Ok. by rewrite prefix_loop_falsy.
Qed.

Lemma C7_parent_prefix_witness :
  getData (str " My Deck ") [str "a"; str "    b"]
  = Ok [str "My_Deck::01_a"; str "My_Deck::01_a::01_b"]
  ∧ getData (str "   ") [str "a"; str "    b"]
    = parse_indented_subtags_enumerate_all [str "a"; str "    b"].
Proof.
  split.
  - rewrite (proj1 (C7_parent_prefix (str " My Deck ") [str "a"; str "    b"]));
      [reflexivity | vm_compute; discriminate].
  - apply (proj2 (C7_parent_prefix (str "   ") [str "a"; str "    b"])).
    reflexivity.
Defined.

(** ** Shape of segments and paths *)

Lemma uint_chars_digits u : Forall (fun c => is_digit c = true) (uint_chars u).
Proof. induction u; simpl; by constructor. Qed.

Lemma format_02d_digits n : Forall (fun c => is_digit c = true) (format_02d n).
Proof.
  unfold format_02d, decimal. apply Forall_app. split.
  - by apply Forall_replicate.
  - apply uint_chars_digits.
Qed.

Lemma format_02d_length n : 2 ≤ length (format_02d n).
Proof. unfold format_02d. rewrite length_app, length_replicate. lia. Qed.

Lemma format_02d_two_digits n :
  n ≤ 99 → format_02d n = [digit_char (n / 10); digit_char (n mod 10)].
Proof.
  intros Hn.
  assert (H : Forall (fun n => format_02d n
                               = [digit_char (n / 10); digit_char (n mod 10)])
                (seq 0 100)) by (repeat constructor).
  rewrite Forall_forall in H. apply H, elem_of_seq. lia.
Qed.

Lemma digits_prefix_unique xs ys p q :
  Forall (fun c => is_digit c = true) xs →
  Forall (fun c => is_digit c = true) ys →
  xs ++ UNDERSCORE :: p = ys ++ UNDERSCORE :: q → xs = ys ∧ p = q.
Proof.
  intros Hxs. revert ys.
  induction Hxs as [|x xs Hx Hxs IH]; intros ys Hys Heq.
  - destruct Hys as [|y ys Hy Hys]; simpl in Heq.
    + by injection Heq as <-.
    + injection Heq as <- _. done.
  - destruct Hys as [|y ys Hy Hys]; simpl in Heq.
    + injection Heq as -> _. done.
    + injection Heq as -> Heq. destruct (IH ys Hys Heq) as [-> ->]. done.
Qed.

Lemma replace_no_space s : SPACE ∉ replace_spaces_with_underscores s.
Proof.
  unfold replace_spaces_with_underscores.
  intros (c & Hc & _)%list_elem_of_fmap.
  destruct (N.eqb_spec c SPACE); [done | congruence].
Qed.

Lemma replace_preserves s i c :
  s !! i = Some c →
  replace_spaces_with_underscores s !! i
  = Some (if (c =? SPACE)%N then UNDERSCORE else c).
Proof.
  intros H. unfold replace_spaces_with_underscores.
  by rewrite list_lookup_fmap, H.
Qed.

Lemma replace_id s : SPACE ∉ s → replace_spaces_with_underscores s = s.
Proof.
  unfold replace_spaces_with_underscores.
  induction s as [|c s IH]; [done|]. intros Hs. rewrite fmap_cons.
  rewrite IH by (intros ?; apply Hs; by right).
  destruct (N.eqb_spec c SPACE) as [->|]; [|done].
  exfalso. apply Hs. by left.
Qed.

Lemma replace_last s b :
  last s = Some b → py_isspace b = false →
  last (replace_spaces_with_underscores s) = Some b.
Proof.
  intros [s' ->]%last_Some Hb. unfold replace_spaces_with_underscores.
  rewrite fmap_app. simpl. rewrite last_snoc.
  destruct (N.eqb_spec b SPACE) as [->|]; [done | done].
Qed.

Lemma nonblank_content line :
  is_blank line = false →
  ∃ a b, head (content_of line) = Some a ∧ last (content_of line) = Some b
         ∧ py_isspace a = false ∧ py_isspace b = false.
Proof.
  rewrite is_blank_content. intros H%negb_false_iff%str_truthy_true.
  unfold content_of, parse_indentation_level in *. simpl in *.
  by apply strip_ends.
Qed.

(** What a segment of the form looks like from outside: it starts with a
    digit, ends with a character that is not whitespace, and holds no
    space. *)
Lemma segment_form_shape lines seg :
  segment_form lines seg →
  (∃ d, head seg = Some d ∧ is_digit d = true)
  ∧ (∃ b, last seg = Some b ∧ py_isspace b = false)
  ∧ SPACE ∉ seg.
Proof.
  intros (count & line & _ & Hb & _ & -> & _).
  destruct (nonblank_content line Hb) as (a & b & Ha & Hlast & _ & Hsb).
  pose proof (format_02d_digits count) as Hd.
  pose proof (format_02d_length count) as Hlen.
  destruct (format_02d count) as [|d ds] eqn:Hf; [simpl in Hlen; lia|].
  split_and!.
  - exists d. split; [done|]. by apply Forall_cons in Hd as [? _].
  - exists b. split; [|done].
    rewrite !last_app. simpl.
    by rewrite (replace_last _ b Hlast Hsb).
  - rewrite !elem_of_app. intros [Hin|[Hin|Hin]].
    + rewrite Forall_forall in Hd. by specialize (Hd _ Hin).
    + by apply list_elem_of_singleton in Hin.
    + by apply replace_no_space in Hin.
Qed.

Lemma join_cons_cons sep p q rest :
  join sep (p :: q :: rest) = p ++ sep ++ join sep (q :: rest).
Proof. done. Qed.

Lemma join_shape segs :
  segs ≠ [] →
  Forall (fun seg => (∃ d, head seg = Some d ∧ is_digit d = true)
                     ∧ (∃ b, last seg = Some b ∧ py_isspace b = false)
                     ∧ SPACE ∉ seg) segs →
  (∃ d, head (join SEP segs) = Some d ∧ is_digit d = true)
  ∧ (∃ b, last (join SEP segs) = Some b ∧ py_isspace b = false)
  ∧ SPACE ∉ join SEP segs.
Proof.
  intros Hne Hall. induction Hall as [|seg segs Hseg Hall IH]; [done|].
  destruct segs as [|seg' segs']; [done|].
  destruct IH as ((d' & Hd' & _) & (b' & Hb' & Hsb') & Hsp'); [done|].
  destruct Hseg as ((d & Hd & Hdd) & _ & Hsp).
  rewrite join_cons_cons. split_and!.
  - exists d. split; [|done]. by rewrite head_app, Hd.
  - exists b'. split; [|done].
    rewrite !last_app, Hb'. done.
  - rewrite !elem_of_app. intros [Hin|[Hin|Hin]]; [done| |done].
    unfold SEP in Hin.
    repeat (apply elem_of_cons in Hin as [Hin|Hin]; [discriminate|]).
    by apply elem_of_nil in Hin.
Qed.

Lemma path_form_shape lines path :
  path_form lines path →
  (∃ d, head path = Some d ∧ is_digit d = true)
  ∧ (∃ b, last path = Some b ∧ py_isspace b = false)
  ∧ SPACE ∉ path.
Proof.
  intros (segs & Hne & -> & Hall). apply join_shape; [done|].
  eapply Forall_impl; [exact Hall|]. intros seg. apply segment_form_shape.
Qed.

(** ** Stored names along a run *)

Lemma stored_names_app l1 l2 :
  stored_names (l1 ++ l2) = stored_names l1 ++ stored_names l2.
Proof.
  induction l1 as [|[s|] l1 IH]; simpl; [done| |done].
  destruct (str_truthy s); simpl; by rewrite IH.
Qed.

Lemma stored_names_snoc l s :
  s ≠ [] → stored_names (l ++ [Some s]) = stored_names l ++ [s].
Proof.
  intros Hs%str_truthy_true. rewrite stored_names_app. simpl. by rewrite Hs.
Qed.

Lemma stored_names_Forall (P : pystr → Prop) l :
  Forall (fun slot => ∀ s, slot = Some s → P s) l → Forall P (stored_names l).
Proof.
  induction 1 as [|[s|] l Hs Hl IH]; simpl; [done| |done].
  destruct (str_truthy s); [|done]. constructor; [by apply Hs | done].
Qed.

Lemma stored_names_omap l :
  Forall (fun slot => ∀ s, slot = Some s → s ≠ []) l →
  stored_names l = omap id l.
Proof.
  induction 1 as [|[s|] l Hs Hl IH]; simpl; [done| |done].
  rewrite (proj2 (str_truthy_true s)) by (by apply Hs). by rewrite IH.
Qed.

Lemma join_snoc sep segs seg : ∃ prefix, join sep (segs ++ [seg]) = prefix ++ seg.
Proof.
  induction segs as [|s segs [prefix IH]]; [by exists []|].
  exists (s ++ sep ++ prefix). simpl.
  destruct (segs ++ [seg]) eqn:Heq; [by destruct segs|].
  by rewrite IH, <- !(assoc_L (++)).
Qed.

Lemma next_state_levels_take st k content :
  length (levels st) = 50 → k < 50 →
  take (k + 1) (levels (next_state st k content))
  = take k (levels st)
    ++ [Some (format_02d (default 0 (counters st !! k) + 1) ++ [UNDERSCORE]
              ++ replace_spaces_with_underscores content)].
Proof.
  intros Hl Hk. unfold next_state. simpl.
  rewrite take_app_ge by (rewrite length_take; lia).
  rewrite length_take. replace (k + 1 - k `min` length (levels st)) with 1 by lia.
  done.
Qed.

Lemma segment_form_nonempty lines seg : segment_form lines seg → seg ≠ [].
Proof.
  intros ((d & Hd & _) & _)%segment_form_shape. by destruct seg.
Qed.

Lemma new_segment_form lines line count :
  line ∈ lines → is_blank line = false →
  segment_form lines
    (format_02d (count + 1) ++ [UNDERSCORE]
     ++ replace_spaces_with_underscores (content_of line)).
Proof.
  intros Hin Hb. exists (count + 1), line. split_and!; try done; [lia|].
  apply format_02d_two_digits.
Qed.

Lemma process_line_names_form lines st line st' :
  line ∈ lines → well_sized st → names_form lines st →
  process_line st line = Ok st' → names_form lines st'.
Proof.
  intros Hin Hst [Hlv Hres] Hrun. destruct (is_blank line) eqn:Hb.
  { rewrite process_line_blank in Hrun by done. by injection Hrun as <-. }
  destruct (decide (level_of line < 50)) as [Hk|Hk];
    [|rewrite process_line_deep in Hrun by (done || lia); done].
  rewrite process_line_nonblank in Hrun by done. injection Hrun as <-.
  pose proof (new_segment_form lines line
                (default 0 (counters st !! level_of line)) Hin Hb) as Hnew.
  split.
  - unfold next_state. simpl. apply Forall_app. split; [by apply Forall_take|].
    constructor; [by intros s [= <-]|]. by apply Forall_replicate.
  - assert (Hnext := next_state_levels_take st (level_of line) (content_of line)
                       (proj2 Hst) Hk).
    unfold next_state in *. simpl in *. apply Forall_app. split; [done|].
    constructor; [|done]. rewrite Hnext.
    eexists. split_and!; [|done|].
    + rewrite stored_names_snoc by (by eapply segment_form_nonempty).
      by destruct (stored_names _).
    + apply stored_names_Forall, Forall_app. split; [by apply Forall_take|].
      constructor; [by intros s [= <-] | done].
Qed.

Lemma run_names_form lines ls st st' :
  (∀ line, line ∈ ls → line ∈ lines) → well_sized st → names_form lines st →
  for_each process_line st ls = Ok st' → names_form lines st'.
Proof.
  revert st. induction ls as [|line ls IH]; intros st Hsub Hst Hnf; simpl.
  - by intros [= <-].
  - destruct (process_line st line) as [st1|e] eqn:H1; simpl; [|done].
    apply IH.
    + intros l Hl. apply Hsub. by right.
    + by eapply process_line_well_sized.
    + eapply process_line_names_form; [|done..]. apply Hsub. by left.
Qed.

Lemma initial_state_names_form lines : names_form lines initial_state.
Proof.
  split; [|by constructor]. unfold initial_state, levels.
  by apply Forall_replicate.
Qed.

Lemma reachable_names_form lines st :
  for_each process_line initial_state lines = Ok st →
  well_sized st ∧ names_form lines st.
Proof.
  intros Hrun. split.
  - by eapply run_well_sized; [apply initial_state_well_sized|].
  - eapply run_names_form; [| apply initial_state_well_sized
                             | apply initial_state_names_form | done].
    done.
Qed.

Lemma process_line_results_grow st line st' :
  process_line st line = Ok st' → ∃ new, results st' = results st ++ new.
Proof.
  unfold process_line. destruct (parse_indentation_level line) as [k c].
  destruct (negb _); [intros [= <-]; exists []; by rewrite app_nil_r|].
  destruct (for_each _ _ _) as [[c1 l1]|]; [|done]. rewrite bind_Ok.
  destruct (getitem c1 k) as [count|]; [|done]. rewrite bind_Ok.
  destruct (setitem c1 k _) as [c2|]; [|done]. rewrite bind_Ok.
  destruct (setitem l1 k _) as [l2|]; [|done]. rewrite bind_Ok.
  destruct (collect_segments _ _) as [segs|]; [|done]. rewrite bind_Ok.
  intros [= <-]. by eexists.
Qed.

(** Every non-blank line that was processed has a path among the results
    that ends with its content, spaces replaced. *)
Lemma run_covers ls st :
  for_each process_line initial_state ls = Ok st →
  ∀ line, line ∈ ls → is_blank line = false →
  ∃ p prefix, p ∈ results st
              ∧ p = prefix ++ replace_spaces_with_underscores (content_of line).
Proof.
  revert st. induction ls as [|l ls IH] using rev_ind; intros st Hrun line Hin Hb.
  { by apply elem_of_nil in Hin. }
  rewrite for_each_snoc in Hrun.
  destruct (for_each process_line initial_state ls) as [st1|e] eqn:Hpre; [|done].
  rewrite bind_Ok in Hrun.
  destruct (reachable_names_form ls st1 Hpre) as [Hst1 _].
  apply elem_of_app in Hin as [Hin|Hin%list_elem_of_singleton].
  - destruct (IH st1 eq_refl line Hin Hb) as (p & prefix & Hp & Heq).
    destruct (process_line_results_grow _ _ _ Hrun) as [new ->].
    exists p, prefix. split; [|done]. apply elem_of_app. by left.
  - subst l. destruct (decide (level_of line < 50)) as [Hk|Hk];
      [|rewrite process_line_deep in Hrun by (done || lia); done].
    rewrite process_line_nonblank in Hrun by done. injection Hrun as <-.
    assert (Hnext := next_state_levels_take st1 (level_of line)
                       (content_of line) (proj2 Hst1) Hk).
    unfold next_state in *. simpl in *. rewrite Hnext.
    set (name := format_02d _ ++ _) in *.
    assert (Hname : name ≠ []).
    { unfold name.
      pose proof (format_02d_length (default 0 (counters st1 !! level_of line) + 1)).
      by destruct (format_02d _). }
    rewrite stored_names_snoc by done.
    destruct (join_snoc SEP (stored_names (take (level_of line) (levels st1))) name)
      as [prefix Hj].
    eexists _, (prefix ++ format_02d _ ++ [UNDERSCORE]). split.
    + apply elem_of_app. right. by apply list_elem_of_singleton.
    + unfold name. by rewrite <- !(assoc_L (++)).
Qed.

(** ** The names a line finds stored *)

Lemma next_state_levels_lookup st k content i :
  length (levels st) = 50 → k < 50 → i < 50 →
  levels (next_state st k content) !! i
  = if i <? k then levels st !! i
    else if i =? k
         then Some (Some (format_02d (default 0 (counters st !! k) + 1)
                          ++ [UNDERSCORE]
                          ++ replace_spaces_with_underscores content))
         else Some None.
Proof.
  intros Hl Hk Hi. unfold next_state. simpl.
  assert (Hlen : length (take k (levels st)) = k) by (rewrite length_take; lia).
  destruct (Nat.ltb_spec i k).
  - rewrite lookup_app_l by lia. by apply lookup_take_lt.
  - rewrite lookup_app_r by lia. rewrite Hlen.
    destruct (Nat.eqb_spec i k) as [->|Hne]; [by rewrite Nat.sub_diag|].
    destruct (i - k) as [|j] eqn:Hj; [lia|]. simpl.
    apply lookup_replicate_2. lia.
Qed.

Lemma next_state_counters_lookup st k content i :
  length (counters st) = 50 → k < 50 → i < 50 →
  counters (next_state st k content) !! i
  = if i <? k then counters st !! i
    else if i =? k then Some (default 0 (counters st !! k) + 1)
         else Some 0.
Proof.
  intros Hl Hk Hi. unfold next_state. simpl.
  assert (Hlen : length (take k (counters st)) = k) by (rewrite length_take; lia).
  destruct (Nat.ltb_spec i k).
  - rewrite lookup_app_l by lia. by apply lookup_take_lt.
  - rewrite lookup_app_r by lia. rewrite Hlen.
    destruct (Nat.eqb_spec i k) as [->|Hne]; [by rewrite Nat.sub_diag|].
    destruct (i - k) as [|j] eqn:Hj; [lia|]. simpl.
    apply lookup_replicate_2. lia.
Qed.

(** Along a run, level [i] holds the name of the line last seen there. *)
Lemma levels_last_seen pre st :
  for_each process_line initial_state pre = Ok st →
  ∀ i, i < 50 → levels st !! i = Some (name_in st i <$> last_seen i pre).
Proof.
  revert st. induction pre as [|l pre IH] using rev_ind; intros st Hrun i Hi.
  { injection Hrun as <-. unfold initial_state, levels.
    by rewrite lookup_replicate_2. }
  rewrite for_each_snoc in Hrun.
  destruct (for_each process_line initial_state pre) as [st1|e] eqn:Hpre; [|done].
  rewrite bind_Ok in Hrun. specialize (IH st1 eq_refl i Hi).
  destruct (reachable_names_form pre st1 Hpre) as [[Hc1 Hl1] _].
  unfold last_seen in *. rewrite foldl_snoc. unfold observe at 1.
  destruct (is_blank l) eqn:Hb.
  { rewrite process_line_blank in Hrun by done. by injection Hrun as <-. }
  destruct (decide (level_of l < 50)) as [Hk|Hk];
    [|rewrite process_line_deep in Hrun by (done || lia); done].
  rewrite process_line_nonblank in Hrun by done. injection Hrun as <-.
  rewrite next_state_levels_lookup by done.
  destruct (Nat.ltb_spec i (level_of l)) as [Hlt|Hge].
  - rewrite (proj2 (Nat.ltb_ge (level_of l) i)) by lia.
    rewrite (proj2 (Nat.eqb_neq (level_of l) i)) by lia.
    rewrite IH. unfold name_in.
    rewrite next_state_counters_lookup by done.
    by rewrite (proj2 (Nat.ltb_lt i (level_of l))) by lia.
  - destruct (Nat.eqb_spec i (level_of l)) as [->|Hne].
    + rewrite Nat.ltb_irrefl, Nat.eqb_refl. simpl. unfold name_in.
      rewrite next_state_counters_lookup by done.
      by rewrite Nat.ltb_irrefl, Nat.eqb_refl.
    + by rewrite (proj2 (Nat.ltb_lt (level_of l) i)) by lia.
Qed.

(** What [last_seen] finds: a non-blank line at level [i] after which every
    non-blank line is deeper. *)
Lemma last_seen_Some i lines line :
  last_seen i lines = Some line →
  ∃ before after,
    lines = before ++ line :: after ∧ is_blank line = false ∧
    level_of line = i ∧
    Forall (fun l => is_blank l = true ∨ i < level_of l) after.
Proof.
  unfold last_seen. revert line.
  induction lines as [|l lines IH] using rev_ind; intros line; [done|].
  rewrite foldl_snoc. unfold observe at 1.
  destruct (is_blank l) eqn:Hb.
  { intros (before & after & -> & ? & ? & ?)%IH.
    exists before, (after ++ [l]). rewrite <- (assoc_L (++)).
    split_and!; try done. apply Forall_app. split; [done|].
    constructor; [by left | done]. }
  destruct (Nat.ltb_spec (level_of l) i); [done|].
  destruct (Nat.eqb_spec (level_of l) i) as [Heq|Hne].
  - intros [= <-]. by exists lines, [].
  - intros (before & after & -> & ? & ? & ?)%IH.
    exists before, (after ++ [l]). rewrite <- (assoc_L (++)).
    split_and!; try done. apply Forall_app. split; [done|].
    constructor; [right; lia | done].
Qed.

(** C4 (as the code behaves).  In any state a run can reach, each level
    below 50 holds the name of the line last seen at that level, or nothing
    when no line was seen there or a shallower line came after it.  A
    non-blank line at a level below 50 is then processed without error: its
    own name is stored at its level, the names of the shallower levels are
    left as they were, every deeper level is cleared, and the path appended
    is the join, in level order, of the names held at levels 0 to the line's
    level, a level holding no name contributing nothing.  A non-blank line
    at level 50 or deeper, deeper than every level on record, raises
    [IndexError]: the run ends there and returns no path. *)
Theorem C4_path_joins_stored_names (pre : list pystr) (st : state)
    (line : pystr) :
  for_each process_line initial_state pre = Ok st →
  whitespace_only line = false →
  (∀ i, i < 50 → levels st !! i = Some (name_in st i <$> last_seen i pre))
  ∧ (level_of line < 50 →
     ∃ st' name,
       process_line st line = Ok st' ∧
       levels st' !! level_of line = Some (Some name) ∧
       (∀ i, i < level_of line → levels st' !! i = levels st !! i) ∧
       (∀ i, level_of line < i < 50 → levels st' !! i = Some None) ∧
       results st'
       = results st
         ++ [join SEP (omap id (take (level_of line + 1) (levels st')))])
  ∧ (50 ≤ level_of line →
     process_line st line = Raise IndexError
     ∧ ∀ post,
         parse_indented_subtags_enumerate_all (pre ++ line :: post)
         = Raise IndexError).
Proof.
  intros Hpre Hw. rewrite <- is_blank_whitespace_only in Hw.
  destruct (reachable_names_form pre st Hpre) as [Hst _].
  split_and!; [by apply levels_last_seen | |].
  - intros Hk.
    pose proof (process_line_nonblank st line Hst Hw Hk) as Hstep.
    assert (Hrun : for_each process_line initial_state (pre ++ [line])
                   = Ok (next_state st (level_of line) (content_of line)))
      by (by rewrite for_each_snoc, Hpre, bind_Ok).
    destruct (reachable_names_form _ _ Hrun) as [_ [Hnames _]].
    eexists _, _. split; [exact Hstep|]. split_and!.
    + rewrite next_state_levels_lookup by (done || apply Hst).
      by rewrite Nat.ltb_irrefl, Nat.eqb_refl.
    + intros i Hi.
      rewrite next_state_levels_lookup by (done || apply Hst || lia).
      by rewrite (proj2 (Nat.ltb_lt i (level_of line))) by lia.
    + intros i Hi.
      rewrite next_state_levels_lookup by (done || apply Hst || lia).
      rewrite (proj2 (Nat.ltb_ge i (level_of line))) by lia.
      by rewrite (proj2 (Nat.eqb_neq i (level_of line))) by lia.
    + rewrite <- stored_names_omap; [done|].
      apply Forall_take. eapply Forall_impl; [exact Hnames|].
      intros slot Hslot s ->. by eapply segment_form_nonempty, Hslot.
  - intros Hk. split; [by apply process_line_deep|].
    intros post. unfold parse_indented_subtags_enumerate_all.
    rewrite (run_raises _ initial_state initial_state_well_sized); [done|].
    apply Exists_app. right. apply Exists_cons_hd.
    by rewrite <- is_blank_whitespace_only.
Qed.

Lemma C4_path_joins_stored_names_witness :
  ((∀ i, i < 50 →
         levels (State ([2; 0] ++ replicate 48 0)
                       ([Some (str "02_C"); None] ++ replicate 48 None)
                       [str "01_A"; str "01_A::01_B"; str "02_C"]) !! i
         = Some (name_in (State ([2; 0] ++ replicate 48 0)
                                ([Some (str "02_C"); None] ++ replicate 48 None)
                                [str "01_A"; str "01_A::01_B"; str "02_C"]) i
                 <$> last_seen i [str "A"; str "    B"; str "C"]))
   ∧ ∃ st' name,
       process_line
         (State ([2; 0] ++ replicate 48 0)
                ([Some (str "02_C"); None] ++ replicate 48 None)
                [str "01_A"; str "01_A::01_B"; str "02_C"])
         (str "        D") = Ok st' ∧
       levels st' !! level_of (str "        D") = Some (Some name) ∧
       (∀ i, i < level_of (str "        D") →
             levels st' !! i
             = ([Some (str "02_C"); None] ++ replicate 48 None) !! i) ∧
       (∀ i, level_of (str "        D") < i < 50 → levels st' !! i = Some None) ∧
       results st'
       = [str "01_A"; str "01_A::01_B"; str "02_C"]
         ++ [join SEP
               (omap id (take (level_of (str "        D") + 1) (levels st')))])
  ∧ (process_line
       (State ([2; 0] ++ replicate 48 0)
              ([Some (str "02_C"); None] ++ replicate 48 None)
              [str "01_A"; str "01_A::01_B"; str "02_C"])
       (replicate 200 SPACE ++ str "D") = Raise IndexError
     ∧ ∀ post,
         parse_indented_subtags_enumerate_all
           ([str "A"; str "    B"; str "C"]
            ++ (replicate 200 SPACE ++ str "D") :: post)
         = Raise IndexError).
Proof.
  split.
  - split.
    + apply (C4_path_joins_stored_names [str "A"; str "    B"; str "C"]
               (State ([2; 0] ++ replicate 48 0)
                      ([Some (str "02_C"); None] ++ replicate 48 None)
                      [str "01_A"; str "01_A::01_B"; str "02_C"])
               (str "        D")); vm_compute; reflexivity.
    + apply (C4_path_joins_stored_names [str "A"; str "    B"; str "C"]
               (State ([2; 0] ++ replicate 48 0)
                      ([Some (str "02_C"); None] ++ replicate 48 None)
                      [str "01_A"; str "01_A::01_B"; str "02_C"])
               (str "        D"));
        [vm_compute; reflexivity | vm_compute; reflexivity | vm_compute; lia].
  - apply (C4_path_joins_stored_names [str "A"; str "    B"; str "C"]
             (State ([2; 0] ++ replicate 48 0)
                    ([Some (str "02_C"); None] ++ replicate 48 None)
                    [str "01_A"; str "01_A::01_B"; str "02_C"])
             (replicate 200 SPACE ++ str "D"));
      [vm_compute; reflexivity | vm_compute; reflexivity | vm_compute; lia].
Defined.

(** C4, as stated, fails: after the single line ["A"] only level 0 holds a
    name, and a non-blank line indented by 200 spaces, at level 50 and so
    deeper than every level on record, is not given the path of its
    ancestors: it raises [IndexError] and the run returns nothing. *)
Lemma C4_deeper_line_at_level_fifty_raises :
  ∃ st,
    for_each process_line initial_state [str "A"] = Ok st
    ∧ levels st = Some (str "01_A") :: replicate 49 None
    ∧ whitespace_only (replicate 200 SPACE ++ str "x") = false
    ∧ level_of (replicate 200 SPACE ++ str "x") = 50
    ∧ process_line st (replicate 200 SPACE ++ str "x") = Raise IndexError
    ∧ parse_indented_subtags_enumerate_all
        [str "A"; replicate 200 SPACE ++ str "x"] = Raise IndexError
    ∧ ¬ ∃ out, parse_indented_subtags_enumerate_all
                 [str "A"; replicate 200 SPACE ++ str "x"] = Ok out.
Proof.
  eexists. split; [vm_compute; reflexivity|].
  split_and!; try (vm_compute; reflexivity).
  intros [out Hout]. vm_compute in Hout. discriminate.
Qed.

(** The two scenarios of a line two levels deeper than its predecessor:
    the level in between holds no name, whether it never did or was cleared
    by the shallower line, and is left out of the path. *)
Example skipped_level_never_recorded :
  parse_indented_subtags_enumerate_all [str "A"; str "        D"]
  = Ok [str "01_A"; str "01_A::01_D"].
Proof. vm_compute. reflexivity. Qed.

Example skipped_level_cleared :
  parse_indented_subtags_enumerate_all
    [str "A"; str "    B"; str "C"; str "        D"]
  = Ok [str "01_A"; str "01_A::01_B"; str "02_C"; str "02_C::01_D"].
Proof. vm_compute. reflexivity. Qed.

(** C10.  Every string the enumerator returns is non-empty and holds no
    space character.  Every non-blank line has a returned path that ends
    with its trimmed content in which every character other than a space,
    an interior tab for one, stands unchanged at its place. *)
Theorem C10_paths_nonempty_without_spaces (lines out : list pystr) :
  parse_indented_subtags_enumerate_all lines = Ok out →
  (∀ p, p ∈ out → p ≠ [] ∧ SPACE ∉ p)
  ∧ (∀ line, line ∈ lines → whitespace_only line = false →
       ∃ p prefix : pystr,
         p ∈ out ∧
         length p = length prefix + length (content_of line) ∧
         ∀ i c, content_of line !! i = Some c → c ≠ SPACE →
                p !! (length prefix + i) = Some c).
Proof.
  unfold parse_indented_subtags_enumerate_all.
  destruct (for_each process_line initial_state lines) as [st|e] eqn:Hrun;
    [|done].
  rewrite bind_Ok. intros [= <-]. split.
  - intros p Hp. apply (proj1 (dedup_elem_of _ _)) in Hp.
    destruct (reachable_names_form lines st Hrun) as [_ [_ Hres]].
    rewrite Forall_forall in Hres.
    destruct (path_form_shape lines p (Hres p Hp)) as ((d & Hd & _) & _ & Hsp).
    split; [by destruct p | done].
  - intros line Hin Hw. rewrite <- is_blank_whitespace_only in Hw.
    destruct (run_covers lines st Hrun line Hin Hw) as (p & prefix & Hp & ->).
    exists (prefix ++ replace_spaces_with_underscores (content_of line)), prefix.
    split_and!.
    + by apply dedup_elem_of.
    + rewrite length_app. unfold replace_spaces_with_underscores.
      by rewrite length_fmap.
    + intros i c Hi Hc. rewrite lookup_app_r by lia.
      replace (length prefix + i - length prefix) with i by lia.
      rewrite (replace_preserves _ _ _ Hi).
      by destruct (N.eqb_spec c SPACE).
Qed.

Lemma C10_paths_nonempty_without_spaces_witness :
  (∀ p, p ∈ [str "01_a" ++ [TAB] ++ str "b_c"] → p ≠ [] ∧ SPACE ∉ p)
  ∧ (∀ line, line ∈ [str "  a" ++ [TAB] ++ str "b c "] →
       whitespace_only line = false →
       ∃ p prefix : pystr,
         p ∈ [str "01_a" ++ [TAB] ++ str "b_c"] ∧
         length p = length prefix + length (content_of line) ∧
         ∀ i c, content_of line !! i = Some c → c ≠ SPACE →
                p !! (length prefix + i) = Some c).
Proof.
  apply (C10_paths_nonempty_without_spaces [str "  a" ++ [TAB] ++ str "b c "]).
  vm_compute. reflexivity.
Defined.

(** ** Running the enumerator on its own output *)

Lemma digit_not_indent d : is_digit d = true → is_indent_char d = false.
Proof.
  unfold is_digit, is_indent_char, SPACE, TAB. intros [H1 H2]%andb_prop.
  apply N.leb_le in H1. decide_cmp; done.
Qed.

Lemma flat_line_parse p : flat_line p → parse_indentation_level p = (0, p).
Proof.
  intros ((d & Hd & Hdd) & (b & Hb & Hsb) & _).
  rewrite parse_indentation_level_spec. unfold spec_indent_level.
  destruct p as [|d' p']; [done|]. injection Hd as ->.
  rewrite leading_weight_cons. simpl. rewrite (digit_not_indent d Hdd).
  f_equal. apply (strip_fixed _ d b); try done. by apply digit_not_space.
Qed.

Lemma flat_line_step st p c :
  well_sized st → counters st !! 0 = Some c → flat_line p →
  ∃ st',
    process_line st p = Ok st' ∧ well_sized st' ∧
    counters st' !! 0 = Some (c + 1) ∧
    results st' = results st ++ [format_02d (c + 1) ++ [UNDERSCORE] ++ p].
Proof.
  intros Hst Hc Hp. pose proof (flat_line_parse p Hp) as Hparse.
  assert (Hlevel : level_of p = 0) by (unfold level_of; by rewrite Hparse).
  assert (Hcontent : content_of p = p) by (unfold content_of; by rewrite Hparse).
  assert (Hb : is_blank p = false).
  { rewrite is_blank_content, Hcontent.
    destruct Hp as ((d & Hd & _) & _). by destruct p. }
  exists (next_state st 0 p). split_and!.
  - rewrite (process_line_nonblank st p) by (done || lia).
    by rewrite Hlevel, Hcontent.
  - apply next_state_well_sized; [done | lia].
  - unfold next_state. simpl. by rewrite Hc.
  - unfold next_state. simpl. rewrite Hc. simpl.
    rewrite (replace_id p) by (by destruct Hp as (_ & _ & Hsp)).
    pose proof (format_02d_length (c + 1)).
    by destruct (format_02d (c + 1)).
Qed.

Lemma flat_run ps st c :
  well_sized st → counters st !! 0 = Some c → Forall flat_line ps →
  ∃ st',
    for_each process_line st ps = Ok st' ∧
    results st'
    = results st
      ++ imap (fun i p => format_02d (c + i + 1) ++ [UNDERSCORE] ++ p) ps.
Proof.
  intros Hst Hc Hps. revert st c Hst Hc.
  induction Hps as [|p ps Hp Hps IH]; intros st c Hst Hc.
  - exists st. by rewrite app_nil_r.
  - destruct (flat_line_step st p c Hst Hc Hp) as (st1 & Hstep & Hst1 & Hc1 & Hr1).
    destruct (IH st1 (c + 1) Hst1 Hc1) as (st' & Hrun & Hr').
    exists st'. simpl. rewrite Hstep, bind_Ok. split; [done|].
    rewrite Hr', Hr1, <- (assoc_L (++)). simpl. rewrite Nat.add_0_r.
    do 2 f_equal. apply imap_ext. intros i q _. simpl.
    by replace (c + 1 + i + 1) with (c + S i + 1) by lia.
Qed.

Lemma numbered_NoDup (number : nat → nat) ps :
  NoDup ps →
  NoDup (imap (fun i p => format_02d (number i) ++ [UNDERSCORE] ++ p) ps).
Proof.
  intros Hnd. apply NoDup_alt. intros i j x.
  rewrite !list_lookup_imap.
  destruct (ps !! i) as [p|] eqn:Hi; [|done].
  destruct (ps !! j) as [q|] eqn:Hj; [|done].
  simpl. intros [= <-] [= Heq].
  apply digits_prefix_unique in Heq as [_ ->]; try apply format_02d_digits.
  by eapply NoDup_alt.
Qed.

(** C9 (as the code behaves).  Fed its own output as unindented lines, the
    enumerator returns every path whole, in the same order, each one with a
    new level-0 segment number in front: the path at position [i] (from 0)
    comes back with the counter [i + 1] in [:02d] format and an underscore
    before it, its old counters kept. *)
Theorem C9_rerun_numbers_each_path_at_level_zero (lines out : list pystr) :
  parse_indented_subtags_enumerate_all lines = Ok out →
  parse_indented_subtags_enumerate_all out
  = Ok (imap (fun i p => format_02d (i + 1) ++ [UNDERSCORE] ++ p) out).
Proof.
  intros Hout.
  assert (Hflat : Forall flat_line out).
  { revert Hout. unfold parse_indented_subtags_enumerate_all.
    destruct (for_each process_line initial_state lines) as [st|e] eqn:Hrun;
      [|done].
    rewrite bind_Ok. intros [= <-].
    destruct (reachable_names_form lines st Hrun) as [_ [_ Hres]].
    rewrite Forall_forall in Hres. apply Forall_forall.
    intros p Hp. apply (path_form_shape lines), Hres. by apply dedup_elem_of. }
  assert (Hnd : NoDup out).
  { revert Hout. unfold parse_indented_subtags_enumerate_all.
    destruct (for_each process_line initial_state lines) as [st|e]; [|done].
    rewrite bind_Ok. intros [= <-]. apply dedup_NoDup. }
  destruct (flat_run out initial_state 0 initial_state_well_sized eq_refl Hflat)
    as (st' & Hrun' & Hres').
  unfold parse_indented_subtags_enumerate_all at 1.
  rewrite Hrun', bind_Ok, Hres'. simpl. f_equal.
  apply dedup_NoDup_id. by apply (numbered_NoDup (fun i => i + 1)).
Qed.

Lemma C9_rerun_numbers_each_path_at_level_zero_witness :
  parse_indented_subtags_enumerate_all
    [str "01_Main_Tag"; str "01_Main_Tag::01_Sub_One"; str "02_Second_Main"]
  = Ok (imap (fun i p => format_02d (i + 1) ++ [UNDERSCORE] ++ p)
          [str "01_Main_Tag"; str "01_Main_Tag::01_Sub_One";
           str "02_Second_Main"]).
Proof.
  apply (C9_rerun_numbers_each_path_at_level_zero
           [str "Main Tag"; str "    Sub One"; str "Second Main"]).
  vm_compute. reflexivity.
Defined.

(** C9, as stated, fails: the path ["01_Main_Tag"] does not come back
    unchanged, nor with another number in place of its counter; it comes
    back as ["01_01_Main_Tag"], three characters longer. *)
Lemma C9_rerun_path_not_renumbered :
  parse_indented_subtags_enumerate_all [str "Main Tag"]
  = Ok [str "01_Main_Tag"]
  ∧ parse_indented_subtags_enumerate_all [str "01_Main_Tag"]
    = Ok [str "01_01_Main_Tag"]
  ∧ str "01_01_Main_Tag" ≠ str "01_Main_Tag"
  ∧ ¬ spec_renumbered_at_level_zero (str "01_Main_Tag") (str "01_01_Main_Tag").
Proof.
  split_and!; [vm_compute; reflexivity | vm_compute; reflexivity | done |].
  intros (n & m & rest & Hp & Hq).
  change (str "01_Main_Tag")
    with ([48; 49]%N ++ UNDERSCORE :: str "Main_Tag") in Hp.
  change (str "01_01_Main_Tag")
    with ([48; 49]%N ++ UNDERSCORE :: str "01_Main_Tag") in Hq.
  apply digits_prefix_unique in Hp as [_ Hp];
    [|by repeat constructor | apply format_02d_digits].
  apply digits_prefix_unique in Hq as [_ Hq];
    [|by repeat constructor | apply format_02d_digits].
  rewrite <- Hp in Hq. discriminate.
Qed.

Example rerun_scenario :
  parse_indented_subtags_enumerate_all
    [str "01_Main_Tag"; str "01_Main_Tag::01_Sub_One"; str "02_Second_Main"]
  = Ok [str "01_01_Main_Tag"; str "02_01_Main_Tag::01_Sub_One";
        str "03_02_Second_Main"].
Proof. vm_compute. reflexivity. Qed.

(** * Properties beyond the specification *)

(** ** Sibling numbering *)

Lemma counters_sibling_count pre st :
  for_each process_line initial_state pre = Ok st →
  ∀ i, i < 50 → counters st !! i = Some (sibling_count i pre).
Proof.
  revert st. induction pre as [|l pre IH] using rev_ind; intros st Hrun i Hi.
  { injection Hrun as <-. unfold initial_state, counters.
    by rewrite lookup_replicate_2. }
  rewrite for_each_snoc in Hrun.
  destruct (for_each process_line initial_state pre) as [st1|e] eqn:Hpre; [|done].
  rewrite bind_Ok in Hrun.
  destruct (reachable_names_form pre st1 Hpre) as [[Hc1 Hl1] _].
  unfold sibling_count in *. rewrite foldl_snoc. unfold count_step at 1.
  destruct (is_blank l) eqn:Hb.
  { rewrite process_line_blank in Hrun by done. injection Hrun as <-. by apply IH. }
  destruct (decide (level_of l < 50)) as [Hk|Hk];
    [|rewrite process_line_deep in Hrun by (done || lia); done].
  rewrite process_line_nonblank in Hrun by done. injection Hrun as <-.
  rewrite next_state_counters_lookup by done.
  destruct (Nat.ltb_spec i (level_of l)) as [Hlt|Hge].
  - rewrite (proj2 (Nat.ltb_ge (level_of l) i)) by lia.
    rewrite (proj2 (Nat.eqb_neq (level_of l) i)) by lia. by apply IH.
  - destruct (Nat.eqb_spec i (level_of l)) as [->|Hne].
    + rewrite Nat.ltb_irrefl, Nat.eqb_refl. by rewrite (IH st1 eq_refl _ Hi).
    + by rewrite (proj2 (Nat.ltb_lt (level_of l) i)) by lia.
Qed.

Lemma sibling_count_under k n after :
  Forall (fun l => whitespace_only l = true ∨ k ≤ level_of l) after →
  foldl (count_step k) n after = n + length (List.filter (is_sibling k) after).
Proof.
  intros Hall. revert n. induction Hall as [|l after Hl Hall IH]; intros n; simpl.
  - lia.
  - rewrite IH. unfold count_step, is_sibling.
    rewrite is_blank_whitespace_only.
    destruct (whitespace_only l); simpl; [done|].
    destruct Hl as [Hl|Hl]; [done|].
    rewrite (proj2 (Nat.ltb_ge (level_of l) k)) by lia.
    destruct (level_of l =? k); simpl; lia.
Qed.

(** X1.  Numbering restarts under each parent: when the lines read so far
    end with a stretch [after] in which no non-blank line is shallower than
    level [k], and that stretch begins the input or follows a non-blank line
    shallower than [k], a non-blank line at level [k] is stored under the
    number of non-blank level-[k] lines of [after] plus one. *)
Theorem X1_counter_counts_siblings_under_parent
    (before after : list pystr) (st : state) (line : pystr) :
  for_each process_line initial_state (before ++ after) = Ok st →
  (before = [] ∨
   ∃ b parent, before = b ++ [parent] ∧ whitespace_only parent = false
               ∧ level_of parent < level_of line) →
  Forall (fun l => whitespace_only l = true ∨ level_of line ≤ level_of l) after →
  whitespace_only line = false →
  level_of line < 50 →
  ∃ st',
    process_line st line = Ok st' ∧
    levels st' !! level_of line
    = Some (Some (format_02d
                    (length (List.filter (is_sibling (level_of line)) after) + 1)
                  ++ [UNDERSCORE]
                  ++ replace_spaces_with_underscores (content_of line))).
Proof.
  intros Hrun Hbefore Hafter Hw Hk.
  rewrite <- is_blank_whitespace_only in Hw.
  destruct (reachable_names_form _ _ Hrun) as [Hst _].
  exists (next_state st (level_of line) (content_of line)).
  split; [by apply process_line_nonblank|].
  rewrite next_state_levels_lookup by (done || apply Hst).
  rewrite Nat.ltb_irrefl, Nat.eqb_refl.
  rewrite (counters_sibling_count _ _ Hrun _ Hk). simpl.
  unfold sibling_count. rewrite foldl_app.
  rewrite sibling_count_under by done.
  destruct Hbefore as [->|(b & parent & -> & Hp & Hlt)]; [done|].
  rewrite foldl_snoc. unfold count_step at 1.
  rewrite is_blank_whitespace_only, Hp.
  by rewrite (proj2 (Nat.ltb_lt _ _) Hlt).
Qed.

Lemma X1_counter_counts_siblings_under_parent_witness :
  ∃ st',
    process_line
      (State ([2; 2] ++ replicate 48 0)
             ([Some (str "02_B"); Some (str "02_d")] ++ replicate 48 None)
             [str "01_A"; str "02_B"; str "02_B::01_c"; str "02_B::02_d"])
      (str "    e") = Ok st' ∧
    levels st' !! level_of (str "    e")
    = Some (Some (format_02d
                    (length (List.filter (is_sibling (level_of (str "    e")))
                               [str "    c"; str ""; str "    d"]) + 1)
                  ++ [UNDERSCORE]
                  ++ replace_spaces_with_underscores (content_of (str "    e")))).
Proof.
  apply (X1_counter_counts_siblings_under_parent
           [str "A"; str "B"] [str "    c"; str ""; str "    d"]).
  - vm_compute. reflexivity.
  - right. exists [str "A"], (str "B"). split_and!; [done | done | vm_compute; lia].
  - repeat constructor; vm_compute; (by left) || (right; lia).
  - reflexivity.
  - vm_compute. lia.
Defined.

(** ** How much is returned *)

Lemma run_results_grow ls st st' :
  for_each process_line st ls = Ok st' → ∃ new, results st' = results st ++ new.
Proof.
  revert st. induction ls as [|l ls IH]; intros st; simpl.
  - intros [= <-]. exists []. by rewrite app_nil_r.
  - destruct (process_line st l) as [st1|e] eqn:H1; simpl; [|done].
    intros (new & ->)%IH.
    destruct (process_line_results_grow _ _ _ H1) as [new1 ->].
    exists (new1 ++ new). by rewrite <- (assoc_L (++)).
Qed.

Lemma results_length lines st :
  for_each process_line initial_state lines = Ok st →
  length (results st)
  = length (List.filter (fun l => negb (whitespace_only l)) lines).
Proof.
  revert st. induction lines as [|l lines IH] using rev_ind; intros st Hrun.
  { by injection Hrun as <-. }
  rewrite for_each_snoc in Hrun.
  destruct (for_each process_line initial_state lines) as [st1|e] eqn:Hpre;
    [|done].
  rewrite bind_Ok in Hrun. specialize (IH st1 eq_refl).
  destruct (reachable_names_form lines st1 Hpre) as [Hst1 _].
  rewrite List.filter_app, length_app. simpl.
  rewrite <- is_blank_whitespace_only. destruct (is_blank l) eqn:Hb; simpl.
  - rewrite process_line_blank in Hrun by done. injection Hrun as <-. lia.
  - destruct (decide (level_of l < 50)) as [Hk|Hk];
      [|rewrite process_line_deep in Hrun by (done || lia); done].
    rewrite process_line_nonblank in Hrun by done. injection Hrun as <-.
    unfold next_state. simpl. rewrite length_app. simpl. lia.
Qed.

Lemma dedup_prefix rs more : dedup rs `prefix_of` dedup (rs ++ more).
Proof.
  induction more as [|r more IH] using rev_ind.
  - by rewrite app_nil_r.
  - rewrite (assoc_L (++)), dedup_snoc.
    destruct (decide (r ∈ rs ++ more)); [done|].
    by apply prefix_app_r.
Qed.

(** X2.  The enumerator returns the empty sequence exactly for the inputs
    made of blank and whitespace-only lines (the empty input among them):
    every non-blank line of an accepted input leaves a path. *)
Theorem X2_empty_output_iff_all_blank (lines : list pystr) :
  parse_indented_subtags_enumerate_all lines = Ok []
  ↔ Forall (fun line => whitespace_only line = true) lines.
Proof.
  unfold parse_indented_subtags_enumerate_all. split.
  - destruct (for_each process_line initial_state lines) as [st|e] eqn:Hrun;
      [|done].
    rewrite bind_Ok. intros [= Hout]. apply Forall_forall. intros line Hin.
    destruct (whitespace_only line) eqn:Hw; [done|]. exfalso.
    rewrite <- is_blank_whitespace_only in Hw.
    destruct (run_covers lines st Hrun line Hin Hw) as (p & _ & Hp & _).
    apply dedup_elem_of in Hp. rewrite Hout in Hp. by apply elem_of_nil in Hp.
  - intros Hall.
    assert (Hrun : ∀ st, for_each process_line st lines = Ok st).
    { induction Hall as [|l ls Hl Hall IH]; intros st; simpl; [done|].
      rewrite process_line_blank by (by rewrite is_blank_whitespace_only).
      rewrite bind_Ok. apply IH. }
    by rewrite Hrun.
Qed.

Lemma X2_empty_output_iff_all_blank_witness :
  parse_indented_subtags_enumerate_all [[]; [SPACE; TAB]; [160%N; 12288%N]]
  = Ok [].
Proof.
  apply (proj2 (X2_empty_output_iff_all_blank
                  [[]; [SPACE; TAB]; [160%N; 12288%N]])).
  repeat constructor.
Defined.

(** X3.  One path is produced for each non-blank line, so the enumerator
    returns at most as many paths as the input has non-blank lines. *)
Theorem X3_at_most_one_path_per_nonblank_line (lines out : list pystr) :
  parse_indented_subtags_enumerate_all lines = Ok out →
  (∃ st, for_each process_line initial_state lines = Ok st
         ∧ length (results st)
           = length (List.filter (fun l => negb (whitespace_only l)) lines))
  ∧ length out
    ≤ length (List.filter (fun l => negb (whitespace_only l)) lines).
Proof.
  unfold parse_indented_subtags_enumerate_all.
  destruct (for_each process_line initial_state lines) as [st|e] eqn:Hrun;
    [|done].
  rewrite bind_Ok. intros [= <-].
  pose proof (results_length lines st Hrun) as Hlen. split; [by exists st|].
  rewrite <- Hlen. apply sublist_length, dedup_sublist.
Qed.

Lemma X3_at_most_one_path_per_nonblank_line_witness :
  (∃ st, for_each process_line initial_state [str "    x"; str ""; str "x"]
         = Ok st
         ∧ length (results st)
           = length (List.filter (fun l => negb (whitespace_only l))
                       [str "    x"; str ""; str "x"]))
  ∧ length [str "01_x"]
    ≤ length (List.filter (fun l => negb (whitespace_only l))
                [str "    x"; str ""; str "x"]).
Proof.
  apply (X3_at_most_one_path_per_nonblank_line
           [str "    x"; str ""; str "x"]).
  vm_compute. reflexivity.
Defined.

(** X4.  What is returned for the first lines of an input stays in front:
    if the enumerator accepts [pre ++ post], it accepts [pre], and its
    output for [pre] is a prefix of its output for [pre ++ post]. *)
Theorem X4_output_of_prefix_is_prefix (pre post out : list pystr) :
  parse_indented_subtags_enumerate_all (pre ++ post) = Ok out →
  ∃ out1, parse_indented_subtags_enumerate_all pre = Ok out1
          ∧ out1 `prefix_of` out.
Proof.
  unfold parse_indented_subtags_enumerate_all. rewrite for_each_app.
  destruct (for_each process_line initial_state pre) as [st1|e]; [|done].
  rewrite !bind_Ok.
  destruct (for_each process_line st1 post) as [st|e] eqn:Hpost; [|done].
  rewrite bind_Ok. intros [= <-]. eexists. split; [done|].
  destruct (run_results_grow _ _ _ Hpost) as [new ->]. apply dedup_prefix.
Qed.

Lemma X4_output_of_prefix_is_prefix_witness :
  ∃ out1, parse_indented_subtags_enumerate_all [str "a"; str "    b"] = Ok out1
          ∧ out1 `prefix_of` [str "01_a"; str "01_a::01_b"; str "02_c"].
Proof.
  apply (X4_output_of_prefix_is_prefix [str "a"; str "    b"] [str "c"]).
  vm_compute. reflexivity.
Defined.

(** ** The content of a line *)

(** X5.  The content of a line is the line without a run of whitespace at
    each end: nothing inside it is touched.  When it is not empty it begins
    and ends with a character that is not whitespace. *)
Theorem X5_content_is_line_trimmed (line : pystr) :
  ∃ l r,
    line = l ++ content_of line ++ r
    ∧ forallb py_isspace l = true ∧ forallb py_isspace r = true
    ∧ (content_of line = [] ∨
       ∃ a b, head (content_of line) = Some a ∧ last (content_of line) = Some b
              ∧ py_isspace a = false ∧ py_isspace b = false).
Proof.
  unfold content_of. rewrite parse_indentation_level_spec. simpl.
  destruct (strip_decompose (after_leading_whitespace line))
    as (l & r & Hs & Hl & Hr).
  exists (leading_whitespace line ++ l), r. split_and!.
  - rewrite <- (assoc_L (++)), <- Hs. apply after_leading_whitespace_split.
  - by rewrite forallb_app, leading_whitespace_isspace.
  - done.
  - destruct (decide (strip (after_leading_whitespace line) = [])) as [?|Hne];
      [by left | right; by apply strip_ends].
Qed.

(** ** Paths and their parents *)

Lemma stored_names_last l :
  stored_names l ≠ [] →
  ∃ j s, l !! j = Some (Some s)
         ∧ stored_names l = stored_names (take (j + 1) l).
Proof.
  induction l as [|x l IH] using rev_ind; [done|].
  rewrite stored_names_app. intros Hne.
  destruct (decide (stored_names [x] = [])) as [Hx|Hx].
  - rewrite Hx, app_nil_r in Hne. destruct (IH Hne) as (j & s & Hj & Heq).
    pose proof (lookup_lt_Some _ _ _ Hj) as Hlt.
    exists j, s. split; [by apply lookup_app_l_Some|].
    rewrite take_app_le by lia. by rewrite Hx, app_nil_r.
  - destruct x as [s|]; [|done]. exists (length l), s. split.
    + by rewrite lookup_app_r, Nat.sub_diag by lia.
    + rewrite take_ge by (rewrite length_app; simpl; lia).
      by rewrite stored_names_app.
Qed.

Lemma join_snoc_nonempty sep xs x :
  xs ≠ [] → join sep (xs ++ [x]) = join sep xs ++ sep ++ x.
Proof.
  induction xs as [|y xs IH]; [done|]. intros _.
  destruct xs as [|z xs]; [done|].
  change ((y :: z :: xs) ++ [x]) with (y :: (z :: xs) ++ [x]).
  change (join sep (y :: (z :: xs) ++ [x]))
    with (y ++ sep ++ join sep ((z :: xs) ++ [x])).
  rewrite IH by done. rewrite join_cons_cons. by rewrite <- !(assoc_L (++)).
Qed.

Lemma next_state_paths_recorded st k content :
  well_sized st → k < 50 → paths_recorded st →
  paths_recorded (next_state st k content).
Proof.
  intros [Hc Hl] Hk Hrec i s Hi.
  assert (i < 50) as Hi50.
  { apply lookup_lt_Some in Hi.
    pose proof (next_state_well_sized st k content (conj Hc Hl) Hk) as [_ Hl'].
    lia. }
  rewrite next_state_levels_lookup in Hi by done.
  destruct (Nat.ltb_spec i k) as [Hlt|Hge].
  - unfold next_state. simpl. apply elem_of_app. left.
    rewrite take_app_le by (rewrite length_take; lia).
    rewrite take_take. replace ((i + 1) `min` k) with (i + 1) by lia.
    by eapply Hrec.
  - destruct (Nat.eqb_spec i k) as [->|Hne]; [|done].
    unfold next_state. simpl. apply elem_of_app. right.
    by apply list_elem_of_singleton.
Qed.

Lemma run_paths_recorded lines st :
  for_each process_line initial_state lines = Ok st → paths_recorded st.
Proof.
  revert st. induction lines as [|l lines IH] using rev_ind; intros st Hrun.
  { injection Hrun as <-. intros i s Hi. unfold initial_state, levels in Hi.
    apply lookup_replicate in Hi as [? _]. done. }
  rewrite for_each_snoc in Hrun.
  destruct (for_each process_line initial_state lines) as [st1|e] eqn:Hpre;
    [|done].
  rewrite bind_Ok in Hrun. specialize (IH st1 eq_refl).
  destruct (reachable_names_form lines st1 Hpre) as [Hst1 _].
  destruct (is_blank l) eqn:Hb.
  { rewrite process_line_blank in Hrun by done. by injection Hrun as <-. }
  destruct (decide (level_of l < 50)) as [Hk|Hk];
    [|rewrite process_line_deep in Hrun by (done || lia); done].
  rewrite process_line_nonblank in Hrun by done. injection Hrun as <-.
  by apply next_state_paths_recorded.
Qed.

(** The path appended for a line is its own segment alone, or an earlier
    path followed by the separator and that segment. *)
Lemma new_path_has_parent st k content :
  well_sized st → k < 50 → paths_recorded st →
  let name := format_02d (default 0 (counters st !! k) + 1) ++ [UNDERSCORE]
              ++ replace_spaces_with_underscores content in
  ∃ p, results (next_state st k content) = results st ++ [p]
       ∧ (p = name ∨ ∃ parent, parent ∈ results st ∧ p = parent ++ SEP ++ name).
Proof.
  intros Hst Hk Hrec name.
  pose proof (next_state_levels_take st k content (proj2 Hst) Hk) as Hnext.
  unfold next_state in *. simpl in *. rewrite Hnext. fold name.
  assert (Hname : name ≠ []).
  { unfold name. pose proof (format_02d_length (default 0 (counters st !! k) + 1)).
    by destruct (format_02d _). }
  rewrite stored_names_snoc by done. eexists. split; [done|].
  destruct (decide (stored_names (take k (levels st)) = [])) as [Hnil|Hne].
  - left. by rewrite Hnil.
  - right. destruct (stored_names_last _ Hne) as (j & s & Hj & Heq).
    pose proof (lookup_lt_Some _ _ _ Hj) as Hlt. rewrite length_take in Hlt.
    rewrite lookup_take_lt in Hj by lia.
    rewrite take_take in Heq. replace ((j + 1) `min` k) with (j + 1) in Heq by lia.
    exists (join SEP (stored_names (take (j + 1) (levels st)))). split.
    + by eapply Hrec.
    + rewrite join_snoc_nonempty by done. by rewrite Heq.
Qed.

Lemma run_paths_have_parents ls all st :
  (∀ l, l ∈ ls → l ∈ all) →
  for_each process_line initial_state ls = Ok st →
  ∀ p, p ∈ results st →
       segment_form all p
       ∨ ∃ parent seg, parent ∈ results st ∧ segment_form all seg
                       ∧ p = parent ++ SEP ++ seg.
Proof.
  revert st. induction ls as [|l ls IH] using rev_ind; intros st Hsub Hrun p Hp.
  { injection Hrun as <-. by apply elem_of_nil in Hp. }
  rewrite for_each_snoc in Hrun.
  destruct (for_each process_line initial_state ls) as [st1|e] eqn:Hpre;
    [|done].
  rewrite bind_Ok in Hrun.
  assert (Hsub1 : ∀ l0, l0 ∈ ls → l0 ∈ all)
    by (intros l0 Hl0; apply Hsub, elem_of_app; by left).
  assert (Hl : l ∈ all)
    by (apply Hsub, elem_of_app; right; by apply list_elem_of_singleton).
  specialize (IH st1 Hsub1 eq_refl).
  destruct (reachable_names_form ls st1 Hpre) as [Hst1 _].
  pose proof (run_paths_recorded ls st1 Hpre) as Hrec.
  destruct (is_blank l) eqn:Hb.
  { rewrite process_line_blank in Hrun by done. injection Hrun as <-.
    by apply IH. }
  destruct (decide (level_of l < 50)) as [Hk|Hk];
    [|rewrite process_line_deep in Hrun by (done || lia); done].
  rewrite process_line_nonblank in Hrun by done. injection Hrun as <-.
  destruct (new_path_has_parent st1 (level_of l) (content_of l) Hst1 Hk Hrec)
    as (q & Hres & Hq).
  rewrite Hres in Hp |- *.
  pose proof (new_segment_form all l
                (default 0 (counters st1 !! level_of l)) Hl Hb) as Hseg.
  apply elem_of_app in Hp as [Hp|Hp%list_elem_of_singleton].
  - destruct (IH p Hp) as [?|(parent & seg & Hpar & ? & ?)]; [by left|].
    right. exists parent, seg. split_and!; try done.
    apply elem_of_app. by left.
  - subst p. destruct Hq as [->|(parent & Hpar & ->)]; [by left|].
    right. eexists parent, _. split_and!; [|exact Hseg|done].
    apply elem_of_app. by left.
Qed.

(** X6.  The returned paths are closed under taking the parent: every path
    is a single segment, or a returned path followed by ["::"] and one more
    segment. *)
Theorem X6_every_path_extends_a_returned_path (lines out : list pystr) :
  parse_indented_subtags_enumerate_all lines = Ok out →
  ∀ p, p ∈ out →
       segment_form lines p
       ∨ ∃ parent seg, parent ∈ out ∧ segment_form lines seg
                       ∧ p = parent ++ SEP ++ seg.
Proof.
  unfold parse_indented_subtags_enumerate_all.
  destruct (for_each process_line initial_state lines) as [st|e] eqn:Hrun;
    [|done].
  rewrite bind_Ok. intros [= <-] p Hp. apply (proj1 (dedup_elem_of _ _)) in Hp.
  destruct (run_paths_have_parents lines lines st (fun _ H => H) Hrun p Hp)
    as [?|(parent & seg & Hpar & ? & ?)]; [by left|].
  right. exists parent, seg. split_and!; try done. by apply dedup_elem_of.
Qed.

Lemma X6_every_path_extends_a_returned_path_witness :
  segment_form [str "a"; str "        c"] (str "01_a::01_c")
  ∨ ∃ parent seg, parent ∈ [str "01_a"; str "01_a::01_c"]
                  ∧ segment_form [str "a"; str "        c"] seg
                  ∧ str "01_a::01_c" = parent ++ SEP ++ seg.
Proof.
  apply (X6_every_path_extends_a_returned_path [str "a"; str "        c"]).
  - vm_compute. reflexivity.
  - right. left.
Defined.

(** ** The tags the dialog hands over *)

Lemma enumerate_output_shape lines out :
  parse_indented_subtags_enumerate_all lines = Ok out →
  NoDup out ∧ Forall flat_line out.
Proof.
  unfold parse_indented_subtags_enumerate_all.
  destruct (for_each process_line initial_state lines) as [st|e] eqn:Hrun;
    [|done].
  rewrite bind_Ok. intros [= <-]. split; [apply dedup_NoDup|].
  destruct (reachable_names_form lines st Hrun) as [_ [_ Hres]].
  rewrite Forall_forall in Hres. apply Forall_forall.
  intros p Hp. apply (path_form_shape lines), Hres. by apply dedup_elem_of.
Qed.

(** X7.  The tags [getData] returns are pairwise distinct, none is empty
    and none holds a space, whatever the parent field holds; there is one
    for each path of the enumerator. *)
Theorem X7_dialog_tags_distinct_without_spaces
    (parent_text : pystr) (lines tags : list pystr) :
  getData parent_text lines = Ok tags →
  NoDup tags
  ∧ Forall (fun t => t ≠ [] ∧ SPACE ∉ t) tags
  ∧ ∃ out, parse_indented_subtags_enumerate_all lines = Ok out
           ∧ length tags = length out.
Proof.
  unfold getData.
  destruct (parse_indented_subtags_enumerate_all lines) as [out|e] eqn:Hout;
    [|done].
  destruct (enumerate_output_shape lines out Hout) as [Hnd Hflat].
  rewrite bind_Ok.
  set (parent := replace_spaces_with_underscores (strip parent_text)).
  destruct (decide (parent = [])) as [Hp|Hp].
  - rewrite Hp, prefix_loop_falsy. simpl. intros [= <-]. split_and!; [done| |by exists out].
    eapply Forall_impl; [exact Hflat|].
    intros p ((d & Hd & _) & _ & Hsp). split; [by destruct p | done].
  - rewrite prefix_loop_truthy by done. simpl. intros [= <-]. split_and!.
    + apply NoDup_fmap_2_strong; [|done].
      intros x y _ _ Heq. apply app_inv_head in Heq. by injection Heq.
    + apply Forall_fmap. eapply Forall_impl; [exact Hflat|].
      intros p (_ & _ & Hsp). simpl.
      split; [by intros [? _]%app_eq_nil|].
      rewrite !elem_of_app. intros [Hin|Hin].
      * by apply replace_no_space in Hin.
      * repeat (apply elem_of_cons in Hin as [Hin|Hin]; [discriminate|]).
        done.
    + exists out. split; [done|]. by rewrite length_fmap.
Qed.

Lemma X7_dialog_tags_distinct_without_spaces_witness :
  NoDup [str "My_Deck::01_a"; str "My_Deck::01_a::01_b_c"]
  ∧ Forall (fun t => t ≠ [] ∧ SPACE ∉ t)
      [str "My_Deck::01_a"; str "My_Deck::01_a::01_b_c"]
  ∧ ∃ out, parse_indented_subtags_enumerate_all [str "a"; str "    b c"] = Ok out
           ∧ length [str "My_Deck::01_a"; str "My_Deck::01_a::01_b_c"]
             = length out.
Proof.
  apply (X7_dialog_tags_distinct_without_spaces
           (str " My Deck ") [str "a"; str "    b c"]).
  vm_compute. reflexivity.
Defined.

(** ** Lines of the text area *)

Lemma splitlines_line_LF l t :
  Forall (fun c => py_islinebreak c = false) l →
  splitlines (l ++ LF :: t) = l :: splitlines t.
Proof.
  induction 1 as [|c l Hc Hl IH]; [done|].
  simpl. rewrite Hc. simpl in IH. by rewrite IH.
Qed.

Lemma splitlines_line_CRLF l t :
  Forall (fun c => py_islinebreak c = false) l →
  splitlines (l ++ CR :: LF :: t) = l :: splitlines t.
Proof.
  induction 1 as [|c l Hc Hl IH]; [done|].
  simpl. rewrite Hc. simpl in IH. by rewrite IH.
Qed.

Lemma splitlines_single l :
  Forall (fun c => py_islinebreak c = false) l →
  splitlines l = if decide (l = []) then [] else [l].
Proof.
  induction 1 as [|c l Hc Hl IH]; [done|].
  simpl. rewrite Hc, IH. by destruct (decide (l = [])) as [->|].
Qed.

Lemma splitlines_join sep ls :
  (∀ l t, Forall (fun c => py_islinebreak c = false) l →
          splitlines (l ++ sep ++ t) = l :: splitlines t) →
  Forall (Forall (fun c => py_islinebreak c = false)) ls →
  ls = splitlines (join sep ls) ∨ ls = splitlines (join sep ls) ++ [[]].
Proof.
  intros Hsep. induction 1 as [|l ls Hl Hls IH]; [by left|].
  destruct ls as [|l' ls'].
  - simpl. rewrite splitlines_single by done.
    destruct (decide (l = [])) as [->|]; [by right | by left].
  - rewrite join_cons_cons, Hsep by done.
    destruct IH as [IH|IH]; [left | right]; by rewrite IH at 1.
Qed.

Lemma enumerate_trailing_empty ls :
  parse_indented_subtags_enumerate_all (ls ++ [[]])
  = parse_indented_subtags_enumerate_all ls.
Proof.
  unfold parse_indented_subtags_enumerate_all. rewrite for_each_snoc.
  destruct (for_each process_line initial_state ls) as [st|e]; [|done].
  rewrite !bind_Ok. by rewrite process_line_blank.
Qed.

Lemma getData_trailing_empty parent_text ls :
  getData parent_text (ls ++ [[]]) = getData parent_text ls.
Proof. unfold getData. by rewrite enumerate_trailing_empty. Qed.

(** X8.  The dialog reads its text area line by line: for lines that hold
    no line-break character, the text made of them with a line feed, or a
    carriage return and a line feed, between consecutive lines gives the
    result of [getData] on these lines. *)
Theorem X8_text_is_read_line_by_line (parent_text : pystr) (lines : list pystr) :
  Forall (Forall (fun c => py_islinebreak c = false)) lines →
  getData_from_text parent_text (join [LF] lines) = getData parent_text lines
  ∧ getData_from_text parent_text (join [CR; LF] lines)
    = getData parent_text lines.
Proof.
  intros Hlines. unfold getData_from_text. split.
  - destruct (splitlines_join [LF] lines) as [H|H]; [|done| |].
    + intros l t Hl. by apply splitlines_line_LF.
    + by rewrite <- H.
    + rewrite H at 2. by rewrite getData_trailing_empty.
  - destruct (splitlines_join [CR; LF] lines) as [H|H]; [|done| |].
    + intros l t Hl. by apply splitlines_line_CRLF.
    + by rewrite <- H.
    + rewrite H at 2. by rewrite getData_trailing_empty.
Qed.

Lemma X8_text_is_read_line_by_line_witness :
  getData_from_text (str "P") (join [LF] [str "a"; str "    b"; str ""])
  = getData (str "P") [str "a"; str "    b"; str ""]
  ∧ getData_from_text (str "P") (join [CR; LF] [str "a"; str "    b"; str ""])
    = getData (str "P") [str "a"; str "    b"; str ""].
Proof.
  apply (X8_text_is_read_line_by_line (str "P") [str "a"; str "    b"; str ""]).
  repeat constructor.
Defined.

Lemma push_front_snoc c pieces :
  pieces ≠ [] → push_front c (pieces ++ [[]]) = push_front c pieces ++ [[]].
Proof. by destruct pieces. Qed.

Lemma splitlines_nil_iff s : splitlines s = [] ↔ s = [].
Proof.
  split; [|by intros ->]. destruct s as [|c s]; [done|]. simpl.
  destruct (py_islinebreak c); [done|]. by destruct (splitlines s).
Qed.

Lemma splitlines_snoc_LF s :
  splitlines (s ++ [LF]) = splitlines s
  ∨ splitlines (s ++ [LF]) = splitlines s ++ [[]].
Proof.
  remember (length s) as n eqn:Hn. revert s Hn.
  induction n as [n IH] using lt_wf_ind. intros s Hn.
  destruct s as [|c s]; [by right|].
  simpl in Hn. simpl. destruct (py_islinebreak c) eqn:Hc.
  - destruct (N.eqb_spec c CR) as [->|Hne].
    + destruct s as [|d s]; [by left|]. simpl.
      destruct (N.eqb_spec d LF) as [->|Hd].
      * destruct (IH (length s) ltac:(simpl in Hn; lia) s eq_refl) as [H|H];
          [left | right]; by rewrite H.
      * destruct (IH (length (d :: s)) ltac:(lia) (d :: s) eq_refl) as [H|H];
          simpl in H; [left | right]; by rewrite H.
    + destruct (IH (length s) ltac:(lia) s eq_refl) as [H|H];
        [left | right]; by rewrite H.
  - destruct (IH (length s) ltac:(lia) s eq_refl) as [H|H]; rewrite H.
    + by left.
    + destruct (decide (splitlines s = [])) as [Hnil|Hne].
      * left. by rewrite Hnil.
      * right. by apply push_front_snoc.
Qed.

(** X9.  A line feed at the end of the text area changes nothing in what
    [getData] returns. *)
Theorem X9_trailing_newline_is_ignored (parent_text plain_text : pystr) :
  getData_from_text parent_text (plain_text ++ [LF])
  = getData_from_text parent_text plain_text.
Proof.
  unfold getData_from_text.
  destruct (splitlines_snoc_LF plain_text) as [->| ->]; [done|].
  apply getData_trailing_empty.
Qed.

(** ** Adding the tags to a note *)

Lemma first_occurrences_elem_of rs x : x ∈ spec_first_occurrences rs ↔ x ∈ rs.
Proof. rewrite <- dedup_first_occurrences. apply dedup_elem_of. Qed.

Lemma first_occurrences_NoDup rs : NoDup (spec_first_occurrences rs).
Proof. rewrite <- dedup_first_occurrences. apply dedup_NoDup. Qed.

Lemma merge_spec l full :
  foldl add_new_tag l full
  = l ++ spec_first_occurrences (filter (fun t => t ∉ l) full).
Proof.
  induction full as [|t full IH] using rev_ind; [by rewrite app_nil_r|].
  rewrite foldl_snoc, IH, filter_app. unfold add_new_tag.
  rewrite filter_cons, filter_nil.
  destruct (decide (t ∉ l)) as [Hnl|Hl].
  - rewrite spec_first_occurrences_snoc.
    destruct (decide (t ∈ filter (fun t => t ∉ l) full)) as [Hin|Hnin].
    + rewrite decide_True; [done|].
      apply elem_of_app. right. by apply first_occurrences_elem_of.
    + rewrite decide_False; [by rewrite <- (assoc_L (++))|].
      intros [?|Hin]%elem_of_app; [done|].
      by apply (proj1 (first_occurrences_elem_of _ _)) in Hin.
  - rewrite app_nil_r. rewrite decide_True; [done|].
    apply elem_of_app. left. by apply dec_stable.
Qed.

Lemma merge_noop l full :
  (∀ t, t ∈ full → t ∈ l) → foldl add_new_tag l full = l.
Proof.
  intros Hall. induction full as [|t full IH] using rev_ind; [done|].
  rewrite foldl_snoc, IH.
  - unfold add_new_tag. rewrite decide_True; [done|].
    apply Hall, elem_of_app. right. by apply list_elem_of_singleton.
  - intros t' Ht'. apply Hall, elem_of_app. by left.
Qed.

Lemma merge_contains l full t : t ∈ full → t ∈ foldl add_new_tag l full.
Proof.
  intros Ht. rewrite merge_spec, elem_of_app.
  destruct (decide (t ∈ l)); [by left|]. right.
  apply first_occurrences_elem_of, list_elem_of_filter. done.
Qed.

(** X10.  On a note whose tags are a list, the tags already there stay in
    place and the new tags not yet among them are appended, each once, in
    the order of their first occurrence; afterwards every new tag is on the
    note, and a note without duplicate tags has none afterwards. *)
Theorem X10_list_tags_appended_once (l full_tags : list pystr) :
  update_note_tags (TagList l) full_tags
  = TagList (l ++ spec_first_occurrences (filter (fun t => t ∉ l) full_tags))
  ∧ (∀ t, t ∈ full_tags →
          t ∈ l ++ spec_first_occurrences (filter (fun t => t ∉ l) full_tags))
  ∧ (NoDup l →
     NoDup (l ++ spec_first_occurrences (filter (fun t => t ∉ l) full_tags))).
Proof.
  split_and!.
  - simpl. by rewrite merge_spec.
  - intros t Ht. rewrite <- merge_spec. by apply merge_contains.
  - intros Hnd. apply NoDup_app. split_and!; [done| |apply first_occurrences_NoDup].
    intros t Ht Hin. apply (proj1 (first_occurrences_elem_of _ _)) in Hin.
    by apply list_elem_of_filter in Hin as [Hin _].
Qed.

Lemma X10_list_tags_appended_once_witness :
  NoDup ([str "x"; str "y"]
         ++ spec_first_occurrences
              (filter (fun t => t ∉ [str "x"; str "y"])
                 [str "z"; str "y"; str "z"])).
Proof.
  apply (proj2 (proj2 (X10_list_tags_appended_once
                         [str "x"; str "y"] [str "z"; str "y"; str "z"]))).
  repeat constructor; vm_compute; intros H;
    repeat (apply elem_of_cons in H as [H|H]; [discriminate|]);
    by apply elem_of_nil in H.
Defined.

(** X11.  Adding the same tags to a note a second time changes nothing when
    the tags of the note are a list. *)
Theorem X11_list_tags_second_time_unchanged (l full_tags : list pystr) :
  update_note_tags (update_note_tags (TagList l) full_tags) full_tags
  = update_note_tags (TagList l) full_tags.
Proof.
  simpl. f_equal. apply merge_noop. intros t Ht. by apply merge_contains.
Qed.

Lemma split_ws_tokens s : Forall is_token (split_ws s).
Proof.
  induction s as [|c s IH]; [constructor|]. simpl.
  destruct (py_isspace c) eqn:Hc; [done|].
  destruct s as [|d s]; [by repeat constructor|].
  destruct (py_isspace d) eqn:Hd.
  - constructor; [by repeat constructor | done].
  - destruct (split_ws (d :: s)) as [|t ts]; [by repeat constructor|].
    apply Forall_cons in IH as [[_ Ht] Hts]. simpl.
    constructor; [|done]. split; [done | by constructor].
Qed.

Lemma split_ws_cons_nonspace c s :
  py_isspace c = false →
  split_ws (c :: s)
  = match s with
    | [] => [[c]]
    | d :: _ =>
        if py_isspace d then [c] :: split_ws s else push_front c (split_ws s)
    end.
Proof. intros Hc. simpl. by rewrite Hc. Qed.

Lemma split_ws_token t : is_token t → split_ws t = [t].
Proof.
  intros [Hne Hall]. induction Hall as [|c t Hc Hall IH]; [done|].
  rewrite split_ws_cons_nonspace by done.
  destruct Hall as [|d t Hd Hall]; [done|].
  rewrite Hd. by rewrite IH.
Qed.

Lemma split_ws_token_space t u :
  is_token t → split_ws (t ++ SPACE :: u) = t :: split_ws u.
Proof.
  intros [Hne Hall]. induction Hall as [|c t Hc Hall IH]; [done|].
  change ((c :: t) ++ SPACE :: u) with (c :: (t ++ SPACE :: u)).
  rewrite split_ws_cons_nonspace by done.
  destruct Hall as [|d t Hd Hall]; [done|].
  change ((d :: t) ++ SPACE :: u) with (d :: (t ++ SPACE :: u)) in *.
  cbv beta iota. rewrite Hd. by rewrite IH.
Qed.

Lemma split_ws_join ts :
  Forall is_token ts → split_ws (join [SPACE] ts) = ts.
Proof.
  induction 1 as [|t ts Ht Hts IH]; [done|].
  destruct ts as [|t' ts']; [by apply split_ws_token|].
  rewrite join_cons_cons.
  change ([SPACE] ++ ?x) with (SPACE :: x).
  by rewrite split_ws_token_space, IH.
Qed.

Lemma merge_tokens l full :
  Forall is_token l → Forall is_token full →
  Forall is_token (foldl add_new_tag l full).
Proof.
  intros Hl Hfull. revert l Hl.
  induction Hfull as [|t full Ht Hfull IH]; intros l Hl; simpl; [done|].
  apply IH. unfold add_new_tag. destruct (decide (t ∈ l)); [done|].
  apply Forall_app. by split; [|constructor].
Qed.

(** X12.  On a note whose tags are one string, when no new tag is empty or
    holds whitespace: the string written back reads as the tags that were
    there followed by the new tags not yet among them, each once; and adding
    the same tags a second time changes nothing. *)
Theorem X12_string_tags_appended_once (s : pystr) (full_tags : list pystr) :
  Forall is_token full_tags →
  ∃ r,
    update_note_tags (TagString s) full_tags = TagString r
    ∧ split_ws r
      = split_ws s
        ++ spec_first_occurrences (filter (fun t => t ∉ split_ws s) full_tags)
    ∧ update_note_tags (TagString r) full_tags = TagString r.
Proof.
  intros Hfull. eexists. split; [done|].
  pose proof (merge_tokens (split_ws s) full_tags (split_ws_tokens s) Hfull)
    as Htok.
  rewrite split_ws_join by done. split; [apply merge_spec|].
  simpl. rewrite split_ws_join by done. f_equal. f_equal.
  apply merge_noop. intros t Ht. by apply merge_contains.
Qed.

Lemma X12_string_tags_appended_once_witness :
  ∃ r,
    update_note_tags (TagString (str " x  y ")) [str "z"; str "y"; str "z"]
    = TagString r
    ∧ split_ws r
      = split_ws (str " x  y ")
        ++ spec_first_occurrences
             (filter (fun t => t ∉ split_ws (str " x  y "))
                [str "z"; str "y"; str "z"])
    ∧ update_note_tags (TagString r) [str "z"; str "y"; str "z"] = TagString r.
Proof.
  apply (X12_string_tags_appended_once (str " x  y ")
           [str "z"; str "y"; str "z"]).
  repeat constructor; done.
Defined.

(** X13.  A new tag that holds a whitespace character (a tab inside the
    content of a line, say) is not among the tags read back from the string
    of a note after it was added: the next time it is taken for missing and
    appended again. *)
Theorem X13_tag_with_whitespace_appended_again
    (s : pystr) (full_tags : list pystr) (t : pystr) (c : char) :
  t ∈ full_tags → c ∈ t → py_isspace c = true →
  ∃ r,
    update_note_tags (TagString s) full_tags = TagString r
    ∧ (t ∉ split_ws r)
    ∧ ∃ added,
        t ∈ added
        ∧ update_note_tags (TagString r) full_tags
          = TagString (join [SPACE] (split_ws r ++ added)).
Proof.
  intros Ht Hc Hsp.
  assert (Hnot : ∀ r, t ∉ split_ws r).
  { intros r Hin. pose proof (split_ws_tokens r) as Htok.
    rewrite Forall_forall in Htok. destruct (Htok t Hin) as [_ Hall].
    rewrite Forall_forall in Hall. specialize (Hall c Hc). congruence. }
  eexists. split; [done|]. split; [apply Hnot|].
  eexists. split; [|simpl; by rewrite merge_spec].
  apply first_occurrences_elem_of, list_elem_of_filter. split; [apply Hnot|done].
Qed.

Lemma X13_tag_with_whitespace_appended_again_witness :
  ∃ r,
    update_note_tags (TagString (str "x")) [str "a" ++ [TAB] ++ str "b"]
    = TagString r
    ∧ (str "a" ++ [TAB] ++ str "b" ∉ split_ws r)
    ∧ ∃ added,
        str "a" ++ [TAB] ++ str "b" ∈ added
        ∧ update_note_tags (TagString r) [str "a" ++ [TAB] ++ str "b"]
          = TagString (join [SPACE] (split_ws r ++ added)).
Proof.
  apply (X13_tag_with_whitespace_appended_again
           (str "x") [str "a" ++ [TAB] ++ str "b"]
           (str "a" ++ [TAB] ++ str "b") TAB).
  - by apply list_elem_of_singleton.
  - vm_compute. apply elem_of_cons. right. apply elem_of_cons. by left.
  - reflexivity.
Defined.

(** ** From the dialog to the note *)

Lemma replace_only_spaces s :
  (∀ c, c ∈ s → py_isspace c = true → c = SPACE) →
  Forall (fun c => py_isspace c = false) (replace_spaces_with_underscores s).
Proof.
  intros Hs. unfold replace_spaces_with_underscores.
  apply Forall_fmap, Forall_forall. intros c Hc. simpl.
  destruct (N.eqb_spec c SPACE) as [->|Hne]; [done|].
  destruct (py_isspace c) eqn:Hsp; [|done]. by specialize (Hs c Hc Hsp).
Qed.

Lemma join_Forall (P : char → Prop) sep segs :
  Forall P sep → Forall (Forall P) segs → Forall P (join sep segs).
Proof.
  intros Hsep. induction 1 as [|seg segs Hseg Hsegs IH]; [constructor|].
  destruct segs as [|seg' segs']; [done|].
  rewrite join_cons_cons. by repeat (apply Forall_app; split).
Qed.

Lemma path_form_token lines p :
  (∀ line c, line ∈ lines → c ∈ content_of line →
             py_isspace c = true → c = SPACE) →
  path_form lines p → Forall (fun c => py_isspace c = false) p.
Proof.
  intros Hlines (segs & _ & -> & Hsegs). apply join_Forall.
  { by repeat constructor. }
  eapply Forall_impl; [exact Hsegs|].
  intros seg (count & line & Hin & _ & _ & -> & _).
  apply Forall_app; split; [|apply Forall_app; split].
  - eapply Forall_impl; [apply format_02d_digits|]. apply digit_not_space.
  - by repeat constructor.
  - apply replace_only_spaces. intros c. by apply Hlines.
Qed.

(** X14.  When the spaces are the only whitespace inside the trimmed parent
    text and inside the content of every line, no tag that [getData]
    returns is empty or holds whitespace: each can be stored in, and read
    back from, a string of tags. *)
Theorem X14_dialog_tags_are_tokens
    (parent_text : pystr) (lines tags : list pystr) :
  getData parent_text lines = Ok tags →
  (∀ c, c ∈ strip parent_text → py_isspace c = true → c = SPACE) →
  (∀ line c, line ∈ lines → c ∈ content_of line →
             py_isspace c = true → c = SPACE) →
  Forall is_token tags.
Proof.
  unfold getData. intros Hdata Hparent Hlines.
  destruct (parse_indented_subtags_enumerate_all lines) as [out|e] eqn:Hout;
    [|done].
  assert (Hpaths : Forall (fun p => p ≠ []
                                    ∧ Forall (fun c => py_isspace c = false) p)
                     out).
  { apply Forall_forall. intros p Hp.
    revert Hout. unfold parse_indented_subtags_enumerate_all.
    destruct (for_each process_line initial_state lines) as [st|e] eqn:Hrun;
      [|done].
    rewrite bind_Ok. intros [= <-]. apply (proj1 (dedup_elem_of _ _)) in Hp.
    destruct (reachable_names_form lines st Hrun) as [_ [_ Hres]].
    rewrite Forall_forall in Hres. specialize (Hres p Hp). split.
    - destruct (path_form_shape lines p Hres) as ((d & Hd & _) & _).
      by destruct p.
    - by apply (path_form_token lines). }
  rewrite bind_Ok in Hdata.
  set (parent := replace_spaces_with_underscores (strip parent_text)) in *.
  destruct (decide (parent = [])) as [Hp|Hp].
  - rewrite Hp, prefix_loop_falsy in Hdata. simpl in Hdata.
    by injection Hdata as <-.
  - rewrite prefix_loop_truthy in Hdata by done. simpl in Hdata.
    injection Hdata as <-. apply Forall_fmap.
    eapply Forall_impl; [exact Hpaths|]. intros p [Hne Hall]. simpl. split.
    + by intros [? _]%app_eq_nil.
    + apply Forall_app. split; [by apply replace_only_spaces|].
      by repeat constructor.
Qed.

Lemma X14_dialog_tags_are_tokens_witness :
  Forall is_token [str "My_Deck::01_a"; str "My_Deck::01_a::01_b_c"].
Proof.
  apply (X14_dialog_tags_are_tokens (str " My Deck ") [str "a"; str "    b c"]).
  - vm_compute. reflexivity.
  - intros c Hc Hsp. vm_compute in Hc.
    repeat (apply elem_of_cons in Hc as [->|Hc]; [done || discriminate|]).
    by apply elem_of_nil in Hc.
  - intros line c Hline Hc Hsp.
    repeat (apply elem_of_cons in Hline as [->|Hline];
            [vm_compute in Hc;
             repeat (apply elem_of_cons in Hc as [->|Hc]; [done || discriminate|]);
             by apply elem_of_nil in Hc|]).
    by apply elem_of_nil in Hline.
Defined.

(** ** Splitting tags at the separator *)

Lemma split_sep_nonempty s : split_sep s ≠ [].
Proof.
  induction s as [|c s IH]; [done|]. simpl.
  destruct (c =? COLON)%N.
  - destruct s as [|d s]; [done|]. destruct (d =? COLON)%N; [done|].
    by destruct (split_sep (d :: s)).
  - by destruct (split_sep s).
Qed.

Lemma join_push_front c pieces :
  pieces ≠ [] → join SEP (push_front c pieces) = c :: join SEP pieces.
Proof. destruct pieces as [|p [|p' ps]]; done. Qed.

Lemma join_split_sep s : join SEP (split_sep s) = s.
Proof.
  remember (length s) as n eqn:Hn. revert s Hn.
  induction n as [n IH] using lt_wf_ind. intros s Hn.
  destruct s as [|c s]; [done|]. simpl in Hn. simpl.
  destruct (N.eqb_spec c COLON) as [->|Hc].
  - destruct s as [|d s]; [done|]. simpl in Hn.
    destruct (N.eqb_spec d COLON) as [->|Hd].
    + pose proof (split_sep_nonempty s) as Hne.
      destruct (split_sep s) as [|p ps] eqn:Hs; [done|].
      change (join SEP ([] :: p :: ps)) with (SEP ++ join SEP (p :: ps)).
      rewrite <- Hs, (IH (length s)) by (done || lia). done.
    + rewrite join_push_front by apply split_sep_nonempty.
      by rewrite (IH (length (d :: s))) by (done || simpl; lia).
  - rewrite join_push_front by apply split_sep_nonempty.
    by rewrite (IH (length s)) by (done || lia).
Qed.

Lemma split_sep_inj s t : split_sep s = split_sep t → s = t.
Proof. intros H. by rewrite <- (join_split_sep s), H, join_split_sep. Qed.

(** ** Dictionaries *)

Lemma dict_get_set d k v k' :
  dict_get (dict_set d k v) k' = if decide (k = k') then Some v else dict_get d k'.
Proof.
  induction d as [|[k0 v0] d IH]; simpl.
  - by destruct (decide (k = k')).
  - destruct (decide (k0 = k)) as [->|Hne]; simpl.
    + by destruct (decide (k = k')).
    + destruct (decide (k0 = k')) as [->|Hne'].
      * by rewrite decide_False by done.
      * done.
Qed.

Lemma tree_ok_dict d : tree_ok (VDict d) ↔ Forall entry_ok d.
Proof.
  induction d as [|[k c] d IH]; simpl.
  - split; [constructor | done].
  - rewrite Forall_cons. unfold entry_ok at 1. simpl.
    simpl in IH. by rewrite IH.
Qed.

Lemma entries_ok_set d k v :
  Forall entry_ok d → entry_ok (k, v) → Forall entry_ok (dict_set d k v).
Proof.
  intros Hd Hv. induction Hd as [|[k0 v0] d H0 Hd IH]; simpl.
  - by constructor.
  - destruct (decide (k0 = k)); by constructor.
Qed.

Lemma entries_ok_get d k c :
  Forall entry_ok d → dict_get d k = Some c → entry_ok (k, c).
Proof.
  intros Hd. induction Hd as [|[k0 v0] d H0 Hd IH]; simpl; [done|].
  destruct (decide (k0 = k)) as [->|]; [by intros [= <-] | done].
Qed.

Lemma child_ok d part :
  Forall entry_ok d → part ≠ FULL →
  tree_ok (default (VDict []) (dict_get d part)).
Proof.
  intros Hd Hpart. destruct (dict_get d part) as [c|] eqn:Hget; [|done].
  pose proof (entries_ok_get d part c Hd Hget) as Hc.
  unfold entry_ok in Hc. simpl in Hc. by rewrite decide_False in Hc.
Qed.

(** ** Reading one tag into the tree *)

Lemma node_tag_nil d :
  node_tag [] (VDict d)
  = Some (match dict_get d FULL with Some (VStr t) => Some t | _ => None end).
Proof. done. Qed.

Lemma node_tag_cons p q d :
  node_tag (p :: q) (VDict d)
  = match dict_get d p with Some c => node_tag q c | None => None end.
Proof. unfold node_tag. simpl. by destruct (dict_get d p). Qed.

Lemma node_tag_empty_dict q :
  node_tag q (VDict []) = if decide (q = []) then Some None else None.
Proof. by destruct q. Qed.

Lemma insert_tag_ok parts tag v :
  tree_ok v → FULL ∉ parts →
  ∃ v',
    insert_tag parts tag v = Done v' ∧ tree_ok v' ∧
    ∀ q, FULL ∉ q →
         node_tag q v'
         = if decide (q = parts) then Some (Some tag)
           else if decide (q `prefix_of` parts)
                then Some (default None (node_tag q v))
                else node_tag q v.
Proof.
  revert v. induction parts as [|part rest IH]; intros v Hv Hparts.
  - destruct v as [s|d]; [done|]. apply tree_ok_dict in Hv.
    eexists. split; [done|]. split.
    + apply tree_ok_dict, entries_ok_set; [done|].
      unfold entry_ok. simpl. by eexists.
    + intros [|p q] Hq.
      * rewrite decide_True by done. rewrite node_tag_nil, dict_get_set.
        by rewrite decide_True.
      * rewrite decide_False by done.
        rewrite decide_False by (by intros ?%prefix_nil_inv).
        rewrite !node_tag_cons, dict_get_set. rewrite decide_False; [done|].
        intros <-. apply Hq. by left.
  - destruct v as [s|d]; [done|]. apply tree_ok_dict in Hv.
    assert (Hpart : part ≠ FULL) by (intros ->; apply Hparts; by left).
    assert (Hrest : FULL ∉ rest) by (intros ?; apply Hparts; by right).
    destruct (IH _ (child_ok d part Hv Hpart) Hrest) as (child & Hins & Hok & Hq).
    exists (VDict (dict_set d part child)). split_and!.
    + simpl. by rewrite Hins.
    + apply tree_ok_dict, entries_ok_set; [done|].
      unfold entry_ok. simpl. by rewrite decide_False.
    + intros [|p q] Hfull.
      * rewrite decide_False by done.
        rewrite decide_True by apply prefix_nil.
        rewrite !node_tag_nil, dict_get_set. by rewrite decide_False.
      * assert (Hq' : FULL ∉ q) by (intros ?; apply Hfull; by right).
        rewrite !node_tag_cons, dict_get_set.
        destruct (decide (part = p)) as [->|Hne].
        -- rewrite (Hq q Hq').
           destruct (decide (q = rest)) as [->|Hqr].
           { by rewrite decide_True. }
           rewrite (decide_False (P := p :: q = p :: rest)) by congruence.
           destruct (decide (q `prefix_of` rest)) as [Hpre|Hpre].
           { rewrite decide_True by (by apply prefix_cons).
             destruct (dict_get d p); [done|]. simpl.
             rewrite node_tag_empty_dict. by destruct (decide (q = [])). }
           rewrite decide_False by (by intros ?%prefix_cons_inv_2).
           destruct (dict_get d p); [done|]. simpl.
           rewrite node_tag_empty_dict. rewrite decide_False; [done|].
           intros ->. apply Hpre, prefix_nil.
        -- rewrite decide_False by congruence.
           rewrite decide_False; [done|].
           by intros ?%prefix_cons_inv_1.
Qed.

Lemma build_tree_ok tags v :
  tree_ok v → Forall (fun t => FULL ∉ split_sep t) tags →
  ∃ v',
    build_tree tags v = Done v' ∧ tree_ok v' ∧
    ∀ q, FULL ∉ q → node_tag q v' = foldl (node_step q) (node_tag q v) tags.
Proof.
  intros Hv Htags. revert v Hv.
  induction Htags as [|t tags Ht Htags IH]; intros v Hv.
  - by exists v.
  - destruct (insert_tag_ok (split_sep t) t v Hv Ht) as (v1 & Hins & Hv1 & Hq1).
    destruct (IH v1 Hv1) as (v' & Hbuild & Hv' & Hq').
    exists v'. simpl. rewrite Hins. split_and!; [done..|].
    intros q Hq. rewrite (Hq' q Hq), (Hq1 q Hq). done.
Qed.

(** ** From the dictionaries to the items *)

Lemma bind_Done {A B} (a : A) (f : A → attempt B) : (Done a ≫= f) = f a.
Proof. done. Qed.

Lemma pyval_nested_ind (P : pyval → Prop) :
  (∀ s, P (VStr s)) →
  (∀ d, Forall (fun kv => P kv.2) d → P (VDict d)) →
  ∀ v, P v.
Proof.
  intros Hs Hd. fix IH 1. intros [s|d]; [apply Hs|]. apply Hd.
  induction d as [|[k c] d IHd]; constructor; [apply IH | apply IHd].
Qed.

Lemma addItems_cons k c d :
  addItems (VDict ((k, c) :: d))
  = if decide (k = FULL) then addItems (VDict d)
    else match c with
         | VStr _ => Fail AttributeError
         | VDict ve =>
             children ← addItems c;
             siblings ← addItems (VDict d);
             Done (Item k (default (VStr k) (dict_get ve FULL)) false false
                     children :: siblings)
         end.
Proof. by destruct c. Qed.

Lemma tree_ok_full c : tree_ok c → ∃ o, node_tag [] c = Some o
  ∧ match c with
    | VDict ve => default (VStr []) (dict_get ve FULL) = VStr (default [] o)
                  ∧ (dict_get ve FULL = None ↔ o = None)
    | VStr _ => False
    end.
Proof.
  destruct c as [s|ve]; [done|]. intros Hve%tree_ok_dict.
  rewrite node_tag_nil. eexists. split; [done|].
  destruct (dict_get ve FULL) as [f|] eqn:Hget; [|done].
  pose proof (entries_ok_get ve FULL f Hve Hget) as Hf.
  unfold entry_ok in Hf. simpl in Hf. destruct Hf as [t ->]. done.
Qed.

Lemma addItems_total v : tree_ok v → ∃ items, addItems v = Done items.
Proof.
  induction v as [s|d IH] using pyval_nested_ind; [done|].
  intros Hd%tree_ok_dict. induction d as [|[k c] d IHd]; [by exists []|].
  apply Forall_cons in IH as [IHc IH]. apply Forall_cons in Hd as [Hc Hd].
  destruct (IHd IH Hd) as [siblings Hsib]. rewrite addItems_cons.
  unfold entry_ok in Hc. simpl in *.
  destruct (decide (k = FULL)); [by exists siblings|].
  destruct (IHc Hc) as [kids Hkids]. destruct c as [s|ve]; [done|].
  rewrite Hkids, Hsib. by eexists.
Qed.

Lemma dict_get_cons k c d p :
  dict_get ((k, c) :: d) p = if decide (k = p) then Some c else dict_get d p.
Proof. done. Qed.

Lemma find_by_text_cons it items p :
  find_by_text p (it :: items)
  = if decide (item_text it = p) then Some it else find_by_text p items.
Proof. done. Qed.

(** One level: the items mirror the keys other than ["_full"]. *)
Lemma addItems_level d items p :
  Forall entry_ok d → addItems (VDict d) = Done items →
  match dict_get d p with
  | Some c =>
      if decide (p = FULL) then find_by_text p items = None
      else ∃ kids o,
          node_tag [] c = Some o ∧ tree_ok c ∧ addItems c = Done kids ∧
          find_by_text p items
          = Some (Item p (VStr (default p o)) false false kids)
  | None => find_by_text p items = None
  end.
Proof.
  intros Hd. revert items. induction Hd as [|[k c] d Hc Hd IH]; intros items.
  { by intros [= <-]. }
  rewrite addItems_cons, dict_get_cons. unfold entry_ok in Hc. cbn [fst snd] in Hc.
  destruct (decide (k = FULL)) as [->|Hk].
  - intros Hitems. specialize (IH items Hitems).
    destruct (decide (FULL = p)) as [<-|Hp]; [|done].
    rewrite decide_True by done.
    destruct (dict_get d FULL); [|done]. by rewrite decide_True in IH.
  - destruct c as [s|ve]; [done|].
    destruct (addItems (VDict ve)) as [kids|] eqn:Hkids; [|done].
    destruct (addItems (VDict d)) as [siblings|] eqn:Hsib; [|done].
    rewrite !bind_Done. intros [= <-]. specialize (IH siblings eq_refl).
    rewrite find_by_text_cons. cbn [item_text].
    destruct (decide (k = p)) as [->|Hkp]; [|done].
    rewrite decide_False by done.
    destruct (tree_ok_full (VDict ve) Hc) as (o & Ho & Hdata & _).
    exists kids, o. split_and!; [done..|]. do 2 f_equal.
    rewrite node_tag_nil in Ho. injection Ho as <-.
    destruct (dict_get ve FULL) as [[t|?]|]; done.
Qed.

Lemma items_follow_nodes q v items :
  tree_ok v → addItems v = Done items → q ≠ [] →
  match node_tag q v with
  | Some o =>
      if decide (FULL ∈ q) then find_item q items = None
      else ∃ kids,
          find_item q items
          = Some (Item (default [] (last q)) (VStr (default (default [] (last q)) o))
                    false false kids)
  | None => find_item q items = None
  end.
Proof.
  revert v items. induction q as [|p q IH]; intros v items Hv Hitems Hne; [done|].
  destruct v as [s|d]; [done|]. pose proof Hv as Hd%tree_ok_dict.
  pose proof (addItems_level d items p Hd Hitems) as Hlevel.
  rewrite node_tag_cons. simpl.
  destruct (dict_get d p) as [c|] eqn:Hget; [|by rewrite Hlevel].
  destruct (decide (p = FULL)) as [->|Hp].
  { rewrite Hlevel. destruct (node_tag q c); [|done].
    rewrite decide_True; [done | by left]. }
  destruct Hlevel as (kids & o & Ho & Hc & Hkids & Hfind). rewrite Hfind.
  destruct q as [|p' q'].
  - rewrite Ho. rewrite decide_False; [by exists kids|].
    by intros ?%list_elem_of_singleton.
  - specialize (IH c kids Hc Hkids ltac:(done)). simpl in IH |- *.
    destruct (node_tag (p' :: q') c) as [o'|]; [|done].
    destruct (decide (FULL ∈ p' :: q')) as [Hin|Hnin].
    + rewrite decide_True; [done | by right].
    + rewrite decide_False; [|by intros [?|?]%elem_of_cons].
      done.
Qed.

(** ** The tree of a list of tags *)

Lemma node_fold_trace q tags :
  match foldl (node_step q) None tags with
  | None => ∀ t, t ∈ tags → ¬ q `prefix_of` split_sep t
  | Some None =>
      (∃ t, t ∈ tags ∧ q `prefix_of` split_sep t)
      ∧ ∀ t, t ∈ tags → split_sep t ≠ q
  | Some (Some t) => t ∈ tags ∧ split_sep t = q
  end.
Proof.
  induction tags as [|t' tags IH] using rev_ind.
  { simpl. intros t Ht. by apply elem_of_nil in Ht. }
  rewrite foldl_snoc. unfold node_step at 1.
  destruct (decide (q = split_sep t')) as [Heq|Hne].
  { split; [|done]. apply elem_of_app. right. by apply list_elem_of_singleton. }
  destruct (decide (q `prefix_of` split_sep t')) as [Hpre|Hpre].
  - destruct (foldl (node_step q) None tags) as [[t|]|]; simpl.
    + destruct IH as [Ht Hq]. split; [|done]. apply elem_of_app. by left.
    + destruct IH as [_ Hall]. split.
      * exists t'. split; [|done].
        apply elem_of_app. right. by apply list_elem_of_singleton.
      * intros t [Ht|Ht%list_elem_of_singleton]%elem_of_app;
          [by apply Hall | by subst].
    + split.
      * exists t'. split; [|done].
        apply elem_of_app. right. by apply list_elem_of_singleton.
      * intros t [Ht|Ht%list_elem_of_singleton]%elem_of_app; [|by subst].
        intros Heq. apply (IH t Ht). by rewrite Heq.
  - destruct (foldl (node_step q) None tags) as [[t|]|]; simpl.
    + destruct IH as [Ht Hq]. split; [|done]. apply elem_of_app. by left.
    + destruct IH as [(t & Ht & Hq) Hall]. split.
      * exists t. split; [|done]. apply elem_of_app. by left.
      * intros t0 [Ht0|Ht0%list_elem_of_singleton]%elem_of_app;
          [by apply Hall | by subst].
    + intros t [Ht|Ht%list_elem_of_singleton]%elem_of_app;
        [by apply IH | by subst].
Qed.

Lemma node_fold_tag tags t :
  t ∈ tags → foldl (node_step (split_sep t)) None tags = Some (Some t).
Proof.
  intros Ht. pose proof (node_fold_trace (split_sep t) tags) as Htrace.
  destruct (foldl (node_step (split_sep t)) None tags) as [[t'|]|].
  - destruct Htrace as [_ Heq]. by apply split_sep_inj in Heq as ->.
  - destruct Htrace as [_ Hall]. by destruct (Hall t Ht).
  - by destruct (Htrace t Ht).
Qed.

Lemma populateTree_nodes tags :
  Forall (fun t => FULL ∉ split_sep t) tags →
  ∃ treeDict items,
    build_tree tags (VDict []) = Done treeDict ∧ tree_ok treeDict ∧
    addItems treeDict = Done items ∧
    populateTree tags = Done items ∧
    ∀ q, q ≠ [] → FULL ∉ q →
         node_tag q treeDict = foldl (node_step q) None tags.
Proof.
  intros Htags.
  destruct (build_tree_ok tags (VDict []) I Htags) as (v & Hbuild & Hv & Hq).
  destruct (addItems_total v Hv) as [items Hitems].
  exists v, items. unfold populateTree. rewrite Hbuild, bind_Done.
  split_and!; try done. intros q Hne Hfull. rewrite (Hq q Hfull).
  rewrite node_tag_empty_dict. by rewrite decide_False.
Qed.

(** X15.  When no tag has a part ["_full"], [populateTree] builds the tree
    without error, and every tag is found in it by going down from the top
    along its parts: the item reached has the last part as its text and the
    whole tag as its data, and is neither hidden nor expanded. *)
Theorem X15_every_tag_has_its_item (tags : list pystr) :
  Forall (fun t => FULL ∉ split_sep t) tags →
  ∃ items,
    populateTree tags = Done items ∧
    ∀ t, t ∈ tags →
         ∃ kids,
           find_item (split_sep t) items
           = Some (Item (default [] (last (split_sep t))) (VStr t)
                     false false kids).
Proof.
  intros Htags.
  destruct (populateTree_nodes tags Htags)
    as (v & items & _ & Hv & Hitems & Hpop & Hnodes).
  exists items. split; [done|]. intros t Ht.
  assert (Hfull : FULL ∉ split_sep t)
    by (rewrite Forall_forall in Htags; by apply Htags).
  pose proof (items_follow_nodes (split_sep t) v items Hv Hitems
                (split_sep_nonempty t)) as Hfollow.
  rewrite (Hnodes _ (split_sep_nonempty t) Hfull) in Hfollow.
  rewrite (node_fold_tag tags t Ht) in Hfollow.
  by rewrite decide_False in Hfollow.
Qed.

Lemma X15_every_tag_has_its_item_witness :
  ∃ items,
    populateTree [str "A"; str "A::B::C"; str "D::E"] = Done items ∧
    ∀ t, t ∈ [str "A"; str "A::B::C"; str "D::E"] →
         ∃ kids,
           find_item (split_sep t) items
           = Some (Item (default [] (last (split_sep t))) (VStr t)
                     false false kids).
Proof.
  apply (X15_every_tag_has_its_item [str "A"; str "A::B::C"; str "D::E"]).
  repeat constructor; vm_compute; intros H;
    repeat (apply elem_of_cons in H as [H|H]; [discriminate|]);
    by apply elem_of_nil in H.
Defined.



Lemma build_tree_app tags1 tags2 v :
  build_tree (tags1 ++ tags2) v
  = (v' ← build_tree tags1 v; build_tree tags2 v').
Proof.
  revert v. induction tags1 as [|t tags1 IH]; intros v; simpl; [done|].
  destruct (insert_tag (split_sep t) t v) as [v1|e]; simpl; [apply IH | done].
Qed.

Lemma insert_tag_under_tag parts more tag v t :
  tree_ok v → FULL ∉ parts → node_tag parts v = Some (Some t) →
  insert_tag (parts ++ FULL :: more) tag v
  = Fail (match more with [] => TypeError | _ :: _ => AttributeError end).
Proof.
  revert v. induction parts as [|p parts IH]; intros v Hv Hparts Hnode.
  - destruct v as [s|d]; [done|]. rewrite node_tag_nil in Hnode. simpl.
    destruct (dict_get d FULL) as [[s|?]|]; try done. simpl. by destruct more.
  - destruct v as [s|d]; [done|]. rewrite node_tag_cons in Hnode.
    apply tree_ok_dict in Hv.
    assert (Hp : p ≠ FULL) by (intros ->; apply Hparts; by left).
    pose proof (child_ok d p Hv Hp) as Hc.
    destruct (dict_get d p) as [c|] eqn:Hget; [|done]. simpl. rewrite Hget.
    simpl in *. rewrite (IH c); [done | done | | done].
    intros ?. apply Hparts. by right.
Qed.

(** X17.  A tag with a part ["_full"] right under an earlier tag makes
    [populateTree] fail: with a [TypeError] when ["_full"] is its last
    part, with an [AttributeError] when more parts follow. *)
Theorem X17_part_named_full_under_a_tag_fails
    (before after more : list pystr) (t tag : pystr) :
  Forall (fun t => FULL ∉ split_sep t) before →
  t ∈ before →
  split_sep tag = split_sep t ++ FULL :: more →
  populateTree (before ++ tag :: after)
  = Fail (match more with [] => TypeError | _ :: _ => AttributeError end).
Proof.
  intros Hbefore Ht Htag.
  destruct (populateTree_nodes before Hbefore)
    as (v & items & Hbuild & Hv & _ & _ & Hnodes).
  assert (Hfull : FULL ∉ split_sep t)
    by (rewrite Forall_forall in Hbefore; by apply Hbefore).
  unfold populateTree. rewrite build_tree_app, Hbuild, bind_Done. simpl.
  rewrite Htag, (insert_tag_under_tag _ _ _ _ t); [done..|].
  rewrite (Hnodes _ (split_sep_nonempty t) Hfull). by apply node_fold_tag.
Qed.

Lemma X17_part_named_full_under_a_tag_fails_witness :
  populateTree ([str "A"; str "A::B"] ++ str "A::B::_full" :: [str "C"])
  = Fail TypeError
  ∧ populateTree ([str "A"] ++ str "A::_full::x" :: []) = Fail AttributeError.
Proof.
  split.
  - apply (X17_part_named_full_under_a_tag_fails
             [str "A"; str "A::B"] [str "C"] [] (str "A::B") (str "A::B::_full")).
    + repeat constructor; vm_compute; intros H;
        repeat (apply elem_of_cons in H as [H|H]; [discriminate|]);
        by apply elem_of_nil in H.
    + apply elem_of_cons. right. by apply list_elem_of_singleton.
    + reflexivity.
  - apply (X17_part_named_full_under_a_tag_fails
             [str "A"] [] [str "x"] (str "A") (str "A::_full::x")).
    + repeat constructor; vm_compute; intros H;
        repeat (apply elem_of_cons in H as [H|H]; [discriminate|]);
        by apply elem_of_nil in H.
    + by apply list_elem_of_singleton.
    + reflexivity.
Defined.

(** ** Filtering *)

Lemma item_nested_ind (P : item → Prop) :
  (∀ text data hidden expanded children,
     Forall P children → P (Item text data hidden expanded children)) →
  ∀ it, P it.
Proof.
  intros H. fix IH 1. intros [text data hidden expanded children]. apply H.
  induction children as [|c cs IHcs]; constructor; [apply IH | apply IHcs].
Qed.

Lemma elem_of_flat_map {A B} (f : A → list B) l y :
  y ∈ flat_map f l ↔ ∃ x, x ∈ l ∧ y ∈ f x.
Proof.
  rewrite list_elem_of_In, in_flat_map. split; intros (x & Hx & Hy); exists x.
  - by rewrite !list_elem_of_In.
  - by rewrite <- !list_elem_of_In.
Qed.

Lemma filterItem_unfold lower tokens text data hidden expanded children :
  filterItem lower tokens (Item text data hidden expanded children)
  = (me ← matches lower tokens (Item text data hidden expanded children);
     r ← filterItems lower tokens children;
     Done (me || r.1, Item text data (negb (me || r.1)) expanded r.2)).
Proof.
  assert (Hloop : ∀ cs,
    (fix loop (cs : list item) : attempt (bool * list item) :=
       match cs with
       | [] => Done (false, [])
       | c :: cs' =>
           rc ← filterItem lower tokens c;
           rcs ← loop cs';
           Done (rc.1 || rcs.1, rc.2 :: rcs.2)
       end) cs = filterItems lower tokens cs).
  { induction cs as [|c cs IH]; [done|]. simpl. by rewrite IH. }
  simpl. by rewrite Hloop.
Qed.

Lemma subitems_unfold it :
  subitems it = it :: flat_map subitems (item_children it).
Proof.
  by destruct it as [text data hidden expanded children].
Qed.

Lemma unhide_unfold text data hidden expanded children :
  unhide (Item text data hidden expanded children)
  = Item text data false expanded (unhide <$> children).
Proof.
  done.
Qed.

Lemma matches_same lower tokens it it' :
  item_text it = item_text it' → item_data it = item_data it' →
  matches lower tokens it = matches lower tokens it'.
Proof. unfold matches. by intros -> ->. Qed.

Lemma split_ws_blank query :
  forallb py_isspace query = true → split_ws query = [].
Proof.
  induction query as [|c query IH]; [done|]. simpl.
  intros [Hc Hq]%andb_prop. rewrite Hc. by apply IH.
Qed.

Lemma filterItem_no_tokens lower it :
  plain_data it → filterItem lower [] it = Done (true, unhide it).
Proof.
  induction it as [text data hidden expanded children IH] using item_nested_ind.
  intros Hplain. rewrite filterItem_unfold, unhide_unfold.
  destruct (Hplain (Item text data hidden expanded children)) as [s Hs].
  { rewrite subitems_unfold. by left. }
  simpl in Hs. subst data. unfold matches at 1. simpl.
  assert (Hkids : ∃ b, filterItems lower [] children = Done (b, unhide <$> children)).
  { assert (Hall : Forall plain_data children).
    { apply Forall_forall. intros c Hc it' Hit'. apply Hplain.
      rewrite subitems_unfold. right. simpl.
      apply elem_of_flat_map. by exists c. }
    clear Hplain. induction children as [|c cs IHcs]; [by exists false|].
    apply Forall_cons in IH as [IHc IH]. apply Forall_cons in Hall as [Hc Hall].
    destruct (IHcs IH Hall) as [b Hb]. simpl.
    rewrite (IHc Hc), bind_Done, Hb, bind_Done. by eexists. }
  destruct Hkids as [b ->]. by rewrite bind_Done.
Qed.

(** X18.  With an empty or whitespace-only query, and items whose data are
    strings, [filterTree] shows every item at every depth and changes
    nothing else. *)
Theorem X18_blank_query_shows_everything
    (lower : pystr → pystr) (query : pystr) (items : list item) :
  forallb py_isspace query = true →
  Forall plain_data items →
  filterTree lower query items = Done (unhide <$> items).
Proof.
  intros Hq Hitems. unfold filterTree, filter_tokens.
  rewrite split_ws_blank by done. simpl.
  assert (H : ∃ b, filterItems lower [] items = Done (b, unhide <$> items)).
  { induction Hitems as [|c cs Hc Hcs IH]; [by exists false|].
    destruct IH as [b Hb]. simpl.
    rewrite (filterItem_no_tokens lower c Hc), bind_Done, Hb, bind_Done.
    by eexists. }
  destruct H as [b ->]. done.
Qed.

Lemma X18_blank_query_shows_everything_witness :
  filterTree (fun s => s) [SPACE; TAB]
    [Item (str "A") (VStr (str "A")) true false
       [Item (str "B") (VStr (str "A::B")) true true []]]
  = Done (unhide <$>
            [Item (str "A") (VStr (str "A")) true false
               [Item (str "B") (VStr (str "A::B")) true true []]]).
Proof.
  apply X18_blank_query_shows_everything; [reflexivity|].
  repeat constructor. intros it' Hit'. vm_compute in Hit'.
  repeat (apply elem_of_cons in Hit' as [->|Hit']; [by eexists|]).
  by apply elem_of_nil in Hit'.
Defined.

Lemma filterItems_rule lower tokens cs s cs' :
  Forall (filtered_item lower tokens) cs →
  filterItems lower tokens cs = Done (s, cs') →
  s = existsb (fun c => negb (item_hidden c)) cs'
  ∧ unhide <$> cs' = unhide <$> cs
  ∧ filterItems lower tokens cs' = Done (s, cs')
  ∧ ∀ sub, sub ∈ all_items cs' → follows_rule lower tokens sub.
Proof.
  intros Hall. revert s cs'.
  induction Hall as [|c cs Hc Hcs IH]; intros s cs'; simpl.
  { intros [= <- <-]. split_and!; try done.
    intros sub Hsub. by apply elem_of_nil in Hsub. }
  destruct (filterItem lower tokens c) as [[sc c']|e] eqn:Hfc; [|done].
  rewrite bind_Done.
  destruct (filterItems lower tokens cs) as [[ss cs1]|e] eqn:Hfs; [|done].
  rewrite bind_Done. simpl. intros [= <- <-].
  destruct (Hc sc c' Hfc) as (-> & Hu & Hagain & Hrule).
  destruct (IH ss cs1 eq_refl) as (-> & Hus & Hagains & Hrules).
  split_and!.
  - done.
  - by rewrite !fmap_cons, Hu, Hus.
  - simpl. by rewrite Hagain, bind_Done, Hagains, bind_Done.
  - intros sub Hsub. unfold all_items in Hsub. simpl in Hsub.
    apply elem_of_app in Hsub as [Hsub|Hsub]; [by apply Hrule | by apply Hrules].
Qed.

Lemma filterItem_rule lower tokens it : filtered_item lower tokens it.
Proof.
  induction it as [text data hidden expanded children IH] using item_nested_ind.
  intros s it'. rewrite filterItem_unfold.
  destruct (matches lower tokens (Item text data hidden expanded children))
    as [me|e] eqn:Hme; [|done].
  rewrite bind_Done.
  destruct (filterItems lower tokens children) as [[sc cs']|e] eqn:Hcs; [|done].
  rewrite bind_Done. simpl. intros [= <- <-].
  destruct (filterItems_rule lower tokens children sc cs' IH Hcs)
    as (-> & Hu & Hagain & Hrule).
  assert (Hme' : matches lower tokens
                   (Item text data
                      (negb (me || existsb (fun c => negb (item_hidden c)) cs'))
                      expanded cs') = Done me)
    by (by rewrite <- Hme).
  split_and!.
  - simpl. by rewrite negb_involutive.
  - by rewrite !unhide_unfold, Hu.
  - rewrite filterItem_unfold, Hme', bind_Done, Hagain, bind_Done. done.
  - intros sub Hsub. rewrite subitems_unfold in Hsub.
    apply elem_of_cons in Hsub as [->|Hsub]; [by exists me | by apply Hrule].
Qed.

(** X19.  After [filterTree], at every depth, an item is shown exactly when
    it matches the query or one of its children is shown; so the parent of
    an item that is shown is shown too. *)
Theorem X19_shown_iff_matches_or_child_shown
    (lower : pystr → pystr) (query : pystr) (items items' : list item) :
  filterTree lower query items = Done items' →
  ∀ sub, sub ∈ all_items items' →
    (∃ me, matches lower (filter_tokens lower query) sub = Done me
           ∧ item_hidden sub
             = negb (me || existsb (fun c => negb (item_hidden c))
                             (item_children sub)))
    ∧ ∀ c, c ∈ item_children sub → item_hidden c = false →
           item_hidden sub = false.
Proof.
  unfold filterTree. intros Hf sub Hsub.
  destruct (filterItems lower (filter_tokens lower query) items)
    as [[s cs']|e] eqn:Hcs; [|done].
  rewrite bind_Done in Hf. injection Hf as <-.
  destruct (filterItems_rule lower (filter_tokens lower query) items s cs')
    as (_ & _ & _ & Hrule); [|done|].
  { apply Forall_forall. intros it _. apply filterItem_rule. }
  destruct (Hrule sub Hsub) as (me & Hme & Hhidden). split; [by exists me|].
  intros c Hc Hshown. rewrite Hhidden.
  assert (existsb (fun c => negb (item_hidden c)) (item_children sub) = true)
    as ->; [|by rewrite orb_true_r].
  apply existsb_exists. exists c. rewrite <- list_elem_of_In.
  by rewrite Hshown.
Qed.

Lemma X19_shown_iff_matches_or_child_shown_witness :
  (∃ me, matches (fun s => s) (filter_tokens (fun s => s) (str " B "))
           (Item (str "A") (VStr (str "A")) false true
              [Item (str "B") (VStr (str "A::B")) false false [];
               Item (str "C") (VStr (str "A::C")) true false []])
         = Done me
         ∧ false
           = negb (me || existsb (fun c => negb (item_hidden c))
                           [Item (str "B") (VStr (str "A::B")) false false [];
                            Item (str "C") (VStr (str "A::C")) true false []]))
  ∧ ∀ c, c ∈ [Item (str "B") (VStr (str "A::B")) false false [];
              Item (str "C") (VStr (str "A::C")) true false []] →
         item_hidden c = false → false = false.
Proof.
  apply (X19_shown_iff_matches_or_child_shown (fun s => s) (str " B ")
           [Item (str "A") (VStr (str "A")) true true
              [Item (str "B") (VStr (str "A::B")) true false [];
               Item (str "C") (VStr (str "A::C")) false false []]]
           [Item (str "A") (VStr (str "A")) false true
              [Item (str "B") (VStr (str "A::B")) false false [];
               Item (str "C") (VStr (str "A::C")) true false []]]
           eq_refl
           (Item (str "A") (VStr (str "A")) false true
              [Item (str "B") (VStr (str "A::B")) false false [];
               Item (str "C") (VStr (str "A::C")) true false []])).
  left.
Defined.

(** X20.  [filterTree] changes nothing but which items are hidden, and
    filtering once more with the same query changes nothing at all. *)
Theorem X20_filter_only_hides_and_is_stable
    (lower : pystr → pystr) (query : pystr) (items items' : list item) :
  filterTree lower query items = Done items' →
  unhide <$> items' = unhide <$> items
  ∧ filterTree lower query items' = Done items'.
Proof.
  unfold filterTree. intros Hf.
  destruct (filterItems lower (filter_tokens lower query) items)
    as [[s cs']|e] eqn:Hcs; [|done].
  rewrite bind_Done in Hf. injection Hf as <-.
  destruct (filterItems_rule lower (filter_tokens lower query) items s cs')
    as (_ & Hu & Hagain & _); [|done|].
  { apply Forall_forall. intros it _. apply filterItem_rule. }
  split; [done|]. by rewrite Hagain.
Qed.

Lemma X20_filter_only_hides_and_is_stable_witness :
  unhide <$> [Item (str "A") (VStr (str "A")) false true
                [Item (str "B") (VStr (str "A::B")) false false [];
                 Item (str "C") (VStr (str "A::C")) true false []]]
  = unhide <$> [Item (str "A") (VStr (str "A")) true true
                  [Item (str "B") (VStr (str "A::B")) true false [];
                   Item (str "C") (VStr (str "A::C")) false false []]]
  ∧ filterTree (fun s => s) (str " B ")
      [Item (str "A") (VStr (str "A")) false true
         [Item (str "B") (VStr (str "A::B")) false false [];
          Item (str "C") (VStr (str "A::C")) true false []]]
    = Done [Item (str "A") (VStr (str "A")) false true
              [Item (str "B") (VStr (str "A::B")) false false [];
               Item (str "C") (VStr (str "A::C")) true false []]].
Proof.
  apply (X20_filter_only_hides_and_is_stable (fun s => s) (str " B ")).
  vm_compute. reflexivity.
Defined.

Lemma filterItem_outcome lower tokens it :
  match filterItem lower tokens it with
  | Done _ => Forall (fun sub => ¬ dict_data sub) (subitems it)
  | Fail e => e = AttributeError ∧ Exists dict_data (subitems it)
  end.
Proof.
  induction it as [text data hidden expanded children IH] using item_nested_ind.
  rewrite filterItem_unfold, subitems_unfold. cbn [item_children].
  assert (Hkids :
    match filterItems lower tokens children with
    | Done _ => Forall (fun sub => ¬ dict_data sub) (flat_map subitems children)
    | Fail e => e = AttributeError
                ∧ Exists dict_data (flat_map subitems children)
    end).
  { induction IH as [|c cs Hc Hcs IHcs]; [by constructor|]. simpl.
    destruct (filterItem lower tokens c) as [rc|e].
    - rewrite bind_Done.
      destruct (filterItems lower tokens cs) as [rcs|e]; simpl.
      + by apply Forall_app.
      + destruct IHcs as [-> Hex]. split; [done|]. apply Exists_app. by right.
    - destruct Hc as [-> Hex]. split; [done|]. apply Exists_app. by left. }
  unfold matches. cbn [item_data].
  destruct data as [s|[|e es]]; simpl.
  - destruct (filterItems lower tokens children) as [r|e]; simpl.
    + constructor; [|done]. by intros (e & es & [=]).
    + destruct Hkids as [-> Hex]. split; [done|]. by apply Exists_cons_tl.
  - destruct (filterItems lower tokens children) as [r|e]; simpl.
    + constructor; [|done]. by intros (e & es & [=]).
    + destruct Hkids as [-> Hex]. split; [done|]. by apply Exists_cons_tl.
  - split; [done|]. apply Exists_cons_hd. by exists e, es.
Qed.

Lemma filterItems_outcome lower tokens items :
  match filterItems lower tokens items with
  | Done _ => Forall (fun sub => ¬ dict_data sub) (all_items items)
  | Fail e => e = AttributeError ∧ Exists dict_data (all_items items)
  end.
Proof.
  unfold all_items. induction items as [|c cs IH]; [by constructor|]. simpl.
  pose proof (filterItem_outcome lower tokens c) as Hc.
  destruct (filterItem lower tokens c) as [rc|e].
  - rewrite bind_Done.
    destruct (filterItems lower tokens cs) as [rcs|e]; simpl.
    + by apply Forall_app.
    + destruct IH as [-> Hex]. split; [done|]. apply Exists_app. by right.
  - destruct Hc as [-> Hex]. split; [done|]. apply Exists_app. by left.
Qed.

(** X21.  [filterTree] goes through exactly when no item, at any depth, has
    a dictionary that is not empty as its data; with such an item it fails
    with an [AttributeError], whatever the query, the empty one included. *)
Theorem X21_filter_fails_on_dictionary_data
    (lower : pystr → pystr) (query : pystr) (items : list item) :
  (Forall (fun sub => ¬ dict_data sub) (all_items items) →
   ∃ items', filterTree lower query items = Done items')
  ∧ (Exists dict_data (all_items items) →
     filterTree lower query items = Fail AttributeError).
Proof.
  unfold filterTree.
  pose proof (filterItems_outcome lower (filter_tokens lower query) items) as H.
  destruct (filterItems lower (filter_tokens lower query) items) as [r|e].
  - split; [by eexists|]. intros Hex. exfalso.
    apply Exists_exists in Hex as (sub & Hsub & Hbad).
    rewrite Forall_forall in H. by apply (H sub).
  - destruct H as [-> Hex]. split; [|done]. intros Hall. exfalso.
    apply Exists_exists in Hex as (sub & Hsub & Hbad).
    rewrite Forall_forall in Hall. by apply (Hall sub).
Qed.

Lemma X21_filter_fails_on_dictionary_data_witness :
  (∃ items', filterTree (fun s => s) (str "x")
               [Item (str "A") (VStr (str "A")) false false []] = Done items')
  ∧ filterTree (fun s => s) []
      [Item (str "A")
         (VDict [(str "x", VDict [(FULL, VStr (str "A::_full::x"))])])
         false false []]
    = Fail AttributeError.
Proof.
  split.
  - apply (proj1 (X21_filter_fails_on_dictionary_data (fun s => s) (str "x")
                    [Item (str "A") (VStr (str "A")) false false []])).
    repeat constructor. by intros (e & es & [=]).
  - apply (proj2 (X21_filter_fails_on_dictionary_data (fun s => s) []
                    [Item (str "A")
                       (VDict [(str "x", VDict [(FULL, VStr (str "A::_full::x"))])])
                       false false []])).
    apply Exists_cons_hd. by eexists _, _.
Defined.

(** The only tag ["A::_full::x"] gives an item whose data is a dictionary;
    filtering the tree built from it fails. *)
Example full_in_the_middle_breaks_the_filter :
  populateTree [str "A::_full::x"]
  = Done [Item (str "A")
            (VDict [(str "x", VDict [(FULL, VStr (str "A::_full::x"))])])
            false false []]
  ∧ (items ← populateTree [str "A::_full::x"]; filterTree (fun s => s) [] items)
    = Fail AttributeError.
Proof. split; vm_compute; reflexivity. Qed.

(** ** Saved expansions *)

Lemma walk_unfold exps text data hidden expanded children :
  walk exps (Item text data hidden expanded children)
  = (expanded' ←
       match data with
       | VStr s =>
           Done (if str_truthy s then default false (exps !! s) else expanded)
       | VDict [] => Done expanded
       | VDict (_ :: _) => Fail TypeError
       end;
     children' ← applySavedExpansions exps children;
     Done (Item text data hidden expanded' children')).
Proof.
  assert (Hloop : ∀ cs,
    (fix loop (cs : list item) : attempt (list item) :=
       match cs with
       | [] => Done []
       | c :: cs' =>
           c' ← walk exps c;
           cs'' ← loop cs';
           Done (c' :: cs'')
       end) cs = applySavedExpansions exps cs).
  { induction cs as [|c cs IH]; [done|]. simpl. by rewrite IH. }
  simpl. by rewrite Hloop.
Qed.

Lemma collapse_unfold text data hidden expanded children :
  collapse (Item text data hidden expanded children)
  = Item text data hidden false (collapse <$> children).
Proof. done. Qed.

Lemma walk_effect exps it it' :
  walk exps it = Done it' →
  item_text it' = item_text it ∧ item_data it' = item_data it
  ∧ item_hidden it' = item_hidden it
  ∧ collapse it' = collapse it
  ∧ applySavedExpansions exps (item_children it) = Done (item_children it')
  ∧ ∀ sub, sub ∈ subitems it' →
      ∀ s, item_data sub = VStr s → s ≠ [] →
           item_expanded sub = default false (exps !! s).
Proof.
  revert it'.
  induction it as [text data hidden expanded children IH] using item_nested_ind.
  intros it'. rewrite walk_unfold.
  assert (Hkids : ∀ cs',
    applySavedExpansions exps children = Done cs' →
    collapse <$> cs' = collapse <$> children
    ∧ ∀ sub, sub ∈ flat_map subitems cs' →
        ∀ s, item_data sub = VStr s → s ≠ [] →
             item_expanded sub = default false (exps !! s)).
  { induction IH as [|c cs Hc Hcs IHcs]; intros cs'; simpl.
    { intros [= <-]. split; [done|]. intros sub Hsub. by apply elem_of_nil in Hsub. }
    destruct (walk exps c) as [c'|] eqn:Hw; [|done]. rewrite bind_Done.
    destruct (applySavedExpansions exps cs) as [cs1|] eqn:Hcs1; [|done].
    rewrite bind_Done. intros [= <-].
    destruct (Hc c' eq_refl) as (_ & _ & _ & Hcol & _ & Hsub).
    destruct (IHcs cs1 eq_refl) as [Hcols Hsubs]. split.
    - by rewrite !fmap_cons, Hcol, Hcols.
    - intros sub [?|?]%elem_of_app; [by apply Hsub | by apply Hsubs]. }
  destruct (match data with
            | VStr s => _ | VDict [] => _ | VDict (_ :: _) => _ end)
    as [expanded'|] eqn:Hexp; [|done].
  rewrite bind_Done.
  destruct (applySavedExpansions exps children) as [cs'|] eqn:Hcs; [|done].
  rewrite bind_Done. intros [= <-].
  destruct (Hkids cs' eq_refl) as [Hcol Hsubs].
  cbn [item_text item_data item_hidden item_children]. split_and!; try done.
  - by rewrite !collapse_unfold, Hcol.
  - intros sub Hsub. rewrite subitems_unfold in Hsub.
    apply elem_of_cons in Hsub as [->|Hsub]; [|by apply Hsubs].
    cbn [item_data item_expanded]. intros s -> Hs. rewrite (proj2 (str_truthy_true s) Hs) in Hexp.
    by injection Hexp as <-.
Qed.

Lemma applySavedExpansions_effect exps items items' :
  applySavedExpansions exps items = Done items' →
  collapse <$> items' = collapse <$> items
  ∧ ∀ sub, sub ∈ all_items items' →
      ∀ s, item_data sub = VStr s → s ≠ [] →
           item_expanded sub = default false (exps !! s).
Proof.
  revert items'. induction items as [|c cs IH]; intros items'; simpl.
  { intros [= <-]. split; [done|]. intros sub Hsub. by apply elem_of_nil in Hsub. }
  destruct (walk exps c) as [c'|] eqn:Hw; [|done]. rewrite bind_Done.
  destruct (applySavedExpansions exps cs) as [cs1|] eqn:Hcs1; [|done].
  rewrite bind_Done. intros [= <-].
  destruct (walk_effect exps c c' Hw) as (_ & _ & _ & Hcol & _ & Hsub).
  destruct (IH cs1 eq_refl) as [Hcols Hsubs]. split.
  - by rewrite !fmap_cons, Hcol, Hcols.
  - intros sub [?|?]%elem_of_app; [by apply Hsub | by apply Hsubs].
Qed.

(** X22.  What was recorded when an item was expanded or collapsed is what
    [applySavedExpansions] gives back: afterwards every item whose data is
    the tag of that item has the recorded state, every other item with a
    tag as its data has the state recorded for its tag before, collapsed if
    none was; nothing but the expanded states changes. *)
Theorem X22_recorded_state_is_applied
    (exps exps' : gmap (list N) bool) (it : item) (expanded : bool)
    (items items' : list item) :
  onItemExpandedOrCollapsed exps it expanded = Done exps' →
  applySavedExpansions exps' items = Done items' →
  collapse <$> items' = collapse <$> items
  ∧ ∀ sub, sub ∈ all_items items' →
      ∀ s, item_data sub = VStr s → s ≠ [] →
           (item_data it = VStr s → item_expanded sub = expanded)
           ∧ (item_data it ≠ VStr s →
              item_expanded sub = default false (exps !! s)).
Proof.
  intros Hrec Happly.
  destruct (applySavedExpansions_effect exps' items items' Happly)
    as [Hcol Hsubs].
  split; [done|]. intros sub Hsub s Hs Hne. rewrite (Hsubs sub Hsub s Hs Hne).
  unfold onItemExpandedOrCollapsed in Hrec.
  destruct (item_data it) as [t|[|e es]]; [| |done].
  - injection Hrec as <-. split.
    + intros [= ->]. rewrite (proj2 (str_truthy_true s) Hne).
      by rewrite lookup_insert_eq.
    + intros Hts. destruct (str_truthy t); [|done].
      rewrite lookup_insert_ne; [done | congruence].
  - by injection Hrec as <-.
Qed.

Lemma X22_recorded_state_is_applied_witness :
  collapse <$> [Item (str "A") (VStr (str "A")) false true
                  [Item (str "B") (VStr (str "A::B")) false false []]]
  = collapse <$> [Item (str "A") (VStr (str "A")) false false
                    [Item (str "B") (VStr (str "A::B")) false true []]]
  ∧ ∀ sub,
      sub ∈ all_items [Item (str "A") (VStr (str "A")) false true
                         [Item (str "B") (VStr (str "A::B")) false false []]] →
      ∀ s, item_data sub = VStr s → s ≠ [] →
           (item_data (Item (str "A") (VStr (str "A")) false false []) = VStr s →
            item_expanded sub = true)
           ∧ (item_data (Item (str "A") (VStr (str "A")) false false []) ≠ VStr s →
              item_expanded sub
              = default false ((∅ : gmap (list N) bool) !! s)).
Proof.
  apply (X22_recorded_state_is_applied ∅ (<[str "A":=true]> ∅)
           (Item (str "A") (VStr (str "A")) false false []) true
           [Item (str "A") (VStr (str "A")) false false
              [Item (str "B") (VStr (str "A::B")) false true []]]).
  - reflexivity.
  - vm_compute. reflexivity.
Defined.

(** ** Opening the tree *)

Lemma restore_unfold exps text data hidden expanded children :
  restore exps (Item text data hidden expanded children)
  = Item text data hidden
      (match data with
       | VStr s => if str_truthy s then default false (exps !! s) else expanded
       | VDict _ => expanded
       end)
      (restore exps <$> children).
Proof. done. Qed.

Lemma plain_data_child text data hidden expanded children c :
  plain_data (Item text data hidden expanded children) → c ∈ children →
  plain_data c.
Proof.
  intros Hplain Hc it' Hit'. apply Hplain. rewrite subitems_unfold. right.
  apply elem_of_flat_map. by exists c.
Qed.

Lemma walk_plain exps it :
  plain_data it → walk exps (collapse it) = Done (restore exps (collapse it)).
Proof.
  induction it as [text data hidden expanded children IH] using item_nested_ind.
  intros Hplain. rewrite collapse_unfold, walk_unfold, restore_unfold.
  destruct (Hplain (Item text data hidden expanded children)) as [s Hs].
  { rewrite subitems_unfold. by left. }
  cbn [item_data] in Hs. subst data. rewrite bind_Done.
  assert (Hkids : applySavedExpansions exps (collapse <$> children)
                  = Done (restore exps <$> (collapse <$> children))).
  { assert (Hall : Forall plain_data children).
    { apply Forall_forall. intros c Hc. by eapply plain_data_child. }
    clear Hplain. induction children as [|c cs IHcs]; [done|].
    apply Forall_cons in IH as [IHc IH]. apply Forall_cons in Hall as [Hc Hall].
    rewrite !fmap_cons. simpl.
    by rewrite (IHc Hc), bind_Done, (IHcs IH Hall), bind_Done. }
  by rewrite Hkids, bind_Done.
Qed.

Lemma applySavedExpansions_plain exps items :
  Forall plain_data items →
  applySavedExpansions exps (collapse <$> items)
  = Done (restore exps <$> (collapse <$> items)).
Proof.
  induction 1 as [|c cs Hc Hcs IH]; [done|]. rewrite !fmap_cons. simpl.
  by rewrite (walk_plain exps c Hc), bind_Done, IH, bind_Done.
Qed.

Lemma addItems_plain v items :
  tree_ok v → addItems v = Done items → Forall plain_data items.
Proof.
  revert items. induction v as [s|d IH] using pyval_nested_ind; [done|].
  intros items Hd%tree_ok_dict. revert items.
  induction d as [|[k c] d IHd]; intros items.
  { by intros [= <-]. }
  apply Forall_cons in IH as [IHc IH]. apply Forall_cons in Hd as [Hc Hd].
  rewrite addItems_cons. unfold entry_ok in Hc. cbn [fst snd] in *.
  destruct (decide (k = FULL)); [by apply IHd|].
  destruct c as [s|ve]; [done|].
  destruct (addItems (VDict ve)) as [kids|] eqn:Hkids; [|done].
  destruct (addItems (VDict d)) as [siblings|] eqn:Hsib; [|done].
  rewrite !bind_Done. intros [= <-]. constructor; [|by apply IHd].
  pose proof (IHc kids Hc eq_refl) as Hkidsplain.
  intros it'. rewrite subitems_unfold. cbn [item_children].
  intros [->|Hin]%elem_of_cons.
  - cbn [item_data]. apply tree_ok_dict in Hc.
    destruct (dict_get ve FULL) as [f|] eqn:Hget; [|by eexists].
    pose proof (entries_ok_get ve FULL f Hc Hget) as Hf.
    unfold entry_ok in Hf. simpl in Hf. destruct Hf as [t ->]. by eexists.
  - apply elem_of_flat_map in Hin as (kid & Hkid & Hit').
    rewrite Forall_forall in Hkidsplain. by apply (Hkidsplain kid Hkid).
Qed.

(** Going down a tree commutes with a change of the flags of its items. *)
Lemma find_item_fmap (f : item → item) q items :
  (∀ it, item_text (f it) = item_text it) →
  (∀ it, item_children (f it) = f <$> item_children it) →
  find_item q (f <$> items) = f <$> find_item q items.
Proof.
  intros Htext Hkids. revert items.
  induction q as [|p q IH]; intros items; [done|]. simpl.
  assert (Hfind : find_by_text p (f <$> items) = f <$> find_by_text p items).
  { induction items as [|c cs IHcs]; [done|].
    rewrite fmap_cons, !find_by_text_cons, Htext, IHcs.
    by destruct (decide (item_text c = p)). }
  rewrite Hfind. destruct (find_by_text p items) as [it|]; [|done]. simpl.
  destruct q as [|p' q']; [done|]. by rewrite Hkids, IH.
Qed.

(** X23.  When no tag has a part ["_full"], the tree is filled without
    error when the widget is made, and the item of every tag is expanded
    exactly if the state saved for the tag says so: collapsed when nothing
    is saved for it, and always collapsed for the empty tag. *)
Theorem X23_tree_opens_with_saved_states
    (tags : list pystr) (exps : gmap (list N) bool) :
  Forall (fun t => FULL ∉ split_sep t) tags →
  ∃ items,
    tree_widget_init tags exps = Done items ∧
    ∀ t, t ∈ tags →
         ∃ kids,
           find_item (split_sep t) items
           = Some (Item (default [] (last (split_sep t))) (VStr t) false
                     (if str_truthy t then default false (exps !! t) else false)
                     kids).
Proof.
  intros Htags.
  destruct (populateTree_nodes tags Htags)
    as (v & items & _ & Hv & Hitems & Hpop & Hnodes).
  pose proof (addItems_plain v items Hv Hitems) as Hplain.
  eexists. unfold tree_widget_init. rewrite Hpop, bind_Done.
  split; [by apply applySavedExpansions_plain|].
  intros t Ht.
  assert (Hfull : FULL ∉ split_sep t)
    by (rewrite Forall_forall in Htags; by apply Htags).
  pose proof (items_follow_nodes (split_sep t) v items Hv Hitems
                (split_sep_nonempty t)) as Hfollow.
  rewrite (Hnodes _ (split_sep_nonempty t) Hfull) in Hfollow.
  rewrite (node_fold_tag tags t Ht) in Hfollow.
  rewrite decide_False in Hfollow by done. destruct Hfollow as [kids Hfind].
  rewrite (find_item_fmap (restore exps)), (find_item_fmap collapse), Hfind;
    [by eexists | by intros [] | by intros [] | by intros [] | by intros []].
Qed.

Lemma X23_tree_opens_with_saved_states_witness :
  ∃ items,
    tree_widget_init [str "A"; str "A::B"] (<[str "A":=true]> ∅) = Done items ∧
    ∀ t, t ∈ [str "A"; str "A::B"] →
         ∃ kids,
           find_item (split_sep t) items
           = Some (Item (default [] (last (split_sep t))) (VStr t) false
                     (if str_truthy t
                      then default false
                             ((<[str "A":=true]> ∅ : gmap (list N) bool) !! t)
                      else false)
                     kids).
Proof.
  apply (X23_tree_opens_with_saved_states [str "A"; str "A::B"]).
  repeat constructor; vm_compute; intros H;
    repeat (apply elem_of_cons in H as [H|H]; [discriminate|]);
    by apply elem_of_nil in H.
Defined.

(** ** From the outline to the tree *)

Lemma split_sep_colon_free s : COLON ∉ s → split_sep s = [s].
Proof.
  induction s as [|c s IH]; [done|].
  intros [Hc Hs]%not_elem_of_cons. simpl.
  destruct (N.eqb_spec c COLON) as [->|_]; [done|]. by rewrite (IH Hs).
Qed.

Lemma split_sep_app_sep s rest :
  COLON ∉ s → split_sep (s ++ SEP ++ rest) = s :: split_sep rest.
Proof.
  induction s as [|c s IH]; [done|].
  intros [Hc Hs]%not_elem_of_cons.
  change ((c :: s) ++ SEP ++ rest) with (c :: (s ++ SEP ++ rest)).
  cbn [split_sep]. destruct (N.eqb_spec c COLON) as [->|_]; [done|].
  by rewrite (IH Hs).
Qed.

Lemma split_sep_join segs :
  segs ≠ [] → Forall (fun seg => COLON ∉ seg) segs →
  split_sep (join SEP segs) = segs.
Proof.
  intros Hne Hsegs. induction Hsegs as [|seg segs Hseg Hsegs IH]; [done|].
  destruct segs as [|seg' segs']; [by apply split_sep_colon_free|].
  by rewrite join_cons_cons, split_sep_app_sep, IH.
Qed.

Lemma segment_form_colon_free lines seg :
  (∀ line, line ∈ lines → COLON ∉ content_of line) →
  segment_form lines seg → COLON ∉ seg.
Proof.
  intros Hlines (count & line & Hin & _ & _ & -> & _).
  rewrite !elem_of_app. intros [Hc|[Hc|Hc]].
  - pose proof (format_02d_digits count) as Hd. rewrite Forall_forall in Hd.
    by specialize (Hd _ Hc).
  - by apply list_elem_of_singleton in Hc.
  - unfold replace_spaces_with_underscores in Hc.
    apply list_elem_of_fmap in Hc as (c & Hc & Hin').
    destruct (N.eqb_spec c SPACE) as [_|_]; [done|].
    subst c. by apply (Hlines line Hin).
Qed.

(** X24.  When no line holds a colon in its content, every path the
    enumerator returns is split by ["::"] into exactly its segments, each a
    counter, an underscore and the content of a line; no part is ["_full"],
    so [populateTree] accepts the returned paths as tags and gives each path
    an item, reached along its segments, with the last segment as its text
    and the whole path as its data. *)
Theorem X24_returned_paths_nest_in_the_tree (lines out : list pystr) :
  parse_indented_subtags_enumerate_all lines = Ok out →
  (∀ line, line ∈ lines → COLON ∉ content_of line) →
  (∀ p, p ∈ out →
        Forall (segment_form lines) (split_sep p)
        ∧ join SEP (split_sep p) = p)
  ∧ ∃ items,
      populateTree out = Done items ∧
      ∀ p, p ∈ out →
           ∃ kids,
             find_item (split_sep p) items
             = Some (Item (default [] (last (split_sep p))) (VStr p)
                       false false kids).
Proof.
  intros Hout Hlines.
  assert (Hform : Forall (path_form lines) out).
  { revert Hout. unfold parse_indented_subtags_enumerate_all.
    destruct (for_each process_line initial_state lines) as [st|e] eqn:Hrun;
      [|done].
    rewrite bind_Ok. intros [= <-].
    destruct (reachable_names_form lines st Hrun) as [_ [_ Hres]].
    rewrite Forall_forall in Hres. apply Forall_forall.
    intros p Hp. apply Hres. by apply dedup_elem_of. }
  assert (Hsplit : ∀ p, p ∈ out → Forall (segment_form lines) (split_sep p)).
  { intros p Hp. rewrite Forall_forall in Hform.
    destruct (Hform p Hp) as (segs & Hne & -> & Hsegs).
    rewrite split_sep_join; [done..|].
    eapply Forall_impl; [exact Hsegs|].
    intros seg. by apply segment_form_colon_free. }
  assert (Htags : Forall (fun t => FULL ∉ split_sep t) out).
  { apply Forall_forall. intros p Hp Hfull.
    specialize (Hsplit p Hp). rewrite Forall_forall in Hsplit.
    destruct (segment_form_shape lines FULL (Hsplit FULL Hfull))
      as ((d & [= <-] & Hd) & _).
    discriminate. }
  split.
  { intros p Hp. split; [by apply Hsplit | apply join_split_sep]. }
  destruct (populateTree_nodes out Htags)
    as (v & items & _ & Hv & Hitems & Hpop & Hnodes).
  exists items. split; [done|]. intros t Ht.
  assert (Hfull : FULL ∉ split_sep t)
    by (rewrite Forall_forall in Htags; by apply Htags).
  pose proof (items_follow_nodes (split_sep t) v items Hv Hitems
                (split_sep_nonempty t)) as Hfollow.
  rewrite (Hnodes _ (split_sep_nonempty t) Hfull) in Hfollow.
  rewrite (node_fold_tag out t Ht) in Hfollow.
  by rewrite decide_False in Hfollow.
Qed.

Lemma X24_returned_paths_nest_in_the_tree_witness :
  (∀ p, p ∈ [str "01_Main_Tag"; str "01_Main_Tag::01_Sub_One"] →
        Forall (segment_form [str "Main Tag"; str "    Sub One"]) (split_sep p)
        ∧ join SEP (split_sep p) = p)
  ∧ ∃ items,
      populateTree [str "01_Main_Tag"; str "01_Main_Tag::01_Sub_One"]
      = Done items ∧
      ∀ p, p ∈ [str "01_Main_Tag"; str "01_Main_Tag::01_Sub_One"] →
           ∃ kids,
             find_item (split_sep p) items
             = Some (Item (default [] (last (split_sep p))) (VStr p)
                       false false kids).
Proof.
  apply (X24_returned_paths_nest_in_the_tree
           [str "Main Tag"; str "    Sub One"]).
  - vm_compute. reflexivity.
  - intros line Hin.
    repeat (apply elem_of_cons in Hin as [->|Hin]);
      [| |by apply elem_of_nil in Hin];
      vm_compute; intros H;
      repeat (apply elem_of_cons in H as [H|H]; [discriminate|]);
      by apply elem_of_nil in H.
Defined.

(** A content with ["::"] in it adds levels to the tree, and one that holds
    ["::_full"] gives a tag that [populateTree] cannot place under its
    parent. *)
Example colon_in_content_breaks_the_tree :
  parse_indented_subtags_enumerate_all [str "a"; str "a::_full"]
  = Ok [str "01_a"; str "02_a::_full"]
  ∧ populateTree [str "02_a"; str "02_a::_full"] = Fail TypeError.
Proof. vm_compute. split; reflexivity. Qed.

(** * The segment format *)

Lemma content_trimmed line : spec_trimmed line (content_of line).
Proof.
  unfold spec_trimmed, content_of. rewrite parse_indentation_level_spec. simpl.
  destruct (strip_decompose (after_leading_whitespace line))
    as (l & r & Hs & Hl & Hr).
  exists (leading_whitespace line ++ l), r. split_and!.
  - rewrite <- (assoc_L (++)), <- Hs. apply after_leading_whitespace_split.
  - by rewrite forallb_app, leading_whitespace_isspace.
  - done.
  - destruct (decide (strip (after_leading_whitespace line) = [])) as [?|Hne];
      [by left | right; by apply strip_ends].
Qed.

Lemma replace_decide c :
  replace_spaces_with_underscores c
  = (fun ch => if decide (ch = SPACE) then UNDERSCORE else ch) <$> c.
Proof.
  unfold replace_spaces_with_underscores. apply list_fmap_ext.
  intros _ ch _. destruct (N.eqb_spec ch SPACE), (decide (ch = SPACE)); done.
Qed.

Lemma last_seen_counted i lines line :
  last_seen i lines = Some line → 1 ≤ sibling_count i lines.
Proof.
  unfold last_seen, sibling_count. revert line.
  induction lines as [|l lines IH] using rev_ind; intros line; [done|].
  rewrite !foldl_snoc. unfold observe at 1, count_step at 1.
  destruct (is_blank l); [apply IH|].
  destruct (level_of l <? i); [done|].
  destruct (level_of l =? i); [lia | apply IH].
Qed.

Lemma last_seen_elem_of i lines line :
  last_seen i lines = Some line → line ∈ lines ∧ is_blank line = false.
Proof.
  intros (before & after & -> & Hb & _)%last_seen_Some. split; [|done].
  apply elem_of_app. right. by left.
Qed.

(** In a state a run can reach, the name held at a level is the segment of
    that level. *)
Lemma state_segments pre st :
  for_each process_line initial_state pre = Ok st →
  ∀ i, i < 50 →
       match last_seen i pre with
       | Some _ => ∃ seg, levels st !! i = Some (Some seg) ∧ spec_segment pre i seg
       | None => levels st !! i = Some None
       end.
Proof.
  intros Hrun i Hi. rewrite (levels_last_seen pre st Hrun i Hi).
  destruct (last_seen i pre) as [l|] eqn:Hl; [|done].
  eexists. split; [done|]. exists l, (content_of l).
  destruct (last_seen_elem_of _ _ _ Hl) as [_ Hb].
  split_and!.
  - done.
  - apply content_trimmed.
  - rewrite is_blank_content in Hb. by destruct (content_of l).
  - by eapply last_seen_counted.
  - unfold name_in. rewrite (counters_sibling_count pre st Hrun i Hi). simpl.
    by rewrite replace_decide.
  - apply format_02d_two_digits.
Qed.

Lemma line_path_segments pre st line st' :
  for_each process_line initial_state pre = Ok st →
  is_blank line = false →
  process_line st line = Ok st' →
  ∃ segs,
    results st' = results st ++ [join SEP segs]
    ∧ spec_path_segments (pre ++ [line]) (level_of line) segs.
Proof.
  intros Hpre Hb Hstep.
  destruct (reachable_names_form pre st Hpre) as [Hst _].
  destruct (decide (level_of line < 50)) as [Hk|Hk];
    [|rewrite process_line_deep in Hstep by (done || lia); done].
  assert (Hrun : for_each process_line initial_state (pre ++ [line]) = Ok st')
    by (by rewrite for_each_snoc, Hpre, bind_Ok).
  rewrite process_line_nonblank in Hstep by done. injection Hstep as <-.
  destruct (reachable_names_form _ _ Hrun) as [[_ Hlen] [Hnames _]].
  exists (omap id (take (level_of line + 1)
                     (levels (next_state st (level_of line) (content_of line))))).
  split.
  - rewrite <- stored_names_omap; [done|].
    apply Forall_take. eapply Forall_impl; [exact Hnames|].
    intros slot Hslot s ->. by eapply segment_form_nonempty, Hslot.
  - eexists. split_and!; [|done|].
    + rewrite length_take. lia.
    + intros i Hi. rewrite lookup_take_lt by lia.
      apply (state_segments _ _ Hrun). lia.
Qed.

Lemma last_seen_own pre line :
  is_blank line = false → last_seen (level_of line) (pre ++ [line]) = Some line.
Proof.
  intros Hb. unfold last_seen. rewrite foldl_snoc. unfold observe.
  by rewrite Hb, Nat.ltb_irrefl, Nat.eqb_refl.
Qed.

(** Every produced path is the path of a non-blank line. *)
Lemma run_paths_segments lines st :
  for_each process_line initial_state lines = Ok st →
  ∀ p, p ∈ results st →
       ∃ pre line post segs,
         lines = pre ++ line :: post ∧ is_blank line = false ∧
         p = join SEP segs ∧
         spec_path_segments (pre ++ [line]) (level_of line) segs.
Proof.
  revert st. induction lines as [|l lines IH] using rev_ind; intros st Hrun p Hp.
  { injection Hrun as <-. by apply elem_of_nil in Hp. }
  rewrite for_each_snoc in Hrun.
  destruct (for_each process_line initial_state lines) as [st1|e] eqn:Hpre;
    [|done].
  rewrite bind_Ok in Hrun.
  assert (Hold : p ∈ results st1 →
                 ∃ pre line post segs,
                   lines ++ [l] = pre ++ line :: post ∧ is_blank line = false ∧
                   p = join SEP segs ∧
                   spec_path_segments (pre ++ [line]) (level_of line) segs).
  { intros (pre & line & post & segs & -> & ? & ? & ?)%(IH st1 eq_refl).
    exists pre, line, (post ++ [l]), segs.
    by rewrite <- (assoc_L (++)). }
  destruct (is_blank l) eqn:Hb.
  { rewrite process_line_blank in Hrun by done. injection Hrun as <-.
    by apply Hold. }
  destruct (line_path_segments lines st1 l st Hpre Hb Hrun) as (segs & Hres & Hsegs).
  rewrite Hres in Hp. apply elem_of_app in Hp as [Hp|Hp]; [by apply Hold|].
  apply list_elem_of_singleton in Hp as ->.
  by exists lines, l, [], segs.
Qed.

(** Every non-blank line of an accepted input has its path produced. *)
Lemma run_lines_have_paths pre line post st :
  for_each process_line initial_state (pre ++ line :: post) = Ok st →
  is_blank line = false →
  ∃ segs,
    join SEP segs ∈ results st
    ∧ spec_path_segments (pre ++ [line]) (level_of line) segs.
Proof.
  intros Hrun Hb. rewrite for_each_app in Hrun.
  destruct (for_each process_line initial_state pre) as [st1|e] eqn:Hpre;
    [|done].
  rewrite bind_Ok in Hrun. simpl in Hrun.
  destruct (process_line st1 line) as [st2|e] eqn:Hstep; [|done].
  rewrite bind_Ok in Hrun.
  destruct (line_path_segments pre st1 line st2 Hpre Hb Hstep)
    as (segs & Hres & Hsegs).
  destruct (run_results_grow post st2 st Hrun) as (new & Hnew).
  exists segs. split; [|done].
  rewrite Hnew, Hres, !elem_of_app. left. right. by left.
Qed.

Lemma spec_segment_colon_free lines i seg :
  (∀ l, l ∈ lines → COLON ∉ l) → spec_segment lines i seg → COLON ∉ seg.
Proof.
  intros Hlines (l & c & Hl & (lw & rw & Hline & _) & _ & _ & -> & _).
  destruct (last_seen_elem_of _ _ _ Hl) as [Hin _].
  rewrite !elem_of_app. intros [Hc|[Hc|Hc]].
  - pose proof (format_02d_digits (sibling_count i lines)) as Hd.
    rewrite Forall_forall in Hd. by specialize (Hd _ Hc).
  - by apply list_elem_of_singleton in Hc.
  - apply list_elem_of_fmap in Hc as (ch & Hch & Hin').
    destruct (decide (ch = SPACE)); [done|]. subst ch.
    apply (Hlines l Hin). rewrite Hline, !elem_of_app. right. by left.
Qed.

Lemma spec_path_split lines k line segs :
  (∀ l, l ∈ lines → COLON ∉ l) →
  last_seen k lines = Some line →
  spec_path_segments lines k segs →
  split_sep (join SEP segs) = segs.
Proof.
  intros Hlines Hlast (slots & Hlen & -> & Hslots).
  apply split_sep_join.
  - pose proof (Hslots k (le_n _)) as Hk. rewrite Hlast in Hk.
    destruct Hk as (seg & Hseg & _). intros Hnil.
    assert (Hin : seg ∈ omap id slots).
    { apply list_elem_of_omap. exists (Some seg).
      split; [by eapply list_elem_of_lookup_2 | done]. }
    rewrite Hnil in Hin. by apply elem_of_nil in Hin.
  - apply Forall_forall. intros seg Hseg.
    apply list_elem_of_omap in Hseg as ([s|] & Hin & Heq); [|done].
    injection Heq as ->.
    apply list_elem_of_lookup_1 in Hin as [i Hi].
    pose proof (lookup_lt_Some _ _ _ Hi) as Hlt.
    assert (Hik : i ≤ k) by lia. specialize (Hslots i Hik).
    destruct (last_seen i lines); [|congruence].
    destruct Hslots as (seg' & Hs' & Hspec).
    rewrite Hi in Hs'. injection Hs' as <-.
    by eapply spec_segment_colon_free.
Qed.

(** C8 (as the code behaves).  Every path the enumerator returns is the
    path of a non-blank input line: the join by ["::"] of one segment for
    each level from 0 to the line's level at which a line is on record, the
    last one that of the line itself.  The segment of a level is the
    sibling counter of the level (the number of non-blank lines at the
    level since the last shallower non-blank line, at least 1, printed with
    two digits up to 99), an underscore, and the trimmed content of the
    line last seen at the level with every space replaced by an
    underscore.  When no line holds a colon, these segments are exactly the
    pieces of the path between its ["::"] separators.  Every non-blank line
    of an accepted input has such a path in the output.  Beyond 99 the
    counter is printed with all its digits and the run goes on: the
    hundredth sibling is numbered 100, and any number of siblings is
    accepted. *)
Theorem C8_paths_join_sibling_segments :
  (∀ lines out,
     parse_indented_subtags_enumerate_all lines = Ok out →
     (∀ p, p ∈ out →
        ∃ pre line post segs,
          lines = pre ++ line :: post ∧ whitespace_only line = false ∧
          p = join SEP segs ∧
          spec_path_segments (pre ++ [line]) (level_of line) segs ∧
          last_seen (level_of line) (pre ++ [line]) = Some line ∧
          ((∀ l, l ∈ lines → COLON ∉ l) → split_sep p = segs))
     ∧ (∀ pre line post,
          lines = pre ++ line :: post → whitespace_only line = false →
          ∃ segs,
            join SEP segs ∈ out
            ∧ spec_path_segments (pre ++ [line]) (level_of line) segs))
  ∧ (∃ out, parse_indented_subtags_enumerate_all (replicate 100 (str "x"))
            = Ok out
            ∧ out !! 98 = Some (str "99_x") ∧ out !! 99 = Some (str "100_x"))
  ∧ (∀ n, ∃ out,
       parse_indented_subtags_enumerate_all (replicate n (str "x")) = Ok out).
Proof.
  split_and!; [| |intros n; unfold parse_indented_subtags_enumerate_all;
    destruct (run_accepts (replicate n (str "x")) initial_state
                initial_state_well_sized) as [st ->];
    [apply Forall_replicate; right; vm_compute; lia | by eexists]].
  - intros lines out. unfold parse_indented_subtags_enumerate_all.
    destruct (for_each process_line initial_state lines) as [st|e] eqn:Hrun;
      [|done].
    rewrite bind_Ok. intros [= <-]. split.
    + intros p Hp. apply (proj1 (dedup_elem_of _ _)) in Hp.
      destruct (run_paths_segments lines st Hrun p Hp)
        as (pre & line & post & segs & -> & Hb & -> & Hsegs).
      pose proof (last_seen_own pre line Hb) as Hown.
      exists pre, line, post, segs. split_and!; try done.
      * by rewrite <- is_blank_whitespace_only.
      * intros Hcolon.
        apply (spec_path_split (pre ++ [line]) (level_of line) line segs);
          [|done..].
        intros l Hl. apply Hcolon.
        apply elem_of_app in Hl as [Hl|Hl]; apply elem_of_app; [by left|].
        right. apply list_elem_of_singleton in Hl as ->. by left.
    + intros pre line post -> Hw. rewrite <- is_blank_whitespace_only in Hw.
      destruct (run_lines_have_paths pre line post st Hrun Hw) as (segs & Hin & ?).
      exists segs. split; [by apply dedup_elem_of | done].
  - eexists. split_and!; vm_compute; reflexivity.
Qed.

Lemma C8_paths_join_sibling_segments_witness :
  ∃ pre line post segs,
    [str "Main Tag"; str "     Sub  One "; str ""; str "    Two"]
    = pre ++ line :: post ∧ whitespace_only line = false ∧
    str "01_Main_Tag::02_Two" = join SEP segs ∧
    spec_path_segments (pre ++ [line]) (level_of line) segs ∧
    last_seen (level_of line) (pre ++ [line]) = Some line ∧
    ((∀ l, l ∈ [str "Main Tag"; str "     Sub  One "; str ""; str "    Two"] →
           COLON ∉ l) →
     split_sep (str "01_Main_Tag::02_Two") = segs).
Proof.
  apply (proj1 (proj1 C8_paths_join_sibling_segments
                  [str "Main Tag"; str "     Sub  One "; str ""; str "    Two"]
                  [str "01_Main_Tag"; str "01_Main_Tag::01_Sub__One";
                   str "01_Main_Tag::02_Two"]
                  ltac:(vm_compute; reflexivity))).
  right. right. left.
Defined.

(** C8, as stated, fails for a content that holds ["::"]: the path of the
    line ["a::b"] is ["01_a::b"], whose second segment ["b"] has neither a
    counter nor an underscore. *)
Lemma C8_colon_segment_has_no_counter :
  parse_indented_subtags_enumerate_all [str "a::b"] = Ok [str "01_a::b"]
  ∧ split_sep (str "01_a::b") = [str "01_a"; str "b"]
  ∧ ¬ ∃ n c, str "b" = format_02d n ++ [UNDERSCORE] ++ c.
Proof.
  split_and!; [vm_compute; reflexivity | vm_compute; reflexivity |].
  intros (n & c & Heq). apply (f_equal length) in Heq.
  rewrite !length_app in Heq. pose proof (format_02d_length n). simpl in Heq. lia.
Qed.
